(** * Credential and access-token management of the EarthOne client

    A shallow embedding of [earthdaily/earthone/auth/auth.py]: the claims
    decoder, the token cache on disk, credential resolution in
    [Auth.__init__], the token accessor with its refresh and soft-degrade
    policy, and the active-groups filter.

    Conventions of the embedding.
    - Python values that come from arguments, the environment, a cache file
      or a token are values of [json]; [JNull] is Python's [None].
    - A Python [str] is a [string]; its UTF-8 encoding is the same [string],
      so [str.encode] returns its argument, or raises when the [str] holds
      a lone surrogate ([str_encode]), and [bytes.decode] is a check.
    - Numbers (JSON numbers, the leeway, the clock) are rationals.
    - Exceptions are their classes; messages are dropped.
    - Everything outside the process (clock, file system faults, the token
      endpoint, the environment) is read from the [World]. *)

From Stdlib Require Import ZArith QArith Lqa String Ascii List Bool Lia.
From stdpp Require Import base option gmap strings.
Import ListNotations.

Local Open Scope Z_scope.
Local Open Scope string_scope.
Local Open Scope list_scope.

(** ** Exceptions *)

Module Errno.
Definition ENOENT : Z := 2.
Definition EACCES : Z := 13.
Definition EEXIST : Z := 17.
Definition EISDIR : Z := 21.
End Errno.

(** Exception classes met in the module.  [FileExistsError] is the
    [OSError] whose errno is [EEXIST]. *)
Inductive exn : Type :=
| AuthError
| OauthError
| OSError (errno : Z)
| KeyError
| TypeError
| AttributeError
| ValueError
| UnicodeEncodeError
| IndexError
| Foreign (name : string).

(** Modelled from the spec: the class hierarchy of
    [earthdaily.earthone.exceptions], which is imported by auth.py but is
    not part of the sources at hand.  The spec has two error kinds, the
    credential error and the token-exchange error, and has the soft-degrade
    rule swallow a token-exchange error; the one handler in [Auth.token] is
    [except AuthError], so the token-exchange error [OauthError] is a kind
    of [AuthError]. *)
Definition isinstance_AuthError (e : exn) : bool :=
  match e with
  | AuthError | OauthError => true
  | _ => false
  end.

Definition isinstance_OSError (e : exn) : bool :=
  match e with
  | OSError _ => true
  | _ => false
  end.

Definition isinstance_FileExistsError (e : exn) : bool :=
  match e with
  | OSError n => Z.eqb n Errno.EEXIST
  | _ => false
  end.

Inductive res (A : Type) : Type :=
| Ok (a : A)
| Raise (e : exn).
Arguments Ok {A} a.
Arguments Raise {A} e.

Definition res_bind {A B} (r : res A) (k : A -> res B) : res B :=
  match r with
  | Ok a => k a
  | Raise e => Raise e
  end.

Definition of_option {A} (e : exn) (o : option A) : res A :=
  match o with
  | Some a => Ok a
  | None => Raise e
  end.

(** ** A state and exception monad

    A raised exception keeps the state reached so far, as in Python. *)

Definition M (S A : Type) : Type := S -> res A * S.

Definition ret {S A} (a : A) : M S A := fun s => (Ok a, s).

Definition raise {S A} (e : exn) : M S A := fun s => (Raise e, s).

Definition bind {S A B} (m : M S A) (k : A -> M S B) : M S B :=
  fun s =>
    match m s with
    | (Ok a, s') => k a s'
    | (Raise e, s') => (Raise e, s')
    end.

Definition lift_res {S A} (r : res A) : M S A := fun s => (r, s).

Definition gets {S A} (f : S -> A) : M S A := fun s => (Ok (f s), s).

Definition modify {S} (f : S -> S) : M S unit := fun s => (Ok tt, f s).

(** [try: m except C as e: h e]: only exceptions of class [C] are handled. *)
Definition try_except {S A} (m : M S A) (catches : exn -> bool)
    (h : exn -> M S A) : M S A :=
  fun s =>
    match m s with
    | (Ok a, s') => (Ok a, s')
    | (Raise e, s') => if catches e then h e s' else (Raise e, s')
    end.

(** [try: m finally: c]: the clean-up always runs; an exception it raises
    replaces the outcome of [m]. *)
Definition try_finally {S A} (m : M S A) (c : M S unit) : M S A :=
  fun s =>
    match m s with
    | (r, s') =>
        match c s' with
        | (Ok _, s'') => (r, s'')
        | (Raise e, s'') => (Raise e, s'')
        end
    end.

Definition when {S} (b : bool) (m : M S unit) : M S unit :=
  if b then m else ret tt.

Declare Scope py_scope.
Delimit Scope py_scope with py.
Notation "x <- m ;; k" := (bind m (fun x => k))
  (at level 100, m at next level, right associativity) : py_scope.
Notation "m ;;; k" := (bind m (fun _ => k))
  (at level 100, right associativity) : py_scope.

(** ** JSON values, as [json.loads] produces them *)

#[warnings="-register-all"]
Inductive json : Type :=
| JNull
| JBool (b : bool)
| JNum (q : Q)
| JStr (s : string)
| JArr (items : list json)
| JObj (fields : list (string * json)).

Definition dict : Type := list (string * json).

Definition of_str (o : option string) : json :=
  match o with
  | Some s => JStr s
  | None => JNull
  end.

Definition is_none (v : json) : bool :=
  match v with
  | JNull => true
  | _ => false
  end.

(** Python truth value. *)
Definition truthy (v : json) : bool :=
  match v with
  | JNull => false
  | JBool b => b
  | JNum q => negb (Qeq_bool q 0)
  | JStr s => negb (String.eqb s "")
  | JArr l => match l with [] => false | _ => true end
  | JObj l => match l with [] => false | _ => true end
  end.

Fixpoint assoc (k : string) (d : dict) : option json :=
  match d with
  | [] => None
  | (k', v) :: d' => if String.eqb k k' then Some v else assoc k d'
  end.

(** [d[k] = v]: an existing key keeps its place. *)
Fixpoint dict_set (k : string) (v : json) (d : dict) : dict :=
  match d with
  | [] => [(k, v)]
  | (k', v') :: d' =>
      if String.eqb k k' then (k', v) :: d' else (k', v') :: dict_set k v d'
  end.

(** [d.pop(k, None)], keeping only the dictionary. *)
Fixpoint dict_pop (k : string) (d : dict) : dict :=
  match d with
  | [] => []
  | (k', v') :: d' =>
      if String.eqb k k' then dict_pop k d' else (k', v') :: dict_pop k d'
  end.

Definition bool_num (b : bool) : Q := if b then 1%Q else 0%Q.

(** Python's [==] on JSON data. *)
Fixpoint json_eqb (a b : json) {struct a} : bool :=
  match a, b with
  | JNull, JNull => true
  | JBool x, JBool y => Bool.eqb x y
  | JBool x, JNum q => Qeq_bool (bool_num x) q
  | JNum q, JBool x => Qeq_bool q (bool_num x)
  | JNum p, JNum q => Qeq_bool p q
  | JStr s, JStr t => String.eqb s t
  | JArr l, JArr m =>
      (fix go (l m : list json) {struct l} : bool :=
         match l, m with
         | [], [] => true
         | x :: l', y :: m' => json_eqb x y && go l' m'
         | _, _ => false
         end) l m
  | JObj l, JObj m =>
      Nat.eqb (length l) (length m) &&
      (fix go (l : list (string * json)) {struct l} : bool :=
         match l with
         | [] => true
         | (k, v) :: l' =>
             match assoc k m with
             | Some v' => json_eqb v v'
             | None => false
             end && go l'
         end) l
  | _, _ => false
  end.

(** The value of a number; [bool] is a kind of [int]. *)
Definition as_number (v : json) : option Q :=
  match v with
  | JNum q => Some q
  | JBool b => Some (bool_num b)
  | _ => None
  end.

(** [v.get(k)]: only a dict has the method; a missing key gives [None]. *)
Definition py_get (v : json) (k : string) : res json :=
  match v with
  | JObj d => Ok (default JNull (assoc k d))
  | _ => Raise AttributeError
  end.

(** [v.get(k, dflt)]. *)
Definition py_get_default (v : json) (k : string) (dflt : json) : res json :=
  match v with
  | JObj d => Ok (default dflt (assoc k d))
  | _ => Raise AttributeError
  end.

(** [next((x for x in xs if x is not None), None)]. *)
Fixpoint first_not_none (xs : list json) : json :=
  match xs with
  | [] => JNull
  | x :: xs' => if is_none x then first_not_none xs' else x
  end.

(** ** Strings *)

Definition chars (s : string) : list string :=
  map (fun c => String c "") (list_ascii_of_string s).

(** [s.split(c)] for a one-character separator. *)
Fixpoint split_on (c : ascii) (s : string) : list string :=
  match s with
  | "" => [""]
  | String a s' =>
      if Ascii.eqb a c then "" :: split_on c s'
      else match split_on c s' with
           | x :: xs => String a x :: xs
           | [] => [String a ""]
           end
  end.

Definition startswith (s p : string) : bool := String.prefix p s.

(** [sub in s] on strings. *)
Fixpoint py_in (sub s : string) : bool :=
  String.prefix sub s ||
  match s with
  | "" => false
  | String _ s' => py_in sub s'
  end.

(** A lone surrogate, U+D800 to U+DFFF, has no UTF-8 encoding.  In the
    string of a [str] it stands as the three bytes that the scheme of UTF-8
    would give it: 0xED, then a byte from 0xA0 to 0xBF, then one more.  No
    encoding of another character has these first two bytes. *)
Fixpoint has_surrogate (s : string) : bool :=
  match s with
  | "" => false
  | String a s' =>
      match s' with
      | String b _ =>
          (Nat.eqb (nat_of_ascii a) 237
           && Nat.leb 160 (nat_of_ascii b) && Nat.leb (nat_of_ascii b) 191)
          || has_surrogate s'
      | "" => false
      end
  end.

(** [s.encode("utf-8")]. *)
Definition str_encode (s : string) : res string :=
  if has_surrogate s then Raise UnicodeEncodeError else Ok s.

Fixpoint repeat_str (s : string) (n : nat) : string :=
  match n with
  | O => ""
  | S n' => s +:+ repeat_str s n'
  end.

(** [sep.join(xs)]. *)
Fixpoint str_join (sep : string) (xs : list string) : string :=
  match xs with
  | [] => ""
  | [x] => x
  | x :: xs' => x +:+ sep +:+ str_join sep xs'
  end.

(** Iterating a JSON value: a list gives its items, a string its
    characters, a dict its keys; anything else is not iterable. *)
Definition py_iter (v : json) : res (list json) :=
  match v with
  | JArr l => Ok l
  | JStr s => Ok (map JStr (chars s))
  | JObj d => Ok (map (fun kv => JStr (fst kv)) d)
  | _ => Raise TypeError
  end.

Fixpoint all_str (l : list json) : res (list string) :=
  match l with
  | [] => Ok []
  | JStr s :: l' => res_bind (all_str l') (fun r => Ok (s :: r))
  | _ :: _ => Raise TypeError
  end.

(** [" ".join(v)]. *)
Definition py_join (sep : string) (v : json) : res string :=
  res_bind (py_iter v) (fun l =>
  res_bind (all_str l) (fun ss => Ok (str_join sep ss))).

(** ** Paths (posixpath) *)

(** Splits at the last slash: the head keeps the slash. *)
Fixpoint split_last_slash (p : string) : option (string * string) :=
  match p with
  | "" => None
  | String c p' =>
      match split_last_slash p' with
      | Some (h, t) => Some (String c h, t)
      | None => if Ascii.eqb c "/" then Some ("/", p') else None
      end
  end.

Fixpoint all_slashes (s : string) : bool :=
  match s with
  | "" => true
  | String c s' => Ascii.eqb c "/" && all_slashes s'
  end.

(** [s.rstrip("/")]. *)
Fixpoint rstrip_slash (s : string) : string :=
  match s with
  | "" => ""
  | String c s' =>
      match rstrip_slash s' with
      | "" => if Ascii.eqb c "/" then "" else String c ""
      | r => String c r
      end
  end.

Definition dirname (p : string) : string :=
  match split_last_slash p with
  | None => ""
  | Some (h, _) => if all_slashes h then h else rstrip_slash h
  end.

Definition basename (p : string) : string :=
  match split_last_slash p with
  | None => p
  | Some (_, t) => t
  end.

Definition endswith_slash (s : string) : bool :=
  match split_last_slash s with
  | Some (_, "") => true
  | _ => false
  end.

(** [os.path.join(a, b)]. *)
Definition path_join (a b : string) : string :=
  if startswith b "/" then b
  else if String.eqb a "" || endswith_slash a then a +:+ b
  else a +:+ "/" +:+ b.

Fixpoint lower (s : string) : string :=
  match s with
  | "" => ""
  | String c s' =>
      let n := nat_of_ascii c in
      String (if (Nat.leb 65 n && Nat.leb n 90)%bool
              then ascii_of_nat (n + 32) else c) (lower s')
  end.

(** ** The world outside the process *)

(** A file holds a JSON text or, with [None], something that is none: it
    is empty, or its writing broke off. *)
Inductive node : Type :=
| Dir (mode : Z)
| File (mode : Z) (content : option json).

(** The calls that can fail for reasons of their own.  [SysOpen] stands for
    [open] followed by [json.load]; [SysWrite] for [os.fdopen], [json.dump]
    and the close that ends the [with] block. *)
Inductive syscall : Type :=
| SysOpen (p : string)
| SysMakedirs (p : string)
| SysChmod (p : string) (mode : Z)
| SysMkstemp (dir prefix : string)
| SysWrite (p : string)
| SysRename (src dst : string)
| SysRemove (p : string)
| SysClose (p : string).

Record response : Type := {
  status_code : Z;
  text : string;
  body : option json          (* [r.json()]; [None] when it raises *)
}.

(** What [session.post] does: it hands a response back, or it raises.  The
    session is not code of the module; which answers of the endpoint it
    hands back, and for which it raises an error of its own, is left to
    the world. *)
Inductive post_result : Type :=
| Responds (r : response)
| Fails (e : exn).

(** [tick] counts the interactions with the outside so far; the clock, the
    injected operating-system faults, the temporary names and the token
    endpoint are indexed by it, so that each of them may answer differently
    every time.  The fields after [warned] are never written. *)
Record World : Type := {
  tick : nat;
  files : gmap string node;
  posted : list dict;               (* bodies of the POSTs to /token *)
  warned : list string;             (* [warnings.warn] *)
  environ : gmap string string;
  home : string;                    (* [os.path.expanduser("~")] *)
  iam_url : string;                 (* [peek_settings().iam_url] *)
  clock : nat -> Q;                 (* seconds since the epoch *)
  os_fault : nat -> syscall -> option Z;   (* errno of an [OSError] *)
  mkstemp_name : nat -> string;
  http_post : nat -> dict -> post_result;
  nt : bool                         (* [os.rename] refuses to replace *)
}.

Definition with_files (f : gmap string node) (w : World) : World :=
  {| tick := tick w; files := f; posted := posted w; warned := warned w;
     environ := environ w; home := home w; iam_url := iam_url w;
     clock := clock w; os_fault := os_fault w;
     mkstemp_name := mkstemp_name w; http_post := http_post w; nt := nt w |}.

Definition advance (w : World) : World :=
  {| tick := S (tick w); files := files w; posted := posted w;
     warned := warned w;
     environ := environ w; home := home w; iam_url := iam_url w;
     clock := clock w; os_fault := os_fault w;
     mkstemp_name := mkstemp_name w; http_post := http_post w; nt := nt w |}.

Definition with_posted (p : list dict) (w : World) : World :=
  {| tick := tick w; files := files w; posted := p; warned := warned w;
     environ := environ w; home := home w; iam_url := iam_url w;
     clock := clock w; os_fault := os_fault w;
     mkstemp_name := mkstemp_name w; http_post := http_post w; nt := nt w |}.

Definition with_warned (l : list string) (w : World) : World :=
  {| tick := tick w; files := files w; posted := posted w; warned := l;
     environ := environ w; home := home w; iam_url := iam_url w;
     clock := clock w; os_fault := os_fault w;
     mkstemp_name := mkstemp_name w; http_post := http_post w; nt := nt w |}.

Definition warn (msg : string) : M World unit :=
  modify (fun w => with_warned (warned w ++ [msg]) w).

(** [os.environ.get(k)]. *)
Definition getenv (k : string) : M World (option string) :=
  gets (fun w => environ w !! k).

(** The clock, read once. *)
Definition now : M World Q :=
  fun w => (Ok (clock w (tick w)), advance w).

(** A call into the operating system: an injected fault wins, otherwise the
    call acts on the files. *)
Definition sys {A} (c : syscall) (act : M World A) : M World A :=
  fun w =>
    match os_fault w (tick w) c with
    | Some n => (Raise (OSError n), advance w)
    | None => act (advance w)
    end.

Definition os_path_exists (p : string) : M World bool :=
  gets (fun w => bool_decide (is_Some (files w !! p))).

Definition read_json (p : string) : M World json :=
  sys (SysOpen p) (fun w =>
    match files w !! p with
    | Some (File _ (Some j)) => (Ok j, w)
    | Some (File _ None) => (Raise ValueError, w)
    | Some (Dir _) => (Raise (OSError Errno.EISDIR), w)
    | None => (Raise (OSError Errno.ENOENT), w)
    end).

(** Only the directory itself is recorded, not its ancestors. *)
Definition os_makedirs (p : string) : M World unit :=
  sys (SysMakedirs p) (fun w =>
    if String.eqb p "" then (Raise (OSError Errno.ENOENT), w)
    else match files w !! p with
         | Some _ => (Raise (OSError Errno.EEXIST), w)
         | None => (Ok tt, with_files (<[p := Dir 511]> (files w)) w)
         end).

Definition os_chmod (p : string) (mode : Z) : M World unit :=
  sys (SysChmod p mode) (fun w =>
    match files w !! p with
    | Some (Dir _) => (Ok tt, with_files (<[p := Dir mode]> (files w)) w)
    | Some (File _ c) => (Ok tt, with_files (<[p := File mode c]> (files w)) w)
    | None => (Raise (OSError Errno.ENOENT), w)
    end).

(** [tempfile.mkstemp(prefix=prefix, dir=dir)]: one candidate name is
    tried; the file is created empty with mode 0o600. *)
Definition mkstemp (prefix dir : string) : M World string :=
  fun w0 =>
    sys (SysMkstemp dir prefix) (fun w =>
      let name := path_join dir (prefix +:+ mkstemp_name w0 (tick w0)) in
      match files w !! dir with
      | Some (Dir _) =>
          match files w !! name with
          | Some _ => (Raise (OSError Errno.EEXIST), w)
          | None => (Ok name, with_files (<[name := File 384 None]> (files w)) w)
          end
      | _ => (Raise (OSError Errno.ENOENT), w)
      end) w0.

(** [json.dump] through the descriptor that [mkstemp] opened.  The file is
    the temporary one, which holds no text yet; a write that fails leaves
    it without one. *)
Definition write_json (p : string) (j : json) : M World unit :=
  sys (SysWrite p) (fun w =>
    match files w !! p with
    | Some (File m _) => (Ok tt, with_files (<[p := File m (Some j)]> (files w)) w)
    | _ => (Raise (OSError Errno.ENOENT), w)
    end).

Definition os_rename (src dst : string) : M World unit :=
  sys (SysRename src dst) (fun w =>
    match files w !! src with
    | None => (Raise (OSError Errno.ENOENT), w)
    | Some n =>
        match files w !! dst with
        | Some (Dir _) => (Raise (OSError Errno.EISDIR), w)
        | Some (File _ _) =>
            if nt w then (Raise (OSError Errno.EEXIST), w)
            else (Ok tt, with_files (<[dst := n]> (delete src (files w))) w)
        | None => (Ok tt, with_files (<[dst := n]> (delete src (files w))) w)
        end
    end).

Definition os_remove (p : string) : M World unit :=
  sys (SysRemove p) (fun w =>
    match files w !! p with
    | Some (File _ _) => (Ok tt, with_files (delete p (files w)) w)
    | Some (Dir _) => (Raise (OSError Errno.EISDIR), w)
    | None => (Raise (OSError Errno.ENOENT), w)
    end).

Definition os_close (p : string) : M World unit :=
  sys (SysClose p) (ret tt).

(** ** Module constants *)

Definition LEGACY_DELEGATION_CLIENT_IDS : list string :=
  ["ZOBAi4UROl5gKZIpxxlwOEfx8KpqXf2c"].
Definition JWT_TOKEN_PREFIX : string := "jwt_token_".
Definition EARTHONE_CLIENT_ID : string := "EARTHONE_CLIENT_ID".
Definition EARTHONE_CLIENT_SECRET : string := "EARTHONE_CLIENT_SECRET".
Definition EARTHONE_REFRESH_TOKEN : string := "EARTHONE_REFRESH_TOKEN".
Definition EARTHONE_TOKEN : string := "EARTHONE_TOKEN".
Definition EARTHONE_TOKEN_INFO_PATH : string := "EARTHONE_TOKEN_INFO_PATH".
Definition EARTHONE_CUSTOM_CLAIM_PREFIX : string := "earthdaily__dl__".

Definition DEFAULT_TOKEN_INFO_DIR (w : World) : string :=
  path_join (home w) ".earthone".
Definition DEFAULT_TOKEN_INFO_PATH (w : World) : string :=
  path_join (DEFAULT_TOKEN_INFO_DIR w) "token_info.json".

Definition KEY_CLIENT_ID : string := "client_id".
Definition KEY_CLIENT_SECRET : string := "client_secret".
Definition KEY_REFRESH_TOKEN : string := "refresh_token".
Definition KEY_SCOPE : string := "scope".
Definition KEY_GRANT_TYPE : string := "grant_type".
Definition KEY_TARGET : string := "target".
Definition KEY_API_TYPE : string := "api_type".
Definition KEY_JWT_TOKEN : string := "jwt_token".
Definition KEY_ALT_JWT_TOKEN : string := "JWT_TOKEN".

Definition S_IRWXU : Z := 448.    (* S_IRUSR | S_IWUSR | S_IXUSR *)
Definition S_IRW : Z := 384.      (* S_IRUSR | S_IWUSR *)

(** ** The token cache on disk *)

Definition makedirs_if_not_exists (path : string) : M World unit :=
  (ex <- os_path_exists path ;;
   if ex then ret tt
   else try_except
          (os_makedirs path ;;; os_chmod path S_IRWXU)
          isinstance_OSError
          (fun ex => match ex with
                     | OSError n => if Z.eqb n Errno.EEXIST then ret tt
                                    else raise ex
                     | _ => raise ex
                     end))%py.

Definition _read_token_info (path : string) (suppress_warning : bool)
    : M World json :=
  (no_cache <- getenv "EARTHONE_NO_JWT_CACHE" ;;
   if String.eqb (lower (default "" no_cache)) "true" then ret (JObj [])
   else try_except (read_json path) (fun _ => true)
          (fun _ =>
             when (negb suppress_warning)
               (warn ("Unable to read token_info from " +:+ path)) ;;;
             ret (JObj [])))%py.

(** The local variables of [_write_token_info] that its handlers read. *)
Record wlocals : Type := {
  fd : option string;              (* the open descriptor, by its path *)
  temp_path : option string;
  suppress_warning : bool
}.

Definition in_world {L A} (m : M World A) : M (L * World) A :=
  fun s =>
    match m (snd s) with
    | (r, w') => (r, (fst s, w'))
    end.

Definition set_local {L} (f : L -> L) : M (L * World) unit :=
  modify (fun s => (f (fst s), snd s)).

Definition get_local {L A} (f : L -> A) : M (L * World) A :=
  gets (fun s => f (fst s)).

Definition initial_locals : wlocals :=
  {| fd := None; temp_path := None; suppress_warning := false |}.

(** From the stripping of the payload to the rename: the statements that
    follow [tempfile.mkstemp] under the [try]. *)
Definition publish (tp path : string) (token_info : dict)
    : M (wlocals * World) unit :=
  (token_info <-
     (if py_in JWT_TOKEN_PREFIX path then
        v <- lift_res (of_option KeyError (assoc KEY_JWT_TOKEN token_info)) ;;
        set_local (fun l => {| fd := fd l; temp_path := temp_path l;
                               suppress_warning := true |}) ;;;
        ret [(KEY_JWT_TOKEN, v)]
      else ret token_info) ;;
   try_finally
     (in_world (write_json tp (JObj token_info)))
     (set_local (fun l => {| fd := None; temp_path := temp_path l;
                             suppress_warning := suppress_warning l |})) ;;;
   in_world (os_chmod tp S_IRW) ;;;
   try_except (in_world (os_rename tp path))
     isinstance_FileExistsError
     (fun _ =>
        (* on windows remove the file first *)
        in_world (os_remove path) ;;;
        in_world (os_rename tp path)))%py.

(** The statements under the [try].  A token held as [bytes] would be
    decoded first; no value of [json] is one, so that branch does not
    appear. *)
Definition write_attempt (path : string) (token_info : dict)
    : M (wlocals * World) unit :=
  (in_world (makedirs_if_not_exists (dirname path)) ;;;
   tp <- in_world (mkstemp ("." +:+ basename path +:+ ".") (dirname path)) ;;
   set_local (fun l => {| fd := Some tp; temp_path := Some tp;
                          suppress_warning := suppress_warning l |}) ;;;
   publish tp path token_info)%py.

(** The [except Exception] handler. *)
Definition write_failed (e : exn) : M (wlocals * World) unit :=
  (quiet <- get_local suppress_warning ;;
   when (negb quiet) (in_world (warn "Failed to save token")))%py.

(** The [finally] block: its two statements. *)
Definition close_descriptor : M (wlocals * World) unit :=
  (open_fd <- get_local fd ;;
   match open_fd with
   | Some p => in_world (os_close p)
   | None => ret tt
   end)%py.

Definition remove_temp : M (wlocals * World) unit :=
  (tp <- get_local temp_path ;;
   match tp with
   | Some p =>
       ex <- in_world (os_path_exists p) ;;
       when ex (in_world (os_remove p))
   | None => ret tt
   end)%py.

Definition write_cleanup : M (wlocals * World) unit :=
  (close_descriptor ;;; remove_temp)%py.

Definition _write_token_info (path : string) (token_info : dict)
    : M World unit :=
  fun w =>
    match try_finally
            (try_except (write_attempt path token_info) (fun _ => true)
               write_failed)
            write_cleanup (initial_locals, w)
    with
    | (r, (_, w')) => (r, w')
    end.

(** ** The standard library functions the module calls

    [base64.urlsafe_b64decode], [bytes.decode("utf-8")], [json.loads] and
    [hashlib.sha1(...).hexdigest()] are not code of the module: every
    definition and theorem below is stated for any implementation of them.
    [None] stands for the exception the function raises. *)
Class PyLib : Type := {
  urlsafe_b64decode : string -> option string;
  utf8_decode : string -> option string;
  json_loads : string -> option json;
  sha1_hexdigest : string -> string
}.

Section Auth.
Context `{PyLib}.

(** ** Decoding the claims of a token *)

Definition base64url_decode (input : string) : res string :=
  let rem := (String.length input mod 4)%nat in
  let input :=
    if (0 <? rem)%nat then input +:+ repeat_str "=" (4 - rem) else input in
  of_option ValueError (urlsafe_b64decode input).

(** The steps inside the [try] of [_get_payload], with the exception each
    one raises. *)
Definition read_claims (token : json) : res json :=
  match token with
  | JStr t =>
      res_bind (of_option IndexError (split_on "." t !! 1%nat)) (fun claims =>
      res_bind (base64url_decode claims) (fun raw =>
      res_bind (of_option ValueError (utf8_decode raw)) (fun txt =>
      of_option ValueError (json_loads txt))))
  | _ => Raise AttributeError          (* no [split] method *)
  end.

Definition _get_payload (token : json) : res json :=
  res_bind
    (match token with
     | JStr s => res_bind (str_encode s) (fun b => Ok (JStr b))
     | _ => Ok token
     end) (fun token =>
  match read_claims token with
  | Ok claims => Ok claims
  | Raise _ =>
      (* anything that goes wrong here means it's a bad token *)
      Raise AuthError
  end).

(** ** The Auth object *)

Record Auth : Type := {
  domain : string;
  scope : json;
  leeway : Q;
  token_info_path : option string;
  client_id : json;
  client_secret : json;
  refresh_token : json;
  _token : json;
  _namespace : json;
  (* the entries of [__dict__] that [_clear_cache] scrubs *)
  _payload : option json;
  _aas : option (list string);
  _aasas : option (gset string);
  _aoas : option (list string);
  _aoasas : option (gset string)
}.

Definition set_token (t : json) (a : Auth) : Auth :=
  {| domain := domain a; scope := scope a; leeway := leeway a;
     token_info_path := token_info_path a; client_id := client_id a;
     client_secret := client_secret a; refresh_token := refresh_token a;
     _token := t; _namespace := _namespace a; _payload := _payload a;
     _aas := _aas a; _aasas := _aasas a; _aoas := _aoas a;
     _aoasas := _aoasas a |}.

Definition set_payload (p : json) (a : Auth) : Auth :=
  {| domain := domain a; scope := scope a; leeway := leeway a;
     token_info_path := token_info_path a; client_id := client_id a;
     client_secret := client_secret a; refresh_token := refresh_token a;
     _token := _token a; _namespace := _namespace a; _payload := Some p;
     _aas := _aas a; _aasas := _aasas a; _aoas := _aoas a;
     _aoasas := _aoasas a |}.

Definition _clear_cache (a : Auth) : Auth :=
  {| domain := domain a; scope := scope a; leeway := leeway a;
     token_info_path := token_info_path a; client_id := client_id a;
     client_secret := client_secret a; refresh_token := refresh_token a;
     _token := _token a; _namespace := JNull; _payload := None;
     _aas := None; _aasas := None; _aoas := None; _aoasas := None |}.

Definition _token_expired (payload : json) (leeway : Q) : M World bool :=
  (exp <- lift_res (py_get payload "exp") ;;
   if is_none exp then ret true          (* must have exp *)
   else
     t <- now ;;
     match as_number exp with
     | Some e => ret (negb (Qle_bool (t + leeway) e))      (* now + leeway > exp *)
     | None => raise TypeError
     end)%py.

(** ** Refreshing the token *)

(** A path that counts as true. *)
Definition usable (p : option string) : option string :=
  match p with
  | Some s => if String.eqb s "" then None else Some s
  | None => None
  end.

Definition default_scope : json :=
  JArr [JStr "openid"; JStr "name"; JStr "groups"; JStr "org"; JStr "email"].

(** The body of the request. *)
Definition token_params (a : Auth) : res dict :=
  if existsb (fun c => json_eqb (client_id a) (JStr c))
       LEGACY_DELEGATION_CLIENT_IDS
  then
    let sc := if is_none (scope a) then default_scope else scope a in
    res_bind (py_join " " sc) (fun s =>
    Ok [(KEY_SCOPE, JStr s);
        (KEY_CLIENT_ID, client_id a);
        (KEY_GRANT_TYPE, JStr "urn:ietf:params:oauth:grant-type:jwt-bearer");
        (KEY_TARGET, client_id a);
        (KEY_API_TYPE, JStr "app");
        (KEY_REFRESH_TOKEN, refresh_token a)])
  else
    let params := [(KEY_CLIENT_ID, client_id a);
                   (KEY_GRANT_TYPE, JStr "refresh_token");
                   (KEY_REFRESH_TOKEN, refresh_token a)] in
    if is_none (scope a) then Ok params
    else res_bind (py_join " " (scope a)) (fun s =>
         Ok (dict_set KEY_SCOPE (JStr s) params)).

(** [self.session.post("/token", json=params, timeout=timeout)]: the
    request is recorded, the session hands a response back or raises. *)
Definition session_post (params : dict) : M World response :=
  fun w =>
    let w' := with_posted (posted w ++ [params]) (advance w) in
    match http_post w (tick w) params with
    | Responds r => (Ok r, w')
    | Fails e => (Raise e, w')
    end.

(** Read the token from the token_info_path, and save it again. *)
Definition persist_token : M (Auth * World) unit :=
  (a <- gets fst ;;
   match usable (token_info_path a) with
   | Some path =>
       token_info <- in_world (_read_token_info path true) ;;
       match token_info with
       | JObj stored =>
           let token_info :=
             if negb (json_eqb (default JNull (assoc KEY_CLIENT_ID stored))
                        (client_id a))
                || negb (json_eqb
                           (default JNull (assoc KEY_CLIENT_SECRET stored))
                           (client_secret a))
             then (* not matching; better rewrite! *)
               [(KEY_CLIENT_ID, client_id a);
                (KEY_CLIENT_SECRET, client_secret a);
                (KEY_REFRESH_TOKEN, refresh_token a)]
             else stored in
           let token_info := dict_set KEY_JWT_TOKEN (_token a) token_info in
           let token_info := dict_pop KEY_ALT_JWT_TOKEN token_info in
           in_world (_write_token_info path token_info)
       | _ => raise AttributeError       (* [token_info.get] *)
       end
   | None => ret tt
   end)%py.

Definition _get_token : M (Auth * World) unit :=
  (a <- gets fst ;;
   if is_none (client_id a) then raise AuthError
   else if is_none (client_secret a) && is_none (refresh_token a)
   then raise AuthError
   else
     params <- lift_res (token_params a) ;;
     r <- in_world (session_post params) ;;
     if negb (Z.eqb (status_code r) 200) then raise OauthError
     else
       data <- lift_res (of_option ValueError (body r)) ;;
       access_token <- lift_res (py_get data "access_token") ;;
       id_token <- lift_res (py_get data "id_token") ;;
       (if negb (is_none access_token) then set_local (set_token access_token)
        else if negb (is_none id_token) then set_local (set_token id_token)
        else raise OauthError) ;;;
       (* clear out payload and subjects cache *)
       set_local _clear_cache ;;;
       persist_token)%py.

(** ** The token accessor *)

Definition token : M (Auth * World) json :=
  (held <- get_local _token ;;
   (if is_none held then _get_token
    else
      (* might have token but could be close to expiration *)
      payload <- lift_res (_get_payload held) ;;
      margin <- get_local leeway ;;
      expiring <- in_world (_token_expired payload margin) ;;
      when expiring
        (try_except _get_token isinstance_AuthError
           (fun e =>
              (* unable to refresh, raise if truly expired *)
              gone <- in_world (_token_expired payload 0) ;;
              if gone then raise e else ret tt))) ;;;
   get_local _token)%py.

(** ** Claims and the active-groups filter *)

Fixpoint drop_str (n : nat) (s : string) : string :=
  match n, s with
  | O, _ => s
  | S n', String _ s' => drop_str n' s'
  | S _, "" => ""
  end.

(** The loop that renames the custom claims, over [list(payload.keys())]. *)
Fixpoint doctor (keys : list string) (d : dict) : res dict :=
  match keys with
  | [] => Ok d
  | key :: keys' =>
      if startswith key EARTHONE_CUSTOM_CLAIM_PREFIX then
        match assoc key d with
        | Some v =>
            doctor keys'
              (dict_set
                 (drop_str (String.length EARTHONE_CUSTOM_CLAIM_PREFIX) key)
                 v (dict_pop key d))
        | None => Raise KeyError
        end
      else doctor keys' d
  end.

Definition payload : M (Auth * World) json :=
  (cached <- get_local _payload ;;
   if is_none (default JNull cached) then
     t <- token ;;
     p <- lift_res (_get_payload t) ;;
     p <- match p with
          | JObj d => d' <- lift_res (doctor (map fst d) d) ;; ret (JObj d')
          | _ => raise AttributeError         (* [payload.keys()] *)
          end ;;
     set_local (set_payload p) ;;;
     ret p
   else ret (default JNull cached))%py.

(** The groups that the generator yields, in order. *)
Fixpoint active_groups_of (org : json) (groups : list json)
    : res (list string) :=
  match groups with
  | [] => Ok []
  | JStr group :: rest =>
      let parts := split_on ":" group in
      res_bind (active_groups_of org rest) (fun tl =>
        if (length parts =? 1)%nat then Ok (group :: tl)
        else if truthy org && json_eqb (JStr (hd "" parts)) org
        then Ok (group :: tl)
        else Ok tl)
  | _ :: _ => Raise AttributeError            (* no [split] method *)
  end.

Definition _active_groups : M (Auth * World) (list string) :=
  (p <- payload ;;
   org <- lift_res (py_get p "org") ;;
   p <- payload ;;
   groups <- lift_res (py_get_default p "groups" (JArr [])) ;;
   items <- lift_res (py_iter groups) ;;
   lift_res (active_groups_of org items))%py.

(** ** Construction: credential resolution *)

Inductive path_arg : Type :=
| DefaultPath                        (* [token_info_path] was not passed *)
| GivenPath (p : option string).     (* [None] or a path *)

(** The arguments of [Auth.__init__]; [retries] only configures the
    session and is left out. *)
Record InitArgs : Type := {
  arg_domain : option string;
  arg_scope : json;
  arg_leeway : Q;
  arg_token_info_path : path_arg;
  arg_client_id : option string;
  arg_client_secret : option string;
  arg_jwt_token : option string;
  arg_refresh_token : option string;
  arg_suppress_warning : bool
}.

(** The attributes under construction and the local [token_info]. *)
Record resolved : Type := {
  r_path : option string;            (* [self.token_info_path] *)
  r_client_id : json;
  r_client_secret : json;
  r_refresh_token : json;
  r_token : json;
  r_token_info : json;
  r_scope : json
}.

(** The local [token_info_path] once the default marker became [None]. *)
Definition local_path (args : InitArgs) : option string :=
  match arg_token_info_path args with
  | DefaultPath => None
  | GivenPath p => p
  end.

(** First determine if we are getting our info from the args or
    environment. *)
Definition from_args_or_environ (args : InitArgs) : M World resolved :=
  (env_path <- getenv EARTHONE_TOKEN_INFO_PATH ;;
   default_path <- gets DEFAULT_TOKEN_INFO_PATH ;;
   env_client_id <- getenv EARTHONE_CLIENT_ID ;;
   legacy_client_id <- getenv "CLIENT_ID" ;;
   env_client_secret <- getenv EARTHONE_CLIENT_SECRET ;;
   legacy_client_secret <- getenv "CLIENT_SECRET" ;;
   env_refresh_token <- getenv EARTHONE_REFRESH_TOKEN ;;
   env_token <- getenv EARTHONE_TOKEN ;;
   let secret := first_not_none [of_str (arg_client_secret args);
                                 of_str env_client_secret;
                                 of_str legacy_client_secret] in
   let refresh := first_not_none [of_str (arg_refresh_token args);
                                  of_str env_refresh_token] in
   ret {| r_path := match arg_token_info_path args with
                    | DefaultPath => Some (default default_path env_path)
                    | GivenPath p => p
                    end;
          r_client_id := first_not_none [of_str (arg_client_id args);
                                         of_str env_client_id;
                                         of_str legacy_client_id];
          r_client_secret := secret;
          (* make sure self.refresh_token is set *)
          r_refresh_token := if truthy refresh then refresh else secret;
          r_token := first_not_none [of_str (arg_jwt_token args);
                                     of_str env_token];
          r_token_info := JObj [];
          r_scope := arg_scope args |})%py.

Definition with_cached (token_info : json) (tok : json) (r : resolved)
    : resolved :=
  {| r_path := r_path r; r_client_id := r_client_id r;
     r_client_secret := r_client_secret r;
     r_refresh_token := r_refresh_token r;
     r_token := tok; r_token_info := token_info; r_scope := r_scope r |}.

Definition with_derived (path : string) (tok : json) (r : resolved)
    : resolved :=
  {| r_path := Some path; r_client_id := r_client_id r;
     r_client_secret := r_client_secret r;
     r_refresh_token := r_refresh_token r;
     r_token := tok; r_token_info := r_token_info r; r_scope := r_scope r |}.

(** The name of the cache file that is unique to a refresh token. *)
Definition derived_path (w : World) (secret : string) : string :=
  path_join (DEFAULT_TOKEN_INFO_DIR w)
    (JWT_TOKEN_PREFIX +:+ sha1_hexdigest secret +:+ ".json").

(** The three-way branch on where the information comes from. *)
Definition consult_cache (args : InitArgs) (r : resolved)
    : M World resolved :=
  (if truthy (r_client_id r) || truthy (r_refresh_token r)
      || truthy (r_token r)
   then
     (* information is provided through the environment or as argument *)
     match usable (local_path args) with
     | Some path =>
         (* explicit token_info.json file; see if we can use it *)
         ex <- os_path_exists path ;;
         if ex then
           token_info <- _read_token_info path false ;;
           if truthy (r_token r) then ret (with_cached token_info (r_token r) r)
           else
             cid <- lift_res (py_get token_info KEY_CLIENT_ID) ;;
             if json_eqb (r_client_id r) cid then
               rt <- lift_res (py_get token_info KEY_REFRESH_TOKEN) ;;
               if json_eqb (r_refresh_token r) rt then
                 jwt <- lift_res (py_get token_info KEY_JWT_TOKEN) ;;
                 ret (with_cached token_info jwt r)
               else ret (with_cached token_info (r_token r) r)
             else ret (with_cached token_info (r_token r) r)
         else ret r
     | None =>
         if truthy (r_refresh_token r) then
           match usable (r_path r) with
           | Some _ =>
               (* make the saved JWT token file unique to the refresh token *)
               match r_refresh_token r with
               | JStr token =>
                   secret <- lift_res (str_encode token) ;;
                   path <- gets (fun w => derived_path w secret) ;;
                   if truthy (r_token r) then
                     _write_token_info path [(KEY_JWT_TOKEN, r_token r)] ;;;
                     ret (with_derived path (r_token r) r)
                   else
                     token_info <- _read_token_info path true ;;
                     jwt <- lift_res (py_get token_info KEY_JWT_TOKEN) ;;
                     ret (with_derived path jwt r)
               | _ => raise AttributeError       (* no [encode] method *)
               end
           | None => ret r
           end
         else ret r
     end
   else
     match usable (r_path r) with
     | Some path =>
         (* all information comes from the cached token_info.json file *)
         token_info <- _read_token_info path (arg_suppress_warning args) ;;
         cid <- lift_res (py_get token_info KEY_CLIENT_ID) ;;
         secret <- lift_res (py_get token_info KEY_CLIENT_SECRET) ;;
         refresh <- lift_res (py_get token_info KEY_REFRESH_TOKEN) ;;
         alt <- lift_res (py_get token_info KEY_ALT_JWT_TOKEN) ;;
         jwt <- lift_res (py_get token_info KEY_JWT_TOKEN) ;;
         ret {| r_path := r_path r; r_client_id := cid;
                r_client_secret := secret; r_refresh_token := refresh;
                r_token := first_not_none [alt; jwt];
                r_token_info := token_info; r_scope := r_scope r |}
     | None => ret r
     end)%py.

(** The refresh token and client secret should be identical if both set;
    the refresh token has precedence. *)
Definition reconcile (r : resolved) : M World resolved :=
  (when (truthy (r_client_secret r) && truthy (r_refresh_token r)
         && negb (json_eqb (r_client_secret r) (r_refresh_token r)))
     (warn "Authentication token mismatch") ;;;
   ret {| r_path := r_path r; r_client_id := r_client_id r;
          r_client_secret :=
            if truthy (r_refresh_token r) then r_refresh_token r
            else r_client_secret r;
          r_refresh_token :=
            if truthy (r_refresh_token r) then r_refresh_token r
            else if truthy (r_client_secret r) then r_client_secret r
            else r_refresh_token r;
          r_token := r_token r; r_token_info := r_token_info r;
          r_scope := r_scope r |})%py.

(** The scope: the argument, else the one stored in the cache file. *)
Definition resolve_scope (r : resolved) : M World resolved :=
  (stored <- lift_res (py_get (r_token_info r) KEY_SCOPE) ;;
   ret {| r_path := r_path r; r_client_id := r_client_id r;
          r_client_secret := r_client_secret r;
          r_refresh_token := r_refresh_token r;
          r_token := r_token r; r_token_info := r_token_info r;
          r_scope := first_not_none [r_scope r; stored] |})%py.

(** Credential resolution as a whole. *)
Definition resolve (args : InitArgs) : M World resolved :=
  (r <- from_args_or_environ args ;;
   r <- consult_cache args r ;;
   r <- reconcile r ;;
   resolve_scope r)%py.

(** Verify that the token is valid; otherwise clear it. *)
Definition validate_token (cid tok : json) : M World json :=
  (if truthy tok then
     match _get_payload tok with
     | Raise e => if isinstance_AuthError e then ret JNull else raise e
     | Ok claims =>
         expired <- _token_expired claims 0 ;;
         if expired then ret JNull
         else if truthy cid then
           aud <- lift_res (py_get claims "aud") ;;
           if negb (json_eqb aud cid) then ret JNull else ret tok
         else ret tok
     end
   else ret tok)%py.

Definition AUTHORIZATION_ERROR : string :=
  "No valid authentication info found. See https://docs.earthone.earthdaily.com/authentication.html.".

Definition __init__ (args : InitArgs) : M World Auth :=
  (r <- resolve args ;;
   tok <- validate_token (r_client_id r) (r_token r) ;;
   when (negb (arg_suppress_warning args)
         && negb (truthy tok
                  || (truthy (r_client_id r) && truthy (r_refresh_token r))))
     (* won't authn without a token or a client_id/refresh_token pair *)
     (warn AUTHORIZATION_ERROR) ;;;
   default_domain <- gets iam_url ;;
   ret {| domain := default default_domain (arg_domain args);
          scope := r_scope r;
          leeway := arg_leeway args;
          token_info_path := r_path r;
          client_id := r_client_id r;
          client_secret := r_client_secret r;
          refresh_token := r_refresh_token r;
          _token := tok;
          _namespace := JNull;
          _payload := None; _aas := None; _aasas := None;
          _aoas := None; _aoasas := None |})%py.

End Auth.

(** The functions of the module are unfolded by name only. *)
Arguments _get_token : simpl never.
Arguments persist_token : simpl never.
Arguments _token_expired : simpl never.
Arguments _get_payload : simpl never.
Arguments read_claims : simpl never.
Arguments base64url_decode : simpl never.
Arguments _read_token_info : simpl never.
Arguments _write_token_info : simpl never.
Arguments publish : simpl never.
Arguments write_attempt : simpl never.
Arguments write_failed : simpl never.
Arguments write_cleanup : simpl never.
Arguments close_descriptor : simpl never.
Arguments remove_temp : simpl never.
Arguments token : simpl never.
Arguments payload : simpl never.
Arguments _active_groups : simpl never.
Arguments makedirs_if_not_exists : simpl never.
Arguments validate_token : simpl never.
Arguments resolve : simpl never.
Arguments consult_cache : simpl never.
Arguments from_args_or_environ : simpl never.
Arguments reconcile : simpl never.
Arguments resolve_scope : simpl never.
Arguments __init__ : simpl never.
Arguments session_post : simpl never.
Arguments token_params : simpl never.
Arguments now : simpl never.
Arguments read_json : simpl never.
Arguments os_path_exists : simpl never.
Arguments os_makedirs : simpl never.
Arguments os_chmod : simpl never.
Arguments mkstemp : simpl never.
Arguments write_json : simpl never.
Arguments os_rename : simpl never.
Arguments os_remove : simpl never.
Arguments os_close : simpl never.
Arguments warn : simpl never.
Arguments getenv : simpl never.

(** ** The identity of the user: namespace and ACL subjects *)

Definition ACL_PREFIX_USER : string := "user:".
Definition ACL_PREFIX_EMAIL : string := "email:".
Definition ACL_PREFIX_GROUP : string := "group:".
Definition ACL_PREFIX_ORG : string := "org:".
Definition ACL_PREFIX_ACCESS : string := "access-id:".
Definition ORG_ADMIN_SUFFIX : string := ":org-admin".
Definition RESOURCE_ADMIN_SUFFIX : string := ":resource-admin".

Definition set_namespace (n : json) (a : Auth) : Auth :=
  {| domain := domain a; scope := scope a; leeway := leeway a;
     token_info_path := token_info_path a; client_id := client_id a;
     client_secret := client_secret a; refresh_token := refresh_token a;
     _token := _token a; _namespace := n; _payload := _payload a;
     _aas := _aas a; _aasas := _aasas a; _aoas := _aoas a;
     _aoasas := _aoasas a |}.

Definition set_aas (l : list string) (a : Auth) : Auth :=
  {| domain := domain a; scope := scope a; leeway := leeway a;
     token_info_path := token_info_path a; client_id := client_id a;
     client_secret := client_secret a; refresh_token := refresh_token a;
     _token := _token a; _namespace := _namespace a; _payload := _payload a;
     _aas := Some l; _aasas := _aasas a; _aoas := _aoas a;
     _aoasas := _aoasas a |}.

Definition set_aasas (s : gset string) (a : Auth) : Auth :=
  {| domain := domain a; scope := scope a; leeway := leeway a;
     token_info_path := token_info_path a; client_id := client_id a;
     client_secret := client_secret a; refresh_token := refresh_token a;
     _token := _token a; _namespace := _namespace a; _payload := _payload a;
     _aas := _aas a; _aasas := Some s; _aoas := _aoas a;
     _aoasas := _aoasas a |}.

Definition set_aoas (l : list string) (a : Auth) : Auth :=
  {| domain := domain a; scope := scope a; leeway := leeway a;
     token_info_path := token_info_path a; client_id := client_id a;
     client_secret := client_secret a; refresh_token := refresh_token a;
     _token := _token a; _namespace := _namespace a; _payload := _payload a;
     _aas := _aas a; _aasas := _aasas a; _aoas := Some l;
     _aoasas := _aoasas a |}.

Definition set_aoasas (s : gset string) (a : Auth) : Auth :=
  {| domain := domain a; scope := scope a; leeway := leeway a;
     token_info_path := token_info_path a; client_id := client_id a;
     client_secret := client_secret a; refresh_token := refresh_token a;
     _token := _token a; _namespace := _namespace a; _payload := _payload a;
     _aas := _aas a; _aasas := _aasas a; _aoas := _aoas a;
     _aoasas := Some s |}.

(** [v[k]] for a key that is a string: only a dict has such an item. *)
Definition py_item (v : json) (k : string) : res json :=
  match v with
  | JObj d => of_option KeyError (assoc k d)
  | _ => Raise TypeError
  end.

(** [prefix + v]: only a str can be added to a str. *)
Definition str_plus (prefix : string) (v : json) : res string :=
  match v with
  | JStr s => Ok (prefix +:+ s)
  | _ => Raise TypeError
  end.

Fixpoint take_str (n : nat) (s : string) : string :=
  match n, s with
  | S n', String c s' => String c (take_str n' s')
  | _, _ => ""
  end.

Definition endswith (s suffix : string) : bool :=
  (String.length suffix <=? String.length s)%nat
  && String.eqb (drop_str (String.length s - String.length suffix) s) suffix.

(** [s[:-n]] for a positive [n]. *)
Definition drop_last (n : nat) (s : string) : string :=
  take_str (String.length s - n) s.

(** [[group[:-len(suffix)] for group in groups if group.endswith(suffix)]]. *)
Fixpoint admins_of (suffix : string) (groups : list json)
    : res (list string) :=
  match groups with
  | [] => Ok []
  | JStr group :: rest =>
      res_bind (admins_of suffix rest) (fun tl =>
        if endswith group suffix
        then Ok (drop_last (String.length suffix) group :: tl)
        else Ok tl)
  | _ :: _ => Raise AttributeError            (* no [endswith] method *)
  end.

Section Identity.
Context `{PyLib}.

(** [str.lower], which follows the Unicode case mapping, is taken as
    given. *)
Variable str_lower : string -> string.

Definition namespace : M (Auth * World) json :=
  (ns <- get_local _namespace ;;
   if is_none ns then
     p <- payload ;;
     userid <- lift_res (py_get p "userid") ;;
     ns <- (if negb (truthy userid) then
              (* legacy, compute it on the fly *)
              p <- payload ;;
              sub <- lift_res (py_item p "sub") ;;
              match sub with
              | JStr s =>
                  b <- lift_res (str_encode s) ;;
                  ret (JStr (sha1_hexdigest b))
              | _ => raise AttributeError      (* no [encode] method *)
              end
            else ret userid) ;;
     set_local (set_namespace ns) ;;;
     ret ns
   else ret ns)%py.

Definition all_acl_subjects : M (Auth * World) (list string) :=
  (cached <- get_local _aas ;;
   match cached with
   | Some subjects => ret subjects
   | None =>
       ns <- namespace ;;
       user <- lift_res (str_plus ACL_PREFIX_USER ns) ;;
       p <- payload ;;
       email <- lift_res (py_get p "email") ;;
       email_subject <-
         (if truthy email then
            match email with
            | JStr e => ret [ACL_PREFIX_EMAIL +:+ str_lower e]
            | _ => raise AttributeError        (* no [lower] method *)
            end
          else ret []) ;;
       p <- payload ;;
       org <- lift_res (py_get p "org") ;;
       org_subject <-
         (if truthy org then
            s <- lift_res (str_plus ACL_PREFIX_ORG org) ;;
            ret [s]
          else ret []) ;;
       groups <- _active_groups ;;
       let subjects :=
         [user] ++ email_subject ++ org_subject
         ++ map (fun group => ACL_PREFIX_GROUP +:+ group) groups in
       set_local (set_aas subjects) ;;;
       ret subjects
   end)%py.

Definition all_acl_subjects_as_set : M (Auth * World) (gset string) :=
  (cached <- get_local _aasas ;;
   match cached with
   | Some subjects_as_set => ret subjects_as_set
   | None =>
       subjects <- all_acl_subjects ;;
       set_local (set_aasas (list_to_set subjects)) ;;;
       ret (list_to_set subjects)
   end)%py.

Definition get_org_admins : M (Auth * World) (list string) :=
  (p <- payload ;;
   groups <- lift_res (py_get_default p "groups" (JArr [])) ;;
   items <- lift_res (py_iter groups) ;;
   lift_res (admins_of ORG_ADMIN_SUFFIX items))%py.

Definition get_resource_admins : M (Auth * World) (list string) :=
  (p <- payload ;;
   groups <- lift_res (py_get_default p "groups" (JArr [])) ;;
   items <- lift_res (py_iter groups) ;;
   lift_res (admins_of RESOURCE_ADMIN_SUFFIX items))%py.

Definition nonempty_str (s : string) : bool := negb (String.eqb s "").

Definition all_owner_acl_subjects : M (Auth * World) (list string) :=
  (cached <- get_local _aoas ;;
   match cached with
   | Some subjects => ret subjects
   | None =>
       ns <- namespace ;;
       user <- lift_res (str_plus ACL_PREFIX_USER ns) ;;
       orgs <- get_org_admins ;;
       access_ids <- get_resource_admins ;;
       let subjects :=
         [user]
         ++ map (fun org => ACL_PREFIX_ORG +:+ org)
              (List.filter nonempty_str orgs)
         ++ map (fun access_id => ACL_PREFIX_ACCESS +:+ access_id)
              (List.filter nonempty_str access_ids) in
       set_local (set_aoas subjects) ;;;
       ret subjects
   end)%py.

Definition all_owner_acl_subjects_as_set : M (Auth * World) (gset string) :=
  (cached <- get_local _aoasas ;;
   match cached with
   | Some subjects_as_set => ret subjects_as_set
   | None =>
       subjects <- all_owner_acl_subjects ;;
       set_local (set_aoasas (list_to_set subjects)) ;;;
       ret (list_to_set subjects)
   end)%py.

End Identity.

Arguments namespace : simpl never.
Arguments all_acl_subjects : simpl never.
Arguments all_acl_subjects_as_set : simpl never.
Arguments get_org_admins : simpl never.
Arguments get_resource_admins : simpl never.
Arguments all_owner_acl_subjects : simpl never.
Arguments all_owner_acl_subjects_as_set : simpl never.

(** ** [ThreadLocalWrapper]

    A [threading.local] object is what each thread sees of it; a thread is
    a number, and so is [os.getpid()].  The factory works on a state of its
    own. *)

Module ThreadLocalWrapper.

(** The attributes of the [threading.local] object in one thread. *)
Record attrs (X : Type) : Type := {
  _pid : option Z;
  wrapped : option X
}.
Arguments _pid {X} a.
Arguments wrapped {X} a.

Section Wrapper.
Context {X F : Type}.
Variable _factory : M F X.

(** [self._local] is a map from threads to attributes. *)

Definition _create_local (thread : nat) (pid : Z) : gmap nat (attrs X) :=
  {[ thread := {| _pid := Some pid; wrapped := None |} ]}.

Definition __init__ (thread : nat) (pid : Z) : gmap nat (attrs X) :=
  _create_local thread pid.

Definition _init_local (thread : nat) (pid : Z) (_local : gmap nat (attrs X))
    : gmap nat (attrs X) :=
  match _local !! thread ≫= _pid with
  | None =>
      <[thread := {| _pid := Some pid;
                     wrapped := _local !! thread ≫= wrapped |}]> _local
  | Some previous_pid =>
      if Z.eqb pid previous_pid then _local else _create_local thread pid
  end.

Definition get (thread : nat) (pid : Z) : M (gmap nat (attrs X) * F) X :=
  fun s =>
    let _local := _init_local thread pid (fst s) in
    match _local !! thread ≫= wrapped with
    | Some x => (Ok x, (_local, snd s))
    | None =>
        match _factory (snd s) with
        | (Ok x, f) =>
            (Ok x,
             (<[thread := {| _pid := _local !! thread ≫= _pid;
                             wrapped := Some x |}]> _local, f))
        | (Raise e, f) => (Raise e, (_local, f))
        end
    end.

End Wrapper.
End ThreadLocalWrapper.

(** ** Namespaced ids of catalog objects

    The class methods [namespace_id] of [Blob], [EventApiDestination] and
    [Product], on the Auth object of the client they are given. *)

Section Catalog.
Context `{PyLib}.

(** [str(v)] for a value that is not a [str] is taken as given. *)
Variable repr : json -> string.

Definition py_format (v : json) : string :=
  match v with
  | JStr s => s
  | _ => repr v
  end.

(** [v + ":"]. *)
Definition plus_colon (v : json) : res string :=
  match v with
  | JStr s => Ok (s +:+ ":")
  | _ => Raise TypeError
  end.

(** [namespace_id == owner or namespace_id.startswith(owner + ":")], then
    the id itself or the id under the owner. *)
Definition under (owner namespace_id : json) : M (Auth * World) json :=
  if json_eqb namespace_id owner then ret namespace_id
  else match namespace_id with
       | JStr id =>
           (prefix <- lift_res (plus_colon owner) ;;
            if startswith id prefix then ret namespace_id
            else ret (JStr (py_format owner +:+ ":" +:+ id)))%py
       | _ => raise AttributeError         (* no [startswith] method *)
       end.

Definition blob_namespace_id (namespace_id : json) : M (Auth * World) json :=
  (p <- payload ;;
   org <- lift_res (py_get p "org") ;;
   namespace <- namespace ;;
   if negb (truthy namespace_id) then
     if truthy org
     then ret (JStr (py_format org +:+ ":" +:+ py_format namespace))
     else ret namespace
   else if truthy org then under org namespace_id
   else under namespace namespace_id)%py.

Definition product_namespace_id (id_ : json) : M (Auth * World) json :=
  (p <- payload ;;
   org <- lift_res (py_get p "org") ;;
   org <- (if is_none org then namespace else ret org) ;;
   let prefix := py_format org +:+ ":" in
   match id_ with
   | JStr id =>
       if startswith id prefix then ret id_ else ret (JStr (prefix +:+ id))
   | _ => raise AttributeError           (* no [startswith] method *)
   end)%py.

End Catalog.

Arguments blob_namespace_id : simpl never.
Arguments product_namespace_id : simpl never.

(** ** A reference implementation of the library functions

    Used to run the model on concrete tokens and secrets.  SHA-1 follows
    FIPS 180-4; the base64 decoder follows [binascii.a2b_base64] in its
    lenient mode; the JSON reader follows RFC 8259, with numbers read as
    exact rationals, duplicate keys resolved as [dict] does, and the
    non-standard literals [NaN] and [Infinity] and unpaired surrogate
    escapes refused. *)

Module SHA1.
Local Open Scope N_scope.

Definition mask32 (x : N) : N := N.land x 4294967295.
Definition add32 (a b : N) : N := mask32 (a + b).
Definition rotl (n x : N) : N :=
  mask32 (N.lor (N.shiftl x n) (N.shiftr x (32 - n))).
Definition not32 (x : N) : N := N.lxor x 4294967295.

(** Big-endian bytes of [x], [n] of them. *)
Fixpoint be_bytes (n : nat) (x : N) : list N :=
  match n with
  | O => []
  | S n' => N.land (N.shiftr x (8 * N.of_nat n')) 255 :: be_bytes n' x
  end.

Definition pad (msg : list N) : list N :=
  let len := N.of_nat (length msg) in
  let zeros := N.to_nat ((119 - len mod 64) mod 64) in
  msg ++ [128] ++ repeat 0 zeros ++ be_bytes 8 (8 * len).

Fixpoint words (fuel : nat) (bs : list N) : list N :=
  match fuel, bs with
  | S f, a :: b :: c :: d :: rest =>
      (N.shiftl a 24 + N.shiftl b 16 + N.shiftl c 8 + d) :: words f rest
  | _, _ => []
  end.

Fixpoint blocks (fuel : nat) (ws : list N) : list (list N) :=
  match fuel, ws with
  | S f, _ :: _ => firstn 16 ws :: blocks f (skipn 16 ws)
  | _, _ => []
  end.

(** The message schedule, most recent word first. *)
Fixpoint extend (n : nat) (rev_ws : list N) : list N :=
  match n with
  | O => rev_ws
  | S n' =>
      let w := rotl 1 (N.lxor (N.lxor (nth 2 rev_ws 0) (nth 7 rev_ws 0))
                         (N.lxor (nth 13 rev_ws 0) (nth 15 rev_ws 0))) in
      extend n' (w :: rev_ws)
  end.

Definition schedule (block : list N) : list N :=
  rev (extend 64 (rev block)).

Definition round_fk (t : nat) (b c d : N) : N * N :=
  if (t <? 20)%nat then
    (N.lor (N.land b c) (N.land (not32 b) d), 1518500249)
  else if (t <? 40)%nat then
    (N.lxor (N.lxor b c) d, 1859775393)
  else if (t <? 60)%nat then
    (N.lor (N.lor (N.land b c) (N.land b d)) (N.land c d), 2400959708)
  else (N.lxor (N.lxor b c) d, 3395469782).

Record regs : Type := { ra : N; rb : N; rc : N; rd : N; re : N }.

Fixpoint rounds (t : nat) (ws : list N) (r : regs) : regs :=
  match ws with
  | [] => r
  | w :: ws' =>
      let (f, k) := round_fk t (rb r) (rc r) (rd r) in
      let temp := add32 (add32 (add32 (add32 (rotl 5 (ra r)) f) (re r)) k) w in
      rounds (S t) ws'
        {| ra := temp; rb := ra r; rc := rotl 30 (rb r); rd := rc r;
           re := rd r |}
  end.

Definition compress (h : regs) (block : list N) : regs :=
  let r := rounds 0 (schedule block) h in
  {| ra := add32 (ra h) (ra r); rb := add32 (rb h) (rb r);
     rc := add32 (rc h) (rc r); rd := add32 (rd h) (rd r);
     re := add32 (re h) (re r) |}.

Definition init : regs :=
  {| ra := 1732584193; rb := 4023233417; rc := 2562383102;
     rd := 271733878; re := 3285377520 |}.

Definition digest (msg : list N) : list N :=
  let padded := pad msg in
  let ws := words (length padded) padded in
  let h := fold_left compress (blocks (length ws) ws) init in
  be_bytes 4 (ra h) ++ be_bytes 4 (rb h) ++ be_bytes 4 (rc h)
  ++ be_bytes 4 (rd h) ++ be_bytes 4 (re h).

Definition hex_digit (n : N) : ascii :=
  if n <? 10 then ascii_of_N (48 + n) else ascii_of_N (87 + n).

Fixpoint hex (bs : list N) : string :=
  match bs with
  | [] => ""
  | b :: bs' =>
      String (hex_digit (N.shiftr b 4))
        (String (hex_digit (N.land b 15)) (hex bs'))
  end.

Definition hexdigest (s : string) : string :=
  hex (digest (map N_of_ascii (list_ascii_of_string s))).
End SHA1.

Module Base64.
Local Open Scope N_scope.

(** The value of a character of either alphabet: [urlsafe_b64decode]
    maps - and _ to + and / and leaves the rest as it is. *)
Definition value (c : N) : option N :=
  if (65 <=? c) && (c <=? 90) then Some (c - 65)
  else if (97 <=? c) && (c <=? 122) then Some (c - 71)
  else if (48 <=? c) && (c <=? 57) then Some (c + 4)
  else if (c =? 43) || (c =? 45) then Some 62
  else if (c =? 47) || (c =? 95) then Some 63
  else None.

(** Characters outside the alphabet are skipped; a complete run of
    padding ends the input; a dangling group is an error. *)
Fixpoint decode (s : list N) (quad_pos : nat) (leftchar : N) (pads : nat)
    (out : list N) : option (list N) :=
  match s with
  | [] => if (quad_pos =? 0)%nat then Some (rev out) else None
  | c :: s' =>
      if c =? 61 then
        if (2 <=? quad_pos)%nat then
          if (4 <=? quad_pos + S pads)%nat then Some (rev out)
          else decode s' quad_pos leftchar (S pads) out
        else decode s' quad_pos leftchar pads out
      else
        match value c with
        | None => decode s' quad_pos leftchar pads out
        | Some v =>
            match quad_pos with
            | 0%nat => decode s' 1%nat v 0%nat out
            | 1%nat =>
                decode s' 2%nat (N.land v 15) 0%nat
                  (N.lor (N.shiftl leftchar 2) (N.shiftr v 4) :: out)
            | 2%nat =>
                decode s' 3%nat (N.land v 3) 0%nat
                  (N.lor (N.shiftl leftchar 4) (N.shiftr v 2) :: out)
            | _ =>
                decode s' 0%nat 0 0%nat
                  (N.lor (N.shiftl leftchar 6) v :: out)
            end
        end
  end.

Definition urlsafe_b64decode (s : string) : option string :=
  option_map (fun bs => string_of_list_ascii (map ascii_of_N bs))
    (decode (map N_of_ascii (list_ascii_of_string s)) 0 0 0 []).
End Base64.

Module Utf8.
Local Open Scope N_scope.

Definition cont (c : N) : bool := (128 <=? c) && (c <=? 191).

Fixpoint valid (fuel : nat) (s : list N) : bool :=
  match fuel with
  | O => false
  | S f =>
      match s with
      | [] => true
      | a :: r =>
          if a <? 128 then valid f r
          else if (194 <=? a) && (a <=? 223) then
            match r with
            | b :: r' => cont b && valid f r'
            | _ => false
            end
          else if (224 <=? a) && (a <=? 239) then
            match r with
            | b :: c :: r' =>
                cont b && cont c
                && (if a =? 224 then 160 <=? b else true)
                && (if a =? 237 then b <=? 159 else true)
                && valid f r'
            | _ => false
            end
          else if (240 <=? a) && (a <=? 244) then
            match r with
            | b :: c :: d :: r' =>
                cont b && cont c && cont d
                && (if a =? 240 then 144 <=? b else true)
                && (if a =? 244 then b <=? 143 else true)
                && valid f r'
            | _ => false
            end
          else false
      end
  end.

Definition decode (s : string) : option string :=
  let bs := map N_of_ascii (list_ascii_of_string s) in
  if valid (S (length bs)) bs then Some s else None.

(** The encoding of a code point that is not a surrogate. *)
Definition encode (cp : N) : list N :=
  if cp <? 128 then [cp]
  else if cp <? 2048 then
    [192 + N.shiftr cp 6; 128 + N.land cp 63]
  else if cp <? 65536 then
    [224 + N.shiftr cp 12; 128 + N.land (N.shiftr cp 6) 63;
     128 + N.land cp 63]
  else
    [240 + N.shiftr cp 18; 128 + N.land (N.shiftr cp 12) 63;
     128 + N.land (N.shiftr cp 6) 63; 128 + N.land cp 63].
End Utf8.

Module Json.
Local Open Scope N_scope.

Definition is_ws (c : N) : bool :=
  (c =? 32) || (c =? 9) || (c =? 10) || (c =? 13).

Fixpoint skip_ws (s : list N) : list N :=
  match s with
  | c :: s' => if is_ws c then skip_ws s' else s
  | [] => []
  end.

Definition is_digit (c : N) : bool := (48 <=? c) && (c <=? 57).

Fixpoint digits (s : list N) (acc : Z) (count : nat)
    : Z * nat * list N :=
  match s with
  | c :: s' =>
      if is_digit c then digits s' (10 * acc + Z.of_N (c - 48))%Z (S count)
      else (acc, count, s)
  | [] => (acc, count, [])
  end.

Definition power10 (e : Z) : Q :=
  if (0 <=? e)%Z then inject_Z (10 ^ e)
  else (1 # Z.to_pos (10 ^ (- e)))%Q.

(** An optional minus sign, an integer part without leading zeros, an
    optional fraction and an optional exponent. *)
Definition parse_number (s : list N) : option (Q * list N) :=
  let (negative, s) :=
    match s with
    | 45 :: s' => (true, s')
    | _ => (false, s)
    end in
  match s with
  | c :: s' =>
      if is_digit c then
        let '(int_part, s1) :=
          if c =? 48 then (0%Z, s')
          else let '(v, _, r) := digits s' (Z.of_N (c - 48)) 1 in (v, r) in
        let '(mantissa, scale, s2) :=
          match s1 with
          | 46 :: r =>
              let '(v, n, r') := digits r int_part 0 in
              if (n =? 0)%nat then (int_part, 0%nat, s1) else (v, n, r')
          | _ => (int_part, 0%nat, s1)
          end in
        let '(exponent, s3) :=
          match s2 with
          | e :: r =>
              if (e =? 101) || (e =? 69) then
                let (minus, r1) :=
                  match r with
                  | 45 :: r' => (true, r')
                  | 43 :: r' => (false, r')
                  | _ => (false, r)
                  end in
                let '(v, n, r2) := digits r1 0%Z 0 in
                if (n =? 0)%nat then (0%Z, s2)
                else ((if minus then - v else v)%Z, r2)
              else (0%Z, s2)
          | [] => (0%Z, s2)
          end in
        let magnitude :=
          (inject_Z mantissa * power10 (exponent - Z.of_nat scale))%Q in
        Some (Qred (if negative then - magnitude else magnitude)%Q, s3)
      else None
  | [] => None
  end.

Definition hexval (c : N) : option N :=
  if is_digit c then Some (c - 48)
  else if (97 <=? c) && (c <=? 102) then Some (c - 87)
  else if (65 <=? c) && (c <=? 70) then Some (c - 55)
  else None.

Definition hex4 (s : list N) : option (N * list N) :=
  match s with
  | a :: b :: c :: d :: r =>
      match hexval a, hexval b, hexval c, hexval d with
      | Some a, Some b, Some c, Some d =>
          Some (4096 * a + 256 * b + 16 * c + d, r)
      | _, _, _, _ => None
      end
  | _ => None
  end.

(** The rest of a string after its opening quote. *)
Fixpoint parse_string (fuel : nat) (s : list N) (acc : list N)
    : option (list N * list N) :=
  match fuel with
  | O => None
  | S f =>
      match s with
      | [] => None
      | 34 :: r => Some (rev acc, r)
      | 92 :: e :: r =>
          match e with
          | 34 | 92 | 47 => parse_string f r (e :: acc)
          | 98 => parse_string f r (8 :: acc)
          | 102 => parse_string f r (12 :: acc)
          | 110 => parse_string f r (10 :: acc)
          | 114 => parse_string f r (13 :: acc)
          | 116 => parse_string f r (9 :: acc)
          | 117 =>
              match hex4 r with
              | Some (hi, r1) =>
                  if (55296 <=? hi) && (hi <=? 56319) then
                    match r1 with
                    | 92 :: 117 :: r2 =>
                        match hex4 r2 with
                        | Some (lo, r3) =>
                            if (56320 <=? lo) && (lo <=? 57343) then
                              parse_string f r3
                                (rev (Utf8.encode
                                        (65536 + 1024 * (hi - 55296)
                                         + (lo - 56320))) ++ acc)
                            else None
                        | None => None
                        end
                    | _ => None
                    end
                  else if (56320 <=? hi) && (hi <=? 57343) then None
                  else parse_string f r1 (rev (Utf8.encode hi) ++ acc)
              | None => None
              end
          | _ => None
          end
      | c :: r => if c <? 32 then None else parse_string f r (c :: acc)
      end
  end.

Definition to_string (bs : list N) : string :=
  string_of_list_ascii (map ascii_of_N bs).

Fixpoint literal (lit s : list N) : option (list N) :=
  match lit, s with
  | [], _ => Some s
  | a :: lit', b :: s' => if a =? b then literal lit' s' else None
  | _ :: _, [] => None
  end.

Fixpoint parse_value (fuel : nat) (s : list N) : option (json * list N) :=
  match fuel with
  | O => None
  | S f =>
      match skip_ws s with
      | 123 :: r =>
          match skip_ws r with
          | 125 :: r' => Some (JObj [], r')
          | _ => parse_members f r []
          end
      | 91 :: r =>
          match skip_ws r with
          | 93 :: r' => Some (JArr [], r')
          | _ => parse_items f r []
          end
      | 34 :: r =>
          match parse_string (S (length r)) r [] with
          | Some (str, r') => Some (JStr (to_string str), r')
          | None => None
          end
      | 110 :: r =>
          option_map (fun r' => (JNull, r')) (literal [117; 108; 108] r)
      | 116 :: r =>
          option_map (fun r' => (JBool true, r')) (literal [114; 117; 101] r)
      | 102 :: r =>
          option_map (fun r' => (JBool false, r'))
            (literal [97; 108; 115; 101] r)
      | s' =>
          match parse_number s' with
          | Some (q, r) => Some (JNum q, r)
          | None => None
          end
      end
  end
with parse_items (fuel : nat) (s : list N) (acc : list json)
    : option (json * list N) :=
  match fuel with
  | O => None
  | S f =>
      match parse_value f s with
      | Some (v, r) =>
          match skip_ws r with
          | 44 :: r' => parse_items f r' (v :: acc)
          | 93 :: r' => Some (JArr (rev (v :: acc)), r')
          | _ => None
          end
      | None => None
      end
  end
with parse_members (fuel : nat) (s : list N) (acc : dict)
    : option (json * list N) :=
  match fuel with
  | O => None
  | S f =>
      match skip_ws s with
      | 34 :: r =>
          match parse_string (S (length r)) r [] with
          | Some (key, r1) =>
              match skip_ws r1 with
              | 58 :: r2 =>
                  match parse_value f r2 with
                  | Some (v, r3) =>
                      let acc' := dict_set (to_string key) v acc in
                      match skip_ws r3 with
                      | 44 :: r4 => parse_members f r4 acc'
                      | 125 :: r4 => Some (JObj acc', r4)
                      | _ => None
                      end
                  | None => None
                  end
              | _ => None
              end
          | None => None
          end
      | _ => None
      end
  end.

Definition loads (s : string) : option json :=
  let bs := map N_of_ascii (list_ascii_of_string s) in
  match parse_value (2 * length bs + 2) bs with
  | Some (v, r) =>
      match skip_ws r with
      | [] => Some v
      | _ => None
      end
  | None => None
  end.
End Json.

#[export] Instance reference_lib : PyLib := {|
  urlsafe_b64decode := Base64.urlsafe_b64decode;
  utf8_decode := Utf8.decode;
  json_loads := Json.loads;
  sha1_hexdigest := SHA1.hexdigest
|}.

(** * Properties *)

(** Runs the monad: unfolds its operations and reduces. *)
Ltac run :=
  unfold bind, ret, raise, lift_res, gets, modify, get_local, set_local,
    in_world, when, try_except, try_finally; cbn;
  repeat match goal with
    | |- context [fst (?x, ?y)] => change (fst (x, y)) with x
    | |- context [snd (?x, ?y)] => change (snd (x, y)) with y
    end.

(** ** Numbers and strings *)

Lemma later_than_iff (a b : Q) : negb (Qle_bool a b) = true <-> (b < a)%Q.
Proof.
  rewrite negb_true_iff. split.
  - intros E. apply Qnot_le_lt. intros L.
    apply Qle_bool_iff in L. congruence.
  - intros L. destruct (Qle_bool a b) eqn:E; [|reflexivity].
    apply Qle_bool_iff in E. exfalso. apply (Qlt_not_le _ _ L E).
Qed.

(** What the filter is specified by: whether a colon occurs, and the text
    before the first one. *)
Fixpoint has_colon (g : string) : bool :=
  match g with
  | "" => false
  | String c g' => Ascii.eqb c ":" || has_colon g'
  end.

Fixpoint before_colon (g : string) : string :=
  match g with
  | "" => ""
  | String c g' => if Ascii.eqb c ":" then "" else String c (before_colon g')
  end.

Lemma split_on_nonempty c s : split_on c s <> [].
Proof.
  destruct s as [|a s]; simpl; [discriminate|].
  destruct (Ascii.eqb a c); [discriminate|].
  destruct (split_on c s); discriminate.
Qed.

Lemma split_on_single (s : string) :
  (length (split_on ":" s) =? 1)%nat = negb (has_colon s).
Proof.
  induction s as [|a s IH]; simpl; [reflexivity|].
  destruct (Ascii.eqb a ":") eqn:E; simpl.
  - pose proof (split_on_nonempty ":" s) as NE.
    destruct (split_on ":" s); [contradiction|reflexivity].
  - pose proof (split_on_nonempty ":" s) as NE.
    destruct (split_on ":" s) as [|x xs]; [contradiction|].
    simpl in *. exact IH.
Qed.

Lemma split_on_head (s : string) :
  hd "" (split_on ":" s) = before_colon s.
Proof.
  induction s as [|a s IH]; simpl; [reflexivity|].
  destruct (Ascii.eqb a ":") eqn:E; simpl; [reflexivity|].
  pose proof (split_on_nonempty ":" s) as NE.
  destruct (split_on ":" s) as [|x xs]; [contradiction|].
  simpl in *. now rewrite IH.
Qed.

Lemma json_eqb_str_l (p : string) (v : json) :
  json_eqb (JStr p) v = true <-> v = JStr p.
Proof.
  destruct v; simpl; split; try discriminate; try congruence.
  - intros E. apply String.eqb_eq in E. now subst.
  - intros E. inversion E. apply String.eqb_refl.
Qed.

Lemma truthy_str (s : string) : truthy (JStr s) = true <-> s <> "".
Proof.
  simpl. rewrite negb_true_iff. split.
  - intros E ->. now rewrite String.eqb_refl in E.
  - intros NE. apply String.eqb_neq. exact NE.
Qed.

(** The test of the filter on one group, as the code computes it. *)
Definition group_kept (org : json) (group : string) : bool :=
  (length (split_on ":" group) =? 1)%nat
  || (truthy org && json_eqb (JStr (hd "" (split_on ":" group))) org).

Lemma group_kept_spec (org : json) (group : string) :
  group_kept org group = true <->
  has_colon group = false
  \/ (exists o, org = JStr o /\ o <> "" /\ o = before_colon group).
Proof.
  unfold group_kept. rewrite split_on_single, split_on_head.
  rewrite orb_true_iff, andb_true_iff, negb_true_iff, json_eqb_str_l.
  split.
  - intros [E | [T E]]; [now left|]. right. exists (before_colon group).
    subst org. apply truthy_str in T. auto.
  - intros [E | (o & -> & NE & ->)]; [now left|]. right.
    split; [now apply truthy_str | reflexivity].
Qed.

(** ** A frame rule for the monad

    [keeps R E m]: whatever [m] does, the state it leaves is related to the
    one it found by [R], and an exception it raises satisfies [E]. *)

Definition keeps {S A} (R : S -> S -> Prop) (E : exn -> Prop) (m : M S A)
    : Prop :=
  forall s r s', m s = (r, s') -> R s s' /\ (forall e, r = Raise e -> E e).

Section Frame.
Context {S : Type} (R : S -> S -> Prop).
Hypothesis R_refl : forall s, R s s.
Hypothesis R_trans : forall s1 s2 s3, R s1 s2 -> R s2 s3 -> R s1 s3.

Lemma keeps_ret {A} (E : exn -> Prop) (a : A) : keeps R E (ret a).
Proof. intros s r s' Eq. inversion Eq; subst. split; [auto | discriminate]. Qed.

Lemma keeps_raise {A} (E : exn -> Prop) (e : exn) :
  E e -> keeps R E (@raise S A e).
Proof.
  intros He s r s' Eq. inversion Eq; subst. split; [auto|].
  intros e' Eq'. now inversion Eq'; subst.
Qed.

Lemma keeps_gets {A} (E : exn -> Prop) (f : S -> A) : keeps R E (gets f).
Proof. intros s r s' Eq. inversion Eq; subst. split; [auto | discriminate]. Qed.

Lemma keeps_lift_res {A} (E : exn -> Prop) (x : res A) :
  (forall e, x = Raise e -> E e) -> keeps R E (@lift_res S A x).
Proof. intros He s r s' Eq. inversion Eq; subst. split; auto. Qed.

Lemma keeps_bind {A B} (E : exn -> Prop) (m : M S A) (k : A -> M S B) :
  keeps R E m -> (forall a, keeps R E (k a)) -> keeps R E (bind m k).
Proof.
  intros Hm Hk s r s' Eq. unfold bind in Eq.
  destruct (m s) as [[a|e] s1] eqn:M1.
  - destruct (Hm _ _ _ M1) as [R1 _].
    destruct (Hk a _ _ _ Eq) as [R2 E2]. split; eauto.
  - inversion Eq; subst. destruct (Hm _ _ _ M1) as [R1 E1]. split; auto.
    intros e' Eq'. inversion Eq'; subst. now apply E1.
Qed.

Lemma keeps_when (E : exn -> Prop) (b : bool) (m : M S unit) :
  keeps R E m -> keeps R E (when b m).
Proof. intros Hm. destruct b; [exact Hm | apply keeps_ret]. Qed.

Lemma keeps_try_except {A} (E1 E : exn -> Prop) (m : M S A)
    (catches : exn -> bool) (h : exn -> M S A) :
  keeps R E1 m ->
  (forall e, E1 e -> catches e = true -> keeps R E (h e)) ->
  (forall e, E1 e -> catches e = false -> E e) ->
  keeps R E (try_except m catches h).
Proof.
  intros Hm Hh Hp s r s' Eq. unfold try_except in Eq.
  destruct (m s) as [[a|e] s1] eqn:M1.
  - inversion Eq; subst. destruct (Hm _ _ _ M1) as [R1 _].
    split; [auto | discriminate].
  - destruct (Hm _ _ _ M1) as [R1 E1e]. specialize (E1e e eq_refl).
    destruct (catches e) eqn:C.
    + destruct (Hh e E1e C _ _ _ Eq) as [R2 E2]. split; eauto.
    + inversion Eq; subst. split; [auto|].
      intros e' Eq'. inversion Eq'; subst. now apply Hp.
Qed.

Lemma keeps_try_finally {A} (E : exn -> Prop) (m : M S A) (c : M S unit) :
  keeps R E m -> keeps R E c -> keeps R E (try_finally m c).
Proof.
  intros Hm Hc s r s' Eq. unfold try_finally in Eq.
  destruct (m s) as [r1 s1] eqn:M1. destruct (Hm _ _ _ M1) as [R1 E1].
  destruct (c s1) as [[u|e] s2] eqn:C1; inversion Eq; subst;
    destruct (Hc _ _ _ C1) as [R2 E2].
  - split; [eauto | exact E1].
  - split; [eauto|]. intros e' Eq'. inversion Eq'; subst. now apply E2.
Qed.

Lemma keeps_weaken {A} (E1 E : exn -> Prop) (m : M S A) :
  (forall e, E1 e -> E e) -> keeps R E1 m -> keeps R E m.
Proof.
  intros Hw Hm s r s' Eq. destruct (Hm _ _ _ Eq) as [R1 E1e]. split; auto.
Qed.

End Frame.

(** The relation on the local variables and the world that follows the
    world alone. *)
Definition on_world {L} (R : World -> World -> Prop)
    : L * World -> L * World -> Prop :=
  fun s s' => R (snd s) (snd s').

Lemma keeps_in_world {L A} (R : World -> World -> Prop) (E : exn -> Prop)
    (m : M World A) :
  keeps R E m -> keeps (@on_world L R) E (in_world m).
Proof.
  intros Hm [l w] r [l' w'] Eq. unfold in_world in Eq. simpl in Eq.
  destruct (m w) as [r1 w1] eqn:M1. inversion Eq; subst.
  exact (Hm _ _ _ M1).
Qed.

Lemma keeps_set_local {L} (R : World -> World -> Prop) (E : exn -> Prop)
    (f : L -> L) :
  (forall w, R w w) -> keeps (on_world R) E (set_local f).
Proof.
  intros Rr [l w] r [l' w'] Eq. inversion Eq; subst.
  split; [apply Rr | discriminate].
Qed.

(** ** What a call may do to the files *)

(** Every JSON text found in a file afterwards was in the file of that
    name before, or satisfies [P]. *)
Definition only_wrote (P : json -> Prop) (f f' : gmap string node) : Prop :=
  forall q mode c,
    f' !! q = Some (File mode (Some c)) ->
    (exists mode', f !! q = Some (File mode' (Some c))) \/ P c.

(** Nothing but the files and the count of interactions has changed. *)
Definition os_only (w w' : World) : Prop :=
  w' = {| tick := tick w'; files := files w'; posted := posted w;
          warned := warned w; environ := environ w; home := home w;
          iam_url := iam_url w; clock := clock w; os_fault := os_fault w;
          mkstemp_name := mkstemp_name w; http_post := http_post w;
          nt := nt w |}.

(** A step of the operating system that writes nothing but texts that
    satisfy [P]. *)
Definition os_step (P : json -> Prop) (w w' : World) : Prop :=
  os_only w w' /\ only_wrote P (files w) (files w').

(** The world moved on without a request to the endpoint, with the same
    faults ahead, and wrote nothing to disk but texts that satisfy [P]. *)
Definition offline (P : json -> Prop) (w w' : World) : Prop :=
  posted w' = posted w /\ os_fault w' = os_fault w
  /\ only_wrote P (files w) (files w').

Lemma only_wrote_refl P f : only_wrote P f f.
Proof. intros q mode c L. left. eauto. Qed.

Lemma only_wrote_trans P f1 f2 f3 :
  only_wrote P f1 f2 -> only_wrote P f2 f3 -> only_wrote P f1 f3.
Proof.
  intros H12 H23 q mode c L.
  destruct (H23 _ _ _ L) as [(mode' & L') | Pc]; [|now right].
  exact (H12 _ _ _ L').
Qed.

Lemma os_only_refl w : os_only w w.
Proof. now destruct w. Qed.

Lemma os_only_trans w1 w2 w3 : os_only w1 w2 -> os_only w2 w3 -> os_only w1 w3.
Proof.
  unfold os_only. intros H12 H23. rewrite H23 at 1. rewrite H12. reflexivity.
Qed.

Lemma os_step_refl P w : os_step P w w.
Proof. split; [apply os_only_refl | apply only_wrote_refl]. Qed.

Lemma os_step_trans P w1 w2 w3 :
  os_step P w1 w2 -> os_step P w2 w3 -> os_step P w1 w3.
Proof.
  intros [O1 F1] [O2 F2].
  split; [eapply os_only_trans | eapply only_wrote_trans]; eauto.
Qed.

Lemma os_step_advance P w : os_step P w (advance w).
Proof. split; [reflexivity | apply only_wrote_refl]. Qed.

Lemma os_step_with_files P (w : World) (f : gmap string node) :
  only_wrote P (files w) f -> os_step P w (with_files f w).
Proof. intros Hf. split; [reflexivity | exact Hf]. Qed.

Lemma os_step_offline P w w' : os_step P w w' -> offline P w w'.
Proof.
  intros [O F]. unfold os_only in O.
  split; [now rewrite O | split; [now rewrite O | exact F]].
Qed.

Lemma offline_refl P w : offline P w w.
Proof. apply os_step_offline, os_step_refl. Qed.

Lemma offline_trans P w1 w2 w3 :
  offline P w1 w2 -> offline P w2 w3 -> offline P w1 w3.
Proof.
  intros (P1 & O1 & F1) (P2 & O2 & F2).
  split; [congruence | split; [congruence|]].
  eapply only_wrote_trans; eauto.
Qed.

Definition os_error (e : exn) : Prop := isinstance_OSError e = true.

Definition never (e : exn) : Prop := False.

Lemma keeps_relax {S A} (R R' : S -> S -> Prop) (E : exn -> Prop)
    (m : M S A) :
  (forall s s', R s s' -> R' s s') -> keeps R E m -> keeps R' E m.
Proof.
  intros Hr Hm s r s' Eq. destruct (Hm _ _ _ Eq) as [R1 E1]. split; auto.
Qed.

Lemma keeps_bind_post {S A B} (R : S -> S -> Prop) (E : exn -> Prop)
    (Q : A -> Prop) (m : M S A) (k : A -> M S B) :
  (forall s1 s2 s3, R s1 s2 -> R s2 s3 -> R s1 s3) ->
  keeps R E m ->
  (forall s a s', m s = (Ok a, s') -> Q a) ->
  (forall a, Q a -> keeps R E (k a)) ->
  keeps R E (bind m k).
Proof.
  intros Rt Hm Hq Hk s r s' Eq. unfold bind in Eq.
  destruct (m s) as [[a|e] s1] eqn:M1.
  - destruct (Hm _ _ _ M1) as [R1 _].
    destruct (Hk a (Hq _ _ _ M1) _ _ _ Eq) as [R2 E2]. split; eauto.
  - inversion Eq; subst. destruct (Hm _ _ _ M1) as [R1 E1]. split; auto.
    intros e' Eq'. inversion Eq'; subst. now apply E1.
Qed.

(** A call into the operating system keeps a relation that its action
    keeps and that does not see the count of interactions. *)
Lemma keeps_sys {A} (R : World -> World -> Prop) (c : syscall)
    (act : M World A) :
  (forall w, R w (advance w)) ->
  (forall w1 w2 w3, R w1 w2 -> R w2 w3 -> R w1 w3) ->
  keeps R os_error act -> keeps R os_error (sys c act).
Proof.
  intros Ra Rt Ha w r w' Eq. unfold sys in Eq.
  destruct (os_fault w (tick w) c).
  - inversion Eq; subst. split; [apply Ra|].
    intros e Eq'. now inversion Eq'; subst.
  - destruct (Ha _ _ _ Eq) as [R1 E1]. split; [|exact E1].
    eapply Rt; [apply Ra | exact R1].
Qed.

Lemma only_wrote_insert P (f g : gmap string node) (p : string) (n : node) :
  (forall mode c, n = File mode (Some c) ->
     (exists mode', f !! p = Some (File mode' (Some c))) \/ P c) ->
  only_wrote P f g -> only_wrote P f (<[p := n]> g).
Proof.
  intros Hn Hg q mode c L. destruct (decide (p = q)) as [->|NE].
  - rewrite lookup_insert_eq in L. inversion L; subst. eauto.
  - rewrite lookup_insert_ne in L by exact NE. eauto.
Qed.

Lemma only_wrote_delete P (f g : gmap string node) (p : string) :
  only_wrote P f g -> only_wrote P f (delete p g).
Proof.
  intros Hg q mode c L. destruct (decide (p = q)) as [->|NE].
  - rewrite lookup_delete_eq in L. discriminate.
  - rewrite lookup_delete_ne in L by exact NE. eauto.
Qed.

(** The outcome of the action of a call: the world it leaves, then the
    class of the error. *)
Ltac act_case :=
  match goal with
  | Eq : (_, _) = (_, _) |- _ => inversion Eq; subst; clear Eq
  end;
  split;
  [ try apply os_step_refl
  | first [ discriminate
          | intros ? Eq'; inversion Eq'; subst; reflexivity ] ].

Ltac os_call P :=
  apply keeps_sys; [apply os_step_advance | apply os_step_trans |].

Lemma keeps_os_path_exists P E p : keeps (os_step P) E (os_path_exists p).
Proof. apply keeps_gets, os_step_refl. Qed.

Lemma keeps_read_json P p : keeps (os_step P) (fun _ => True) (read_json p).
Proof.
  intros w r w' Eq. unfold read_json, sys in Eq.
  destruct (os_fault w (tick w) (SysOpen p)).
  - inversion Eq; subst. split; [apply os_step_advance | auto].
  - change (files (advance w)) with (files w) in Eq.
    destruct (files w !! p) as [[m|m [j|]]|]; inversion Eq; subst;
      (split; [apply os_step_advance | auto]).
Qed.

Lemma keeps_os_makedirs P p : keeps (os_step P) os_error (os_makedirs p).
Proof.
  os_call P. intros w r w' Eq.
  destruct (String.eqb p ""); [act_case|].
  destruct (files w !! p); act_case.
  apply os_step_with_files, only_wrote_insert;
    [discriminate | apply only_wrote_refl].
Qed.

Lemma keeps_os_chmod P p mode : keeps (os_step P) os_error (os_chmod p mode).
Proof.
  os_call P. intros w r w' Eq.
  destruct (files w !! p) as [[m|m c]|] eqn:L; act_case;
    apply os_step_with_files, only_wrote_insert;
    try discriminate; try apply only_wrote_refl.
  intros mode' c' Eq. inversion Eq; subst. left. eauto.
Qed.

Lemma keeps_mkstemp P prefix dir :
  keeps (os_step P) os_error (mkstemp prefix dir).
Proof.
  intros w0 r w' Eq. unfold mkstemp in Eq.
  revert Eq. generalize (mkstemp_name w0 (tick w0)). intros name Eq.
  refine (keeps_sys (os_step P) (SysMkstemp dir prefix) _
            (os_step_advance P) (os_step_trans P) _ w0 r w' Eq).
  clear. intros w r w' Eq.
  destruct (files w !! dir) as [[m|m c]|]; try act_case.
  destruct (files w !! _); act_case.
  apply os_step_with_files, only_wrote_insert;
    [discriminate | apply only_wrote_refl].
Qed.

Lemma keeps_write_json (P : json -> Prop) p j :
  P j -> keeps (os_step P) os_error (write_json p j).
Proof.
  intros Pj. os_call P. intros w r w' Eq.
  destruct (files w !! p) as [[m|m c]|]; act_case.
  apply os_step_with_files, only_wrote_insert; [|apply only_wrote_refl].
  intros mode' c' Eq. inversion Eq; subst. now right.
Qed.

Lemma keeps_os_remove P p : keeps (os_step P) os_error (os_remove p).
Proof.
  os_call P. intros w r w' Eq.
  destruct (files w !! p) as [[m|m c]|]; act_case.
  apply os_step_with_files, only_wrote_delete, only_wrote_refl.
Qed.

Lemma keeps_os_close P p : keeps (os_step P) os_error (os_close p).
Proof. os_call P. apply keeps_ret, os_step_refl. Qed.

Lemma keeps_makedirs_if_not_exists P path :
  keeps (os_step P) os_error (makedirs_if_not_exists path).
Proof.
  unfold makedirs_if_not_exists.
  apply keeps_bind; [apply os_step_trans | apply keeps_os_path_exists |].
  intros [|]; [apply keeps_ret, os_step_refl|].
  apply keeps_try_except with (E1 := os_error); [apply os_step_trans | | |].
  - apply keeps_bind; [apply os_step_trans | apply keeps_os_makedirs |].
    intros _. apply keeps_os_chmod.
  - intros e E1 _. destruct e; try discriminate E1.
    destruct (errno =? Errno.EEXIST)%Z;
      [apply keeps_ret | apply keeps_raise]; auto using os_step_refl.
  - intros e E1 _. exact E1.
Qed.

Lemma keeps_warn P E msg : keeps (offline P) E (warn msg).
Proof.
  intros w r w' Eq. inversion Eq; subst.
  split; [|discriminate].
  split; [reflexivity | split; [reflexivity|]]. simpl. apply only_wrote_refl.
Qed.

Lemma keeps_read_token_info P path quiet :
  keeps (offline P) never (_read_token_info path quiet).
Proof.
  unfold _read_token_info.
  apply keeps_bind; [apply offline_trans | apply keeps_gets, offline_refl |].
  intros no_cache. destruct (String.eqb _ "true");
    [apply keeps_ret, offline_refl|].
  apply keeps_try_except with (E1 := fun _ => True); [apply offline_trans | | |].
  - apply keeps_relax with (R := os_step P); [apply os_step_offline|].
    apply keeps_read_json.
  - intros e _ _. apply keeps_bind; [apply offline_trans | |].
    + apply keeps_when; [apply offline_refl | apply keeps_warn].
    + intros _. apply keeps_ret, offline_refl.
  - discriminate.
Qed.

Lemma read_token_info_returns path quiet w :
  exists j w', _read_token_info path quiet w = (Ok j, w')
               /\ offline (fun _ => False) w w'.
Proof.
  destruct (_read_token_info path quiet w) as [[j|e] w'] eqn:E.
  - exists j, w'. split; [reflexivity|].
    exact (proj1 (keeps_read_token_info _ _ _ _ _ _ E)).
  - destruct (proj2 (keeps_read_token_info (fun _ => False) _ _ _ _ _ E)
                e eq_refl).
Qed.

(** ** Moving the temporary file into place *)

(** The file [tp], if it holds a JSON text, holds one that satisfies [P]. *)
Definition scratch (tp : string) (P : json -> Prop) (w : World) : Prop :=
  forall mode c, files w !! tp = Some (File mode (Some c)) -> P c.

(** A step of the operating system that, when [tp] is such a file, leaves
    it one and puts under every name a text that was there or satisfies
    [P]. *)
Definition os_move (tp : string) (P : json -> Prop) (w w' : World) : Prop :=
  os_only w w'
  /\ (scratch tp P w ->
      scratch tp P w' /\ only_wrote P (files w) (files w')).

Lemma only_wrote_scratch tp P w w' :
  only_wrote P (files w) (files w') -> scratch tp P w -> scratch tp P w'.
Proof.
  intros F S mode c L.
  destruct (F _ _ _ L) as [(mode' & L') | Pc]; [exact (S _ _ L') | exact Pc].
Qed.

Lemma os_step_move tp P w w' : os_step P w w' -> os_move tp P w w'.
Proof.
  intros [O F]. split; [exact O|]. intros S.
  split; [exact (only_wrote_scratch _ _ _ _ F S) | exact F].
Qed.

Lemma os_move_refl tp P w : os_move tp P w w.
Proof. apply os_step_move, os_step_refl. Qed.

Lemma os_move_trans tp P w1 w2 w3 :
  os_move tp P w1 w2 -> os_move tp P w2 w3 -> os_move tp P w1 w3.
Proof.
  intros [O1 M1] [O2 M2]. split; [eapply os_only_trans; eauto|].
  intros S1. destruct (M1 S1) as [S2 F1]. destruct (M2 S2) as [S3 F2].
  split; [exact S3 | eapply only_wrote_trans; eauto].
Qed.

Lemma keeps_os_rename tp P dst :
  keeps (os_move tp P) os_error (os_rename tp dst).
Proof.
  apply keeps_sys;
    [intros w; apply os_step_move, os_step_advance | apply os_move_trans |].
  intros w r w' Eq.
  assert (forall n, files w !! tp = Some n ->
            os_move tp P w (with_files (<[dst := n]> (delete tp (files w))) w))
    as Moved.
  { intros n L. split; [reflexivity|]. intros S.
    assert (only_wrote P (files w) (<[dst := n]> (delete tp (files w)))) as F.
    { apply only_wrote_insert.
      - intros mode c ->. right. exact (S _ _ L).
      - apply only_wrote_delete, only_wrote_refl. }
    split; [|exact F].
    exact (only_wrote_scratch tp P w (with_files _ w) F S). }
  destruct (files w !! tp) as [n|] eqn:L.
  2: { inversion Eq; subst. split; [apply os_move_refl|].
       intros ? Eq'; inversion Eq'; subst; reflexivity. }
  destruct (files w !! dst) as [[m|m c]|].
  - inversion Eq; subst. split; [apply os_move_refl|].
    intros ? Eq'; inversion Eq'; subst; reflexivity.
  - destruct (nt w); inversion Eq; subst.
    + split; [apply os_move_refl|].
      intros ? Eq'; inversion Eq'; subst; reflexivity.
    + split; [auto | discriminate].
  - inversion Eq; subst. split; [auto | discriminate].
Qed.

Lemma mkstemp_creates prefix dir w tp w' :
  mkstemp prefix dir w = (Ok tp, w') -> files w' !! tp = Some (File 384 None).
Proof.
  unfold mkstemp, sys.
  destruct (os_fault w (tick w) (SysMkstemp dir prefix)); [discriminate|].
  change (files (advance w)) with (files w).
  destruct (files w !! dir) as [[m|m c]|]; try discriminate.
  destruct (files w !! _); [discriminate|].
  intros E. inversion E; subst. simpl. apply lookup_insert_eq.
Qed.

(** ** Writing the token info *)

(** The text that [_write_token_info] puts under [path]. *)
Definition written_form (path : string) (token_info : dict) (c : json)
    : Prop :=
  if py_in JWT_TOKEN_PREFIX path
  then exists v, assoc KEY_JWT_TOKEN token_info = Some v
                 /\ c = JObj [(KEY_JWT_TOKEN, v)]
  else c = JObj token_info.

Section WriteFrame.
Variables (path : string) (token_info : dict).
Let P := written_form path token_info.
Let R : wlocals * World -> wlocals * World -> Prop := on_world (os_step P).
Let Rm (tp : string) : wlocals * World -> wlocals * World -> Prop :=
  on_world (os_move tp P).

Local Lemma R_trans s1 s2 s3 : R s1 s2 -> R s2 s3 -> R s1 s3.
Proof. apply os_step_trans. Qed.

Local Lemma R_refl s : R s s.
Proof. apply os_step_refl. Qed.

Local Lemma Rm_trans tp s1 s2 s3 : Rm tp s1 s2 -> Rm tp s2 s3 -> Rm tp s1 s3.
Proof. apply os_move_trans. Qed.

Local Lemma Rm_refl tp s : Rm tp s s.
Proof. apply os_move_refl. Qed.

Local Lemma keeps_os {A} (m : M World A) :
  keeps (os_step P) os_error m -> keeps R (fun _ => True) (in_world m).
Proof.
  intros Hm. apply keeps_in_world, keeps_weaken with (E1 := os_error); auto.
Qed.

Local Lemma keeps_os_temp {A} tp (m : M World A) :
  keeps (os_move tp P) os_error m -> keeps (Rm tp) (fun _ => True) (in_world m).
Proof.
  intros Hm. apply keeps_in_world, keeps_weaken with (E1 := os_error); auto.
Qed.

Local Lemma keeps_os_other {A} tp (m : M World A) :
  keeps (os_step P) os_error m -> keeps (Rm tp) (fun _ => True) (in_world m).
Proof.
  intros Hm. apply keeps_os_temp.
  apply keeps_relax with (R := os_step P); [apply os_step_move | exact Hm].
Qed.

Lemma keeps_publish tp :
  keeps (Rm tp) (fun _ => True) (publish tp path token_info).
Proof.
  unfold publish.
  apply keeps_bind_post with (Q := fun d => P (JObj d));
    [exact (Rm_trans tp)| | |].
  { destruct (py_in JWT_TOKEN_PREFIX path).
    - apply keeps_bind;
        [exact (Rm_trans tp)
        |apply keeps_lift_res; [exact (Rm_refl tp)|auto]|intros v].
      apply keeps_bind;
        [exact (Rm_trans tp)| |intros _; apply keeps_ret, Rm_refl].
      apply keeps_set_local, os_move_refl.
    - apply keeps_ret, Rm_refl. }
  { intros s d s'. unfold P, written_form.
    destruct (py_in JWT_TOKEN_PREFIX path).
    - unfold bind, lift_res, set_local, modify, ret.
      destruct (assoc KEY_JWT_TOKEN token_info) as [v|]; simpl;
        intros E; inversion E; subst. eauto.
    - intros E; inversion E; subst. reflexivity. }
  intros d Pd.
  apply keeps_bind; [exact (Rm_trans tp)| |intros _].
  { apply keeps_try_finally;
      [exact (Rm_trans tp)| |apply keeps_set_local, os_move_refl].
    now apply keeps_os_other, keeps_write_json. }
  apply keeps_bind;
    [exact (Rm_trans tp)|apply keeps_os_other, keeps_os_chmod|intros _].
  apply keeps_try_except with (E1 := fun _ => True);
    [exact (Rm_trans tp)|apply keeps_os_temp, keeps_os_rename| |auto].
  intros e _ _.
  apply keeps_bind;
    [exact (Rm_trans tp)|apply keeps_os_other, keeps_os_remove|intros _].
  apply keeps_os_temp, keeps_os_rename.
Qed.

(** The temporary file is created empty, so what is moved over [path] is
    what [publish] wrote. *)
Lemma keeps_write_attempt :
  keeps R (fun _ => True) (write_attempt path token_info).
Proof.
  intros [l w] r [l' w'] Eq. split; [|auto].
  unfold R, on_world. simpl. revert Eq. unfold write_attempt. run.
  destruct (makedirs_if_not_exists (dirname path) w) as [[u|e] w2] eqn:MD; run.
  2: { intros E. inversion E; subst.
       exact (proj1 (keeps_makedirs_if_not_exists P _ _ _ _ MD)). }
  pose proof (proj1 (keeps_makedirs_if_not_exists P _ _ _ _ MD)) as S1.
  destruct (mkstemp ("." +:+ basename path +:+ ".") (dirname path) w2)
    as [[tp|e] w3] eqn:MK; run.
  2: { intros E. inversion E; subst.
       eapply os_step_trans; [exact S1|].
       exact (proj1 (keeps_mkstemp P _ _ _ _ _ MK)). }
  pose proof (proj1 (keeps_mkstemp P _ _ _ _ _ MK)) as S2.
  intros Pub. destruct (keeps_publish tp _ _ _ Pub) as [[O Mv] _].
  simpl in O, Mv. destruct Mv as [_ F].
  { intros mode c L. rewrite (mkstemp_creates _ _ _ _ _ MK) in L.
    discriminate. }
  eapply os_step_trans; [exact S1|].
  eapply os_step_trans; [exact S2|]. split; assumption.
Qed.

Lemma keeps_write_failed e :
  keeps (on_world (offline P)) never (write_failed e).
Proof.
  unfold write_failed.
  apply keeps_bind;
    [intros s1 s2 s3; apply offline_trans
    |apply keeps_gets; intros s; apply offline_refl|].
  intros quiet. apply keeps_when; [intros s; apply offline_refl|].
  apply keeps_in_world, keeps_warn.
Qed.

Lemma keeps_write_cleanup : keeps R os_error write_cleanup.
Proof.
  unfold write_cleanup, close_descriptor, remove_temp.
  apply keeps_bind; [exact R_trans| |intros _].
  { apply keeps_bind; [exact R_trans|apply keeps_gets, R_refl|intros open_fd].
    destruct open_fd; [apply keeps_in_world, keeps_os_close
                      |apply keeps_ret, R_refl]. }
  apply keeps_bind; [exact R_trans|apply keeps_gets, R_refl|intros [tp|]];
    [|apply keeps_ret, R_refl].
  apply keeps_bind; [exact R_trans|apply keeps_in_world, keeps_os_path_exists|].
  intros ex. apply keeps_when; [exact R_refl|].
  apply keeps_in_world, keeps_os_remove.
Qed.

Lemma keeps_write_token_info :
  keeps (offline P) os_error (_write_token_info path token_info).
Proof.
  assert (forall s1 s2 s3 : wlocals * World,
            on_world (offline P) s1 s2 -> on_world (offline P) s2 s3 ->
            on_world (offline P) s1 s3) as Ot.
  { intros s1 s2 s3. apply offline_trans. }
  assert (forall s s' : wlocals * World, R s s' -> on_world (offline P) s s')
    as Weak.
  { intros s s'. apply os_step_offline. }
  intros w r w' Eq. unfold _write_token_info in Eq.
  match type of Eq with
  | (match ?m ?s0 with _ => _ end) = _ =>
      destruct (m s0) as [r1 [l1 w1]] eqn:Run;
      assert (keeps (on_world (offline P)) os_error m) as K
  end.
  2: { inversion Eq; subst. exact (K _ _ _ Run). }
  clear Eq Run. apply keeps_try_finally; [exact Ot| |].
  - (* the guarded sequence never lets an exception out *)
    apply keeps_weaken with (E1 := never); [intros e []|].
    apply keeps_try_except with (E1 := fun _ => True); [exact Ot| | |].
    + apply keeps_relax with (R := R); [exact Weak|].
      apply keeps_write_attempt.
    + intros e _ _. apply keeps_write_failed.
    + discriminate.
  - apply keeps_relax with (R := R); [exact Weak|].
    apply keeps_write_cleanup.
Qed.

End WriteFrame.

(** ** The temporary file and the clean-up *)

(** No directory stands under the name [tp]. *)
Definition not_dir (tp : string) (w : World) : Prop :=
  forall m, files w !! tp <> Some (Dir m).

(** The temporary path is still recorded, and the name [tp] has not come
    to denote a directory. *)
Definition guards (tp : string) (s s' : wlocals * World) : Prop :=
  temp_path (fst s') = temp_path (fst s)
  /\ (not_dir tp (snd s) -> not_dir tp (snd s')).

Lemma guards_refl tp s : guards tp s s.
Proof. split; auto. Qed.

Lemma guards_trans tp s1 s2 s3 :
  guards tp s1 s2 -> guards tp s2 s3 -> guards tp s1 s3.
Proof. intros [T1 N1] [T2 N2]. split; [congruence | auto]. Qed.

Lemma keeps_guards_world {A} tp (m : M World A) :
  (forall w r w', m w = (r, w') -> not_dir tp w -> not_dir tp w') ->
  keeps (guards tp) (fun _ => True) (in_world m).
Proof.
  intros Hm [l w] r [l' w'] Eq. unfold in_world in Eq. simpl in Eq.
  destruct (m w) as [r1 w1] eqn:M1. inversion Eq; subst.
  split; [|auto]. split; [reflexivity|]. simpl. eauto.
Qed.

Lemma keeps_guards_local tp (f : wlocals -> wlocals) :
  (forall l, temp_path (f l) = temp_path l) ->
  keeps (guards tp) (fun _ => True) (set_local f).
Proof.
  intros Hf [l w] r [l' w'] Eq. inversion Eq; subst.
  split; [|auto]. split; [apply Hf | auto].
Qed.

Lemma sys_not_dir {A} tp (c : syscall) (act : M World A) :
  (forall w r w', act w = (r, w') -> not_dir tp w -> not_dir tp w') ->
  forall w r w', sys c act w = (r, w') -> not_dir tp w -> not_dir tp w'.
Proof.
  intros Ha w r w' Eq N. unfold sys in Eq.
  destruct (os_fault w (tick w) c).
  - inversion Eq; subst. exact N.
  - exact (Ha _ _ _ Eq N).
Qed.

Lemma write_json_not_dir tp j w r w' :
  write_json tp j w = (r, w') -> not_dir tp w -> not_dir tp w'.
Proof.
  apply sys_not_dir. clear. intros w r w' Eq N.
  destruct (files w !! tp) as [[m|m c]|]; inversion Eq; subst; auto.
  intros m'. simpl. rewrite lookup_insert_eq. discriminate.
Qed.

Lemma os_chmod_not_dir tp mode w r w' :
  os_chmod tp mode w = (r, w') -> not_dir tp w -> not_dir tp w'.
Proof.
  apply sys_not_dir. clear. intros w r w' Eq N.
  destruct (files w !! tp) as [[m|m c]|] eqn:L; inversion Eq; subst; auto.
  - destruct (N m L).
  - intros m'. simpl. rewrite lookup_insert_eq. discriminate.
Qed.

Lemma os_rename_not_dir tp dst w r w' :
  os_rename tp dst w = (r, w') -> not_dir tp w -> not_dir tp w'.
Proof.
  apply sys_not_dir. clear. intros w r w' Eq N.
  assert (forall n, files w !! tp = Some n ->
            not_dir tp (with_files (<[dst := n]> (delete tp (files w))) w))
    as Moved.
  { intros n L m. simpl. destruct (decide (dst = tp)) as [->|NE].
    - rewrite lookup_insert_eq. intros E. inversion E; subst. exact (N m L).
    - rewrite lookup_insert_ne, lookup_delete_eq by exact NE. discriminate. }
  destruct (files w !! tp) as [n|] eqn:L; [|inversion Eq; subst; auto].
  destruct (files w !! dst) as [[m|m c]|];
    [inversion Eq; subst; auto| |inversion Eq; subst; auto].
  destruct (nt w); inversion Eq; subst; auto.
Qed.

Lemma os_remove_not_dir tp p w r w' :
  os_remove p w = (r, w') -> not_dir tp w -> not_dir tp w'.
Proof.
  apply sys_not_dir. clear. intros w r w' Eq N.
  destruct (files w !! p) as [[m|m c]|]; inversion Eq; subst; auto.
  intros m'. simpl. destruct (decide (p = tp)) as [->|NE].
  - rewrite lookup_delete_eq. discriminate.
  - rewrite lookup_delete_ne by exact NE. apply N.
Qed.

Lemma publish_guards tp path token_info :
  keeps (guards tp) (fun _ => True) (publish tp path token_info).
Proof.
  unfold publish.
  apply keeps_bind; [apply guards_trans| |intros d].
  { destruct (py_in JWT_TOKEN_PREFIX path).
    - apply keeps_bind;
        [apply guards_trans
        |apply keeps_lift_res; [apply guards_refl|auto]|intros v].
      apply keeps_bind;
        [apply guards_trans| |intros _; apply keeps_ret, guards_refl].
      now apply keeps_guards_local.
    - apply keeps_ret, guards_refl. }
  apply keeps_bind; [apply guards_trans| |intros _].
  { apply keeps_try_finally;
      [apply guards_trans| |now apply keeps_guards_local].
    apply keeps_guards_world. apply write_json_not_dir. }
  apply keeps_bind; [apply guards_trans| |intros _].
  { apply keeps_guards_world. apply os_chmod_not_dir. }
  apply keeps_try_except with (E1 := fun _ => True);
    [apply guards_trans| | |auto].
  { apply keeps_guards_world. apply os_rename_not_dir. }
  intros e _ _. apply keeps_bind; [apply guards_trans| |intros _].
  { apply keeps_guards_world. apply os_remove_not_dir. }
  apply keeps_guards_world. apply os_rename_not_dir.
Qed.

(** After the guarded statements, a recorded temporary path does not
    denote a directory. *)
Lemma write_attempt_temp path token_info w r l w1 :
  write_attempt path token_info (initial_locals, w) = (r, (l, w1)) ->
  forall tp, temp_path l = Some tp -> not_dir tp w1.
Proof.
  unfold write_attempt. run.
  destruct (makedirs_if_not_exists (dirname path) w) as [[u|e] w2]; run.
  2: { intros E. inversion E; subst. discriminate. }
  destruct (mkstemp ("." +:+ basename path +:+ ".") (dirname path) w2)
    as [[tp0|e] w3] eqn:MK; run.
  2: { intros E. inversion E; subst. discriminate. }
  intros Pub tp T.
  destruct (publish_guards tp0 path token_info _ _ _ Pub) as [[Tp N] _].
  simpl in Tp, N. rewrite Tp in T. inversion T; subst.
  apply N. intros m. rewrite (mkstemp_creates _ _ _ _ _ MK). discriminate.
Qed.

(** The clean-up has no fault of its own to meet. *)
Definition cleanup_cannot_fail (w : World) : Prop :=
  forall n p, os_fault w n (SysClose p) = None
              /\ os_fault w n (SysRemove p) = None.

Lemma close_descriptor_runs l w :
  cleanup_cannot_fail w ->
  exists w1, close_descriptor (l, w) = (Ok tt, (l, w1))
             /\ warned w1 = warned w /\ files w1 = files w
             /\ os_fault w1 = os_fault w.
Proof.
  intros NoFault. unfold close_descriptor. run.
  destruct (fd l) as [p|]; [|exists w; repeat split].
  unfold os_close, sys. run. rewrite (proj1 (NoFault (tick w) p)).
  exists (advance w). repeat split.
Qed.

Lemma remove_temp_runs l w :
  cleanup_cannot_fail w ->
  (forall tp, temp_path l = Some tp -> not_dir tp w) ->
  exists w', remove_temp (l, w) = (Ok tt, (l, w'))
             /\ warned w' = warned w
             /\ (forall tp, temp_path l = Some tp -> files w' !! tp = None).
Proof.
  intros NoFault ND. unfold remove_temp. run.
  destruct (temp_path l) as [tp|] eqn:T; run.
  2: { exists w. repeat split. discriminate. }
  unfold os_path_exists. run.
  destruct (bool_decide (is_Some (files w !! tp))) eqn:Ex; run.
  - unfold os_remove, sys. run. rewrite (proj2 (NoFault (tick w) tp)).
    change (files (advance w)) with (files w).
    destruct (files w !! tp) as [[m|m c]|] eqn:L.
    + exfalso. exact (ND tp eq_refl m L).
    + eexists. split; [reflexivity|]. split; [reflexivity|].
      intros tp' E. inversion E; subst. simpl. apply lookup_delete_eq.
    + apply bool_decide_eq_true in Ex. destruct Ex as [n Ex]. discriminate.
  - exists w. split; [reflexivity|]. split; [reflexivity|].
    intros tp' E. inversion E; subst.
    apply bool_decide_eq_false in Ex.
    destruct (files w !! tp') eqn:L; [|reflexivity].
    exfalso. apply Ex. eauto.
Qed.

Lemma write_cleanup_runs l w :
  cleanup_cannot_fail w ->
  (forall tp, temp_path l = Some tp -> not_dir tp w) ->
  exists w', write_cleanup (l, w) = (Ok tt, (l, w'))
             /\ warned w' = warned w
             /\ (forall tp, temp_path l = Some tp -> files w' !! tp = None).
Proof.
  intros NoFault ND.
  destruct (close_descriptor_runs l w NoFault) as (w1 & C & W1 & F1 & O1).
  destruct (remove_temp_runs l w1) as (w' & Rm & W' & Gone).
  { intros n p. rewrite O1. apply NoFault. }
  { intros tp T m. rewrite F1. exact (ND tp T m). }
  exists w'. split; [|split; [congruence | exact Gone]].
  unfold write_cleanup, bind. now rewrite C, Rm.
Qed.

(** Where the claim of never raising holds: when the clean-up meets no
    fault of its own, [_write_token_info] returns normally whatever else
    fails; it warns exactly when the guarded statements raised and the
    warning is not suppressed; and no temporary file is left. *)
Lemma write_token_info_guarded path token_info w :
  cleanup_cannot_fail w ->
  exists r l w1 w',
    write_attempt path token_info (initial_locals, w) = (r, (l, w1))
    /\ _write_token_info path token_info w = (Ok tt, w')
    /\ warned w' = warned w ++ match r with
                               | Ok _ => []
                               | Raise _ =>
                                   if suppress_warning l then []
                                   else ["Failed to save token"]
                               end
    /\ (forall tp, temp_path l = Some tp -> files w' !! tp = None).
Proof.
  intros NoFault.
  destruct (write_attempt path token_info (initial_locals, w))
    as [r [l w1]] eqn:A.
  exists r, l, w1.
  pose proof (write_attempt_temp _ _ _ _ _ _ A) as ND.
  destruct (keeps_write_attempt _ _ _ _ _ A) as [[Only _] _].
  simpl in Only. unfold os_only in Only.
  assert (warned w1 = warned w) as W1 by (now rewrite Only).
  assert (os_fault w1 = os_fault w) as O1 by (now rewrite Only).
  set (w2 := match r with
             | Ok _ => w1
             | Raise _ =>
                 if suppress_warning l then w1
                 else with_warned (warned w1 ++ ["Failed to save token"]) w1
             end).
  assert (try_except (write_attempt path token_info) (fun _ => true)
            write_failed (initial_locals, w) = (Ok tt, (l, w2))) as Guarded.
  { unfold try_except. rewrite A. unfold w2.
    destruct r as [[]|e]; [reflexivity|].
    unfold write_failed, warn. run.
    destruct (suppress_warning l); reflexivity. }
  assert (warned w2 = warned w ++ match r with
                                  | Ok _ => []
                                  | Raise _ =>
                                      if suppress_warning l then []
                                      else ["Failed to save token"]
                                  end
          /\ files w2 = files w1 /\ os_fault w2 = os_fault w1)
    as (W2 & F2 & O2).
  { unfold w2. destruct r as [[]|e];
      [|destruct (suppress_warning l)]; simpl;
      rewrite ?W1, ?app_nil_r; repeat split. }
  destruct (write_cleanup_runs l w2) as (w' & C & W' & Gone).
  { intros n p. rewrite O2, O1. apply NoFault. }
  { intros tp T m. rewrite F2. exact (ND tp T m). }
  exists w'. split; [reflexivity|].
  split; [|split; [congruence | exact Gone]].
  unfold _write_token_info, try_finally. now rewrite Guarded, C.
Qed.

Section Properties.
Context `{PyLib}.

Lemma active_groups_of_strings (org : json) (gs : list string) :
  active_groups_of org (map JStr gs) = Ok (List.filter (group_kept org) gs).
Proof.
  induction gs as [|g gs IH]; simpl; [reflexivity|].
  rewrite IH. simpl. unfold group_kept.
  destruct (length (split_on ":" g) =? 1)%nat; simpl; [reflexivity|].
  destruct (truthy org); simpl; [|reflexivity].
  destruct org; reflexivity || (destruct (_ =? _)%string; reflexivity).
Qed.



(** What the accessor does with the outcome of a refresh it has started
    for a token whose claims are [claims]. *)
Definition settle (claims : json) (o : res unit * (Auth * World))
    : res json * (Auth * World) :=
  match o with
  | (Ok _, (a, w)) => (Ok (_token a), (a, w))
  | (Raise e, (a, w)) =>
      if isinstance_AuthError e then
        match _token_expired claims 0 w with
        | (Ok true, w') => (Raise e, (a, w'))
        | (Ok false, w') => (Ok (_token a), (a, w'))
        | (Raise e', w') => (Raise e', (a, w'))
        end
      else (Raise e, (a, w))
  end.

Lemma token_absent (a : Auth) (w : World) :
  _token a = JNull ->
  token (a, w) =
  match _get_token (a, w) with
  | (Ok _, (a', w')) => (Ok (_token a'), (a', w'))
  | (Raise e, s') => (Raise e, s')
  end.
Proof.
  intros E. unfold token. run. rewrite E. simpl.
  destruct (_get_token (a, w)) as [[[]|e] [a' w']]; reflexivity.
Qed.

Lemma token_fresh (a : Auth) (w w1 : World) (claims : json) :
  is_none (_token a) = false ->
  _get_payload (_token a) = Ok claims ->
  _token_expired claims (leeway a) w = (Ok false, w1) ->
  token (a, w) = (Ok (_token a), (a, w1)).
Proof.
  intros N D E. unfold token. run. rewrite N, D. run. rewrite E. reflexivity.
Qed.

Lemma token_expiring (a : Auth) (w w1 : World) (claims : json) :
  is_none (_token a) = false ->
  _get_payload (_token a) = Ok claims ->
  _token_expired claims (leeway a) w = (Ok true, w1) ->
  token (a, w) = settle claims (_get_token (a, w1)).
Proof.
  intros N D E. unfold token, settle. run. rewrite N, D. run. rewrite E.
  destruct (_get_token (a, w1)) as [[[]|e] [a' w']]; run; [reflexivity|].
  destruct (isinstance_AuthError e); [|reflexivity].
  destruct (_token_expired claims 0 w') as [[[]|e'] w'']; reflexivity.
Qed.

Lemma token_expired_numeric (claims exp : json) (e lw : Q) (w : World) :
  py_get claims "exp" = Ok exp -> as_number exp = Some e ->
  _token_expired claims lw w
  = (Ok (negb (Qle_bool (clock w (tick w) + lw) e)), advance w).
Proof.
  intros G N. unfold _token_expired. run. rewrite G.
  assert (is_none exp = false) as -> by (destruct exp; simpl in *; congruence).
  unfold now. now rewrite N.
Qed.

Lemma token_expired_no_exp (claims : json) (lw : Q) (w : World) :
  py_get claims "exp" = Ok JNull ->
  _token_expired claims lw w = (Ok true, w).
Proof.
  intros G. unfold _token_expired. run. now rewrite G.
Qed.

(** C3. For a payload whose [exp] is a number and any reading of the clock,
    the expiry test with a leeway answers true exactly when
    now + leeway > exp: it is true for exp = now + leeway - 1 and false for
    exp = now + leeway + 1; the token accessor serves the held token
    without refreshing when the test is false and starts a refresh when it
    is true. *)
Theorem C3_leeway_boundary (claims exp : json) (e lw : Q) (w : World) :
  py_get claims "exp" = Ok exp -> as_number exp = Some e ->
  exists b : bool,
    _token_expired claims lw w = (Ok b, advance w)
    /\ (b = true <-> (clock w (tick w) + lw > e)%Q)
    /\ (e == clock w (tick w) + lw - 1 -> b = true)%Q
    /\ (e == clock w (tick w) + lw + 1 -> b = false)%Q
    /\ forall a : Auth,
         is_none (_token a) = false ->
         _get_payload (_token a) = Ok claims ->
         leeway a = lw ->
         (b = false -> token (a, w) = (Ok (_token a), (a, advance w)))
         /\ (b = true ->
             token (a, w) = settle claims (_get_token (a, advance w))).
Proof.
  intros G N.
  pose proof (token_expired_numeric claims exp e lw w G N) as E.
  exists (negb (Qle_bool (clock w (tick w) + lw) e)).
  split; [exact E|]. split; [apply later_than_iff|].
  split; [|split].
  - intros Q1. apply later_than_iff. rewrite Q1. lra.
  - intros Q1. apply not_true_is_false. intros B.
    apply later_than_iff in B. rewrite Q1 in B. lra.
  - intros a NN D L. subst lw. split; intros B; rewrite B in E.
    + now apply token_fresh with (claims := claims).
    + now apply token_expiring.
Qed.

(** ** The active-groups filter *)

Lemma payload_cached (s s' : Auth * World) (claims : json) :
  payload s = (Ok claims, s') -> payload s' = (Ok claims, s').
Proof.
  unfold payload. run. destruct s as [a w]; simpl.
  destruct (is_none (default JNull (_payload a))) eqn:C.
  - destruct (token (a, w)) as [[t|e] [a1 w1]]; [|discriminate].
    destruct (_get_payload t) as [p|e]; [|discriminate]. simpl.
    destruct p; try discriminate.
    destruct (doctor (map fst fields) fields) as [d|e]; [|discriminate].
    simpl. intros E. inversion E; subst. reflexivity.
  - intros E. inversion E; subst. simpl. rewrite C. reflexivity.
Qed.

(** C7. For every claims payload whose groups are strings, the groups
    yielded by the active-groups filter are, in order, those that have no
    colon, always, and those that have one exactly when the org claim is a
    non-empty string equal to the text before the first colon. *)
Theorem C7_active_groups_filter (s s' : Auth * World) (claims org : json)
    (groups : list string) :
  payload s = (Ok claims, s') ->
  py_get claims "org" = Ok org ->
  py_get claims "groups" = Ok (JArr (map JStr groups)) ->
  exists yielded : list string,
    _active_groups s = (Ok yielded, s')
    /\ yielded = List.filter (group_kept org) groups
    /\ forall g : string,
         In g groups ->
         (has_colon g = false -> In g yielded)
         /\ (has_colon g = true ->
             (In g yielded <->
              exists o, org = JStr o /\ o <> "" /\ o = before_colon g)).
Proof.
  intros P O G. exists (List.filter (group_kept org) groups).
  split; [|split; [reflexivity|]].
  - unfold _active_groups.
    unfold bind at 1. rewrite P.
    unfold bind at 1. unfold lift_res at 1. rewrite O.
    unfold bind at 1. rewrite (payload_cached _ _ _ P).
    destruct claims; try discriminate. simpl in G |- *.
    unfold bind, lift_res. simpl.
    destruct (assoc "groups" fields) as [v|]; simpl in *; [|discriminate].
    inversion G; subst. simpl.
    now rewrite active_groups_of_strings.
  - intros g I. split.
    + intros C. apply filter_In. split; [exact I|].
      apply group_kept_spec. now left.
    + intros C. rewrite filter_In, group_kept_spec. split.
      * intros [_ [C' | E]]; [congruence | exact E].
      * intros E. split; [exact I | now right].
Qed.

(** ** The claims decoder *)

(** The second segment does not decode: base64, UTF-8 or JSON fails. *)
Definition segment_fails (seg : string) : Prop :=
  base64url_decode seg = Raise ValueError
  \/ (exists raw, base64url_decode seg = Ok raw /\ utf8_decode raw = None)
  \/ (exists raw txt, base64url_decode seg = Ok raw
                      /\ utf8_decode raw = Some txt /\ json_loads txt = None).

Definition segment_decodes (seg : string) (claims : json) : Prop :=
  exists raw txt, base64url_decode seg = Ok raw
                  /\ utf8_decode raw = Some txt
                  /\ json_loads txt = Some claims.

Lemma base64url_decode_cases (seg : string) :
  base64url_decode seg = Raise ValueError
  \/ exists raw, base64url_decode seg = Ok raw.
Proof.
  unfold base64url_decode.
  destruct (urlsafe_b64decode _); simpl; eauto.
Qed.

Lemma read_claims_segment (t seg : string) :
  split_on "." t !! 1%nat = Some seg ->
  (segment_fails seg /\ exists e, read_claims (JStr t) = Raise e)
  \/ (exists claims, segment_decodes seg claims
                     /\ read_claims (JStr t) = Ok claims).
Proof.
  intros S1. unfold read_claims. rewrite S1. simpl.
  unfold segment_fails, segment_decodes.
  destruct (base64url_decode_cases seg) as [E | [raw E]]; rewrite E; simpl.
  - left. split; [now left | eauto].
  - destruct (utf8_decode raw) as [txt|] eqn:U; simpl.
    + destruct (json_loads txt) as [claims|] eqn:J; simpl.
      * right. exists claims. split; [|reflexivity]. now exists raw, txt.
      * left. split; [|eauto]. right. right. now exists raw, txt.
    + left. split; [|eauto]. right. left. now exists raw.
Qed.

Lemma segment_fails_not_decodes (seg : string) (claims : json) :
  segment_fails seg -> segment_decodes seg claims -> False.
Proof.
  intros [F | [(raw & B & U) | (raw & txt & B & U & J)]]
         (raw' & txt' & B' & U' & J'); congruence.
Qed.

Lemma get_payload_surrogate (t : string) :
  has_surrogate t = true -> _get_payload (JStr t) = Raise UnicodeEncodeError.
Proof. intros S. unfold _get_payload, str_encode. now rewrite S. Qed.

Lemma get_payload_encoded (t : string) :
  has_surrogate t = false ->
  _get_payload (JStr t)
  = match read_claims (JStr t) with
    | Ok claims => Ok claims
    | Raise _ => Raise AuthError
    end.
Proof. intros S. unfold _get_payload, str_encode. now rewrite S. Qed.

(** The decoder raises the token-parse error, or the error of the encoding
    on a [str] that has none, and no other. *)
Lemma get_payload_raises (v : json) (e : exn) :
  _get_payload v = Raise e -> e = AuthError \/ e = UnicodeEncodeError.
Proof.
  destruct v as [| b | q | t | items | fields];
    try (intros E; left; unfold _get_payload in E; simpl in E; congruence).
  destruct (has_surrogate t) eqn:S.
  - rewrite (get_payload_surrogate _ S). intros E. right. congruence.
  - rewrite (get_payload_encoded _ S).
    destruct (read_claims (JStr t)); intros E; left; congruence.
Qed.

(** C10 as the claim states it: the token-parse error exactly in the two
    cases, and acceptance of two segments whose second one decodes,
    whatever the first one is. *)
Definition decoder_raises_as_specified : Prop :=
  forall t : string,
    _get_payload (JStr t) = Raise AuthError <->
    (length (split_on "." t) < 2)%nat
    \/ exists seg, split_on "." t !! 1%nat = Some seg /\ segment_fails seg.

Definition decoder_accepts_as_specified : Prop :=
  forall (t header seg : string) (claims : json),
    split_on "." t = [header; seg] ->
    segment_decodes seg claims ->
    _get_payload (JStr t) = Ok claims.

(** C10, amended. For a token that has a UTF-8 encoding, the claims decoder
    raises the token-parse error, and nothing else, exactly when the token
    has fewer than two dot-separated segments or its second segment fails
    base64url, UTF-8 or JSON decoding; among such tokens the outcome
    depends on the second segment alone, so a token of exactly two segments
    whose second one decodes is accepted. *)
Theorem C10_claims_decoder_amended (t : string) :
  has_surrogate t = false ->
  (_get_payload (JStr t) = Raise AuthError <->
   (length (split_on "." t) < 2)%nat
   \/ exists seg, split_on "." t !! 1%nat = Some seg /\ segment_fails seg)
  /\ (forall e, _get_payload (JStr t) = Raise e -> e = AuthError)
  /\ (forall t' : string,
        has_surrogate t' = false ->
        split_on "." t !! 1%nat = split_on "." t' !! 1%nat ->
        _get_payload (JStr t) = _get_payload (JStr t'))
  /\ (forall (header seg : string) (claims : json),
        split_on "." t = [header; seg] ->
        segment_decodes seg claims ->
        _get_payload (JStr t) = Ok claims).
Proof.
  intros Enc. rewrite (get_payload_encoded _ Enc).
  split; [|split; [|split]].
  - destruct (split_on "." t !! 1%nat) as [seg|] eqn:S1.
    + destruct (read_claims_segment t seg S1)
        as [[F [e E]] | (claims & D & E)]; rewrite E.
      * split; [intros _; right; eauto | reflexivity].
      * split; [discriminate|].
        intros [L | (seg' & S' & F)].
        -- apply lookup_lt_Some in S1. lia.
        -- assert (seg' = seg) as -> by congruence.
           destruct (segment_fails_not_decodes _ _ F D).
    + unfold read_claims. rewrite S1. simpl.
      split; [|reflexivity]. intros _. left.
      apply lookup_ge_None in S1. lia.
  - intros e. destruct (read_claims (JStr t)); congruence.
  - intros t' Enc' E. rewrite (get_payload_encoded _ Enc').
    unfold read_claims. now rewrite E.
  - intros header seg claims S2 (raw & txt & B & U & J).
    unfold read_claims. rewrite S2. simpl.
    rewrite B. simpl. rewrite U. simpl. rewrite J. reflexivity.
Qed.

(** ** Refreshing *)

Lemma write_token_info_raises path token_info w e w' :
  _write_token_info path token_info w = (Raise e, w') -> os_error e.
Proof.
  intros E. exact (proj2 (keeps_write_token_info _ _ _ _ _ E) e eq_refl).
Qed.

(** Saving the token leaves the object alone and raises no credential or
    token-exchange error. *)
Lemma persist_token_outcome (s s' : Auth * World) (r : res unit) :
  persist_token s = (r, s') ->
  fst s' = fst s
  /\ forall e, r = Raise e -> isinstance_AuthError e = false.
Proof.
  destruct s as [a w]. unfold persist_token. run.
  destruct (usable (token_info_path a)) as [path|]; run.
  2: { intros E. inversion E; subst. split; [reflexivity | discriminate]. }
  destruct (read_token_info_returns path true w) as (j & w1 & -> & _).
  destruct j; run;
    try (intros E; inversion E; subst; split; [reflexivity|];
         intros e' Eq'; now inversion Eq'; subst).
  match goal with
  | |- context [_write_token_info ?p ?d w1] =>
      destruct (_write_token_info p d w1) as [r1 w2] eqn:W
  end.
  intros E. inversion E; subst. split; [reflexivity|].
  intros e ->. apply write_token_info_raises in W.
  unfold os_error in W. destruct e; simpl in *; congruence.
Qed.

(** A refresh that fails with a credential or token-exchange error has not
    touched the object. *)
Lemma get_token_auth_error (a a' : Auth) (w w' : World) (e : exn) :
  _get_token (a, w) = (Raise e, (a', w')) ->
  isinstance_AuthError e = true ->
  a' = a.
Proof.
  unfold _get_token. run.
  destruct (is_none (client_id a)); run.
  { intros E; now inversion E. }
  destruct (is_none (client_secret a) && is_none (refresh_token a)); run.
  { intros E; now inversion E. }
  destruct (token_params a) as [params|e0]; run.
  2: { intros E; now inversion E. }
  destruct (session_post params w) as [[r|e1] w1]; run.
  2: { intros E; now inversion E. }
  destruct (negb (status_code r =? 200)%Z); run.
  { intros E; now inversion E. }
  destruct (body r) as [data|]; run.
  2: { intros E; now inversion E. }
  destruct (py_get data "access_token") as [access_token|e2]; run.
  2: { intros E; now inversion E. }
  destruct (py_get data "id_token") as [id_token|e3]; run.
  2: { intros E; now inversion E. }
  assert (forall t,
            persist_token (_clear_cache (set_token t a), w1)
            = (Raise e, (a', w')) ->
            isinstance_AuthError e = true -> a' = a) as Tail.
  { intros t P A. apply persist_token_outcome in P as [_ NA].
    rewrite (NA e eq_refl) in A. discriminate. }
  destruct (negb (is_none access_token)); run; [apply Tail|].
  destruct (negb (is_none id_token)); run; [apply Tail|].
  intros E; now inversion E.
Qed.

(** C1 as the claim states it: whatever makes the refresh fail, the
    accessor returns the token it held as long as the true expiry has not
    passed. *)
Definition soft_degrade_as_specified : Prop :=
  forall (a a' : Auth) (w w' : World) (claims exp : json) (e : Q) (err : exn),
    is_none (_token a) = false ->
    _get_payload (_token a) = Ok claims ->
    py_get claims "exp" = Ok exp -> as_number exp = Some e ->
    (clock w (tick w) + leeway a > e)%Q ->
    _get_token (a, advance w) = (Raise err, (a', w')) ->
    (clock w' (tick w') <= e)%Q ->
    fst (token (a, w)) = Ok (_token a).

(** C1, amended. When the held token decodes and its expiry is within the
    leeway window, a refresh that fails with a credential or token-exchange
    error leaves the object as it was, and the accessor returns the token
    it held, unchanged, as long as the true expiry has not passed at the
    time of the failure; once it has passed, the accessor raises that same
    error.  A refresh that fails with any other exception is not softened:
    the accessor raises it, whether the true expiry has passed or not. *)
Theorem C1_soft_degrade_amended (a a' : Auth) (w w' : World)
    (claims exp : json) (e : Q) (err : exn) :
  is_none (_token a) = false ->
  _get_payload (_token a) = Ok claims ->
  py_get claims "exp" = Ok exp -> as_number exp = Some e ->
  (clock w (tick w) + leeway a > e)%Q ->
  _get_token (a, advance w) = (Raise err, (a', w')) ->
  (isinstance_AuthError err = true ->
   a' = a
   /\ ((clock w' (tick w') <= e)%Q ->
       token (a, w) = (Ok (_token a), (a, advance w')))
   /\ ((clock w' (tick w') > e)%Q ->
       token (a, w) = (Raise err, (a, advance w'))))
  /\ (isinstance_AuthError err = false ->
      token (a, w) = (Raise err, (a', w'))).
Proof.
  intros N D G Num Near Fail.
  assert (token (a, w) = settle claims (_get_token (a, advance w))) as ->.
  { apply token_expiring; [exact N | exact D|].
    rewrite (token_expired_numeric claims exp e _ w G Num).
    apply later_than_iff in Near. now rewrite Near. }
  rewrite Fail. unfold settle. split; intros Kind; rewrite Kind.
  - pose proof (get_token_auth_error _ _ _ _ _ Fail Kind) as ->.
    split; [reflexivity|].
    rewrite (token_expired_numeric claims exp e 0 w' G Num).
    split; intros T.
    + assert (negb (Qle_bool (clock w' (tick w') + 0) e) = false) as ->;
        [|reflexivity].
      apply not_true_is_false. intros B. apply later_than_iff in B. lra.
    + assert (negb (Qle_bool (clock w' (tick w') + 0) e) = true) as ->;
        [|reflexivity].
      apply later_than_iff. lra.
  - reflexivity.
Qed.

(** C8. When the held token decodes and its expiry is not within the
    leeway window at either reading of the clock, two accesses in
    succession return the same token string; the second one sends no
    request, writes no file, emits no warning and leaves the Auth object as
    it was: only the clock has been read. *)
Theorem C8_idempotent_access (a : Auth) (w : World) (claims exp : json)
    (e : Q) :
  is_none (_token a) = false ->
  _get_payload (_token a) = Ok claims ->
  py_get claims "exp" = Ok exp -> as_number exp = Some e ->
  (clock w (tick w) + leeway a <= e)%Q ->
  (clock w (S (tick w)) + leeway a <= e)%Q ->
  exists t : string,
    _token a = JStr t
    /\ token (a, w) = (Ok (JStr t), (a, advance w))
    /\ token (a, advance w) = (Ok (JStr t), (a, advance (advance w)))
    /\ posted (advance (advance w)) = posted (advance w)
    /\ files (advance (advance w)) = files (advance w)
    /\ warned (advance (advance w)) = warned (advance w).
Proof.
  intros N D G Num T1 T2.
  assert (exists t, _token a = JStr t) as [t Tok].
  { unfold _get_payload, read_claims in D.
    destruct (_token a); try discriminate. eauto. }
  exists t. split; [exact Tok|]. rewrite <- Tok.
  assert (forall w0, (clock w0 (tick w0) + leeway a <= e)%Q ->
            token (a, w0) = (Ok (_token a), (a, advance w0))) as Fresh.
  { intros w0 T. apply token_fresh with (claims := claims); [exact N|exact D|].
    rewrite (token_expired_numeric claims exp e _ w0 G Num).
    assert (negb (Qle_bool (clock w0 (tick w0) + leeway a) e) = false) as ->;
      [|reflexivity].
    apply not_true_is_false. intros B. apply later_than_iff in B. lra. }
  split; [now apply Fresh|]. split; [now apply Fresh|].
  repeat split.
Qed.

(** ** Validation at construction *)

(** The expiry claim is absent or a number. *)
Definition exp_well_formed (claims : json) : Prop :=
  exists exp, py_get claims "exp" = Ok exp
              /\ (exp = JNull \/ exists e, as_number exp = Some e).

Lemma token_expired_returns (claims : json) (lw : Q) (w : World) :
  exp_well_formed claims ->
  exists b w', _token_expired claims lw w = (Ok b, w').
Proof.
  intros (exp & G & [-> | [e N]]).
  - rewrite (token_expired_no_exp _ _ _ G). eauto.
  - rewrite (token_expired_numeric _ _ _ _ _ G N). eauto.
Qed.

(** The token that [__init__] stores is the resolved one, validated. *)
Lemma init_after_resolve (args : InitArgs) (w w1 w2 : World) (r : resolved)
    (tok : json) :
  resolve args w = (Ok r, w1) ->
  validate_token (r_client_id r) (r_token r) w1 = (Ok tok, w2) ->
  exists a w3, __init__ args w = (Ok a, w3)
               /\ _token a = tok
               /\ client_id a = r_client_id r
               /\ refresh_token a = r_refresh_token r
               /\ token_info_path a = r_path r.
Proof.
  intros R V. unfold __init__. run. rewrite R. run. rewrite V. run.
  match goal with
  | |- context [if ?c then _ else _] => destruct c
  end; run; eexists _, _; repeat split.
Qed.

(** A value that, when it is a [str], has a UTF-8 encoding. *)
Definition encodable (v : json) : Prop :=
  forall s, v = JStr s -> has_surrogate s = false.

(** Construction returns an object that holds no token. *)
Definition discarded (args : InitArgs) (w : World) : Prop :=
  exists a w3, __init__ args w = (Ok a, w3) /\ _token a = JNull.

(** C6 as the claim states it, in two of its three cases: a resolved token
    that does not decode, and one whose audience is not the resolved
    client_id, are discarded without raising. *)
Definition discards_undecodable : Prop :=
  forall (args : InitArgs) (w w1 : World) (r : resolved),
    resolve args w = (Ok r, w1) ->
    truthy (r_token r) = true ->
    (forall claims, _get_payload (r_token r) <> Ok claims) ->
    discarded args w.

Definition discards_foreign_audience : Prop :=
  forall (args : InitArgs) (w w1 : World) (r : resolved) (claims aud : json),
    resolve args w = (Ok r, w1) ->
    truthy (r_token r) = true ->
    _get_payload (r_token r) = Ok claims ->
    truthy (r_client_id r) = true ->
    py_get claims "aud" = Ok aud ->
    json_eqb aud (r_client_id r) = false ->
    discarded args w.

(** C6, amended. After credential resolution, a resolved token that is
    non-empty and either has a UTF-8 encoding and does not decode, or is
    expired with zero leeway, or decodes to claims whose exp is absent or a
    number and whose audience differs from the resolved, non-empty
    client_id, is discarded: construction returns an Auth object whose
    token is None, without raising, and every later access to the token
    goes through a refresh. *)
Theorem C6_construction_validation_amended (args : InitArgs) (w w1 : World)
    (r : resolved) :
  resolve args w = (Ok r, w1) ->
  truthy (r_token r) = true ->
  ((encodable (r_token r)
    /\ forall claims, _get_payload (r_token r) <> Ok claims)
   \/ (exists claims w2,
         _get_payload (r_token r) = Ok claims
         /\ _token_expired claims 0 w1 = (Ok true, w2))
   \/ (exists claims aud,
         _get_payload (r_token r) = Ok claims
         /\ exp_well_formed claims
         /\ truthy (r_client_id r) = true
         /\ py_get claims "aud" = Ok aud
         /\ json_eqb aud (r_client_id r) = false)) ->
  exists a w3,
    __init__ args w = (Ok a, w3)
    /\ _token a = JNull
    /\ forall w4,
         token (a, w4) =
         match _get_token (a, w4) with
         | (Ok _, (a', w')) => (Ok (_token a'), (a', w'))
         | (Raise e, s') => (Raise e, s')
         end.
Proof.
  intros R T Bad.
  assert (exists w2, validate_token (r_client_id r) (r_token r) w1
                     = (Ok JNull, w2)) as [w2 V].
  { unfold validate_token. rewrite T.
    destruct Bad as [[Enc D] | [(claims & w2 & D & X) | (claims & aud & D & WF & C & A & NE)]].
    - assert (_get_payload (r_token r) = Raise AuthError) as ->.
      { destruct (_get_payload (r_token r)) as [claims|e] eqn:G.
        - destruct (D claims eq_refl).
        - destruct (get_payload_raises _ _ G) as [-> | ->]; [reflexivity|].
          destruct (r_token r) as [| b | q | t | items | fields];
            try (unfold _get_payload in G; simpl in G; discriminate).
          unfold _get_payload, str_encode in G.
          rewrite (Enc t eq_refl) in G. simpl in G.
          destruct (read_claims (JStr t)); discriminate. }
      run. eauto.
    - rewrite D; run. rewrite X. run. eauto.
    - rewrite D; run.
      destruct (token_expired_returns claims 0 w1 WF) as (b & w2 & X).
      rewrite X. run. destruct b; run; [eauto|].
      rewrite C, A. run. rewrite NE. run. eauto. }
  destruct (init_after_resolve _ _ _ _ _ _ R V) as (a & w3 & I & Tok & _).
  exists a, w3. split; [exact I|]. split; [exact Tok|].
  intros w4. now apply token_absent.
Qed.


(** ** Credential resolution *)

(** What the arguments and the environment supply, before any file is
    looked at. *)
Definition supplied (args : InitArgs) (w : World) : resolved :=
  let secret := first_not_none [of_str (arg_client_secret args);
                                of_str (environ w !! EARTHONE_CLIENT_SECRET);
                                of_str (environ w !! "CLIENT_SECRET")] in
  let refresh := first_not_none [of_str (arg_refresh_token args);
                                 of_str (environ w !! EARTHONE_REFRESH_TOKEN)] in
  {| r_path := match arg_token_info_path args with
               | DefaultPath =>
                   Some (default (DEFAULT_TOKEN_INFO_PATH w)
                           (environ w !! EARTHONE_TOKEN_INFO_PATH))
               | GivenPath p => p
               end;
     r_client_id := first_not_none [of_str (arg_client_id args);
                                    of_str (environ w !! EARTHONE_CLIENT_ID);
                                    of_str (environ w !! "CLIENT_ID")];
     r_client_secret := secret;
     r_refresh_token := if truthy refresh then refresh else secret;
     r_token := first_not_none [of_str (arg_jwt_token args);
                                of_str (environ w !! EARTHONE_TOKEN)];
     r_token_info := JObj [];
     r_scope := arg_scope args |}.

Lemma from_args_or_environ_run (args : InitArgs) (w : World) :
  from_args_or_environ args w = (Ok (supplied args w), w).
Proof. reflexivity. Qed.

Lemma reconcile_inv (r : resolved) (w w' : World) (x : res resolved) :
  reconcile r w = (x, w') ->
  exists r', x = Ok r'
             /\ r_path r' = r_path r
             /\ r_client_id r' = r_client_id r
             /\ r_token r' = r_token r
             /\ r_token_info r' = r_token_info r.
Proof.
  unfold reconcile, warn. run.
  match goal with
  | |- context [if ?c then _ else _] => destruct c
  end; run; intros E; inversion E; subst; eexists; repeat split.
Qed.

Lemma resolve_scope_inv (r r' : resolved) (w w' : World) :
  resolve_scope r w = (Ok r', w') ->
  r_path r' = r_path r
  /\ r_client_id r' = r_client_id r
  /\ r_token r' = r_token r.
Proof.
  unfold resolve_scope. run.
  destruct (py_get (r_token_info r) KEY_SCOPE); run; [|discriminate].
  intros E; inversion E; subst. repeat split.
Qed.

Lemma resolve_inv (args : InitArgs) (w w1 : World) (r : resolved) :
  resolve args w = (Ok r, w1) ->
  exists r1 w',
    consult_cache args (supplied args w) w = (Ok r1, w')
    /\ r_path r = r_path r1
    /\ r_client_id r = r_client_id r1
    /\ r_token r = r_token r1.
Proof.
  unfold resolve. run. rewrite from_args_or_environ_run. run.
  destruct (consult_cache args (supplied args w) w) as [[r1|e] w'];
    run; [|discriminate].
  destruct (reconcile r1 w') as [x w2] eqn:Rec.
  destruct (reconcile_inv _ _ _ _ Rec) as (r2 & -> & P2 & C2 & T2 & _).
  intros Sc. apply resolve_scope_inv in Sc as (P3 & C3 & T3).
  exists r1, w'. repeat split; congruence.
Qed.

Lemma init_inv (args : InitArgs) (w w3 : World) (a : Auth) :
  __init__ args w = (Ok a, w3) ->
  exists r w1,
    resolve args w = (Ok r, w1)
    /\ token_info_path a = r_path r
    /\ client_id a = r_client_id r.
Proof.
  unfold __init__. run.
  destruct (resolve args w) as [[r|e] w1]; run; [|discriminate].
  destruct (validate_token (r_client_id r) (r_token r) w1) as [[tok|e] w2];
    run; [|discriminate].
  match goal with
  | |- context [if ?c then _ else _] => destruct c
  end; run; intros E; inversion E; subst; simpl; eauto 10.
Qed.

(** ** The cache file that is unique to a refresh token *)

Lemma prefix_app (p s : string) : String.prefix p (p +:+ s) = true.
Proof.
  induction p as [|c p IH]; simpl; [now destruct s|].
  destruct (ascii_dec c c); [exact IH | contradiction].
Qed.


Lemma append_assoc (a b c : string) : (a +:+ b) +:+ c = a +:+ (b +:+ c).
Proof.
  induction a as [|x a IH]; [reflexivity|].
  change (String x ((a +:+ b) +:+ c) = String x (a +:+ (b +:+ c))).
  now rewrite IH.
Qed.





Lemma assoc_dict_set (k : string) (v : json) (d : dict) :
  assoc k (dict_set k v d) = Some v.
Proof.
  induction d as [|[k' v'] d IH]; simpl.
  - now rewrite String.eqb_refl.
  - destruct (String.eqb k k') eqn:E; simpl; rewrite E; [reflexivity|exact IH].
Qed.

Lemma assoc_dict_pop_other (k k' : string) (d : dict) :
  k <> k' -> assoc k (dict_pop k' d) = assoc k d.
Proof.
  intros NE. induction d as [|[k0 v0] d IH]; simpl; [reflexivity|].
  destruct (String.eqb_spec k' k0) as [->|NE0]; simpl.
  - destruct (String.eqb_spec k k0); [contradiction | exact IH].
  - now rewrite IH.
Qed.



(** ** Precedence of the sources of client_id *)

Definition client_id_sources (args : InitArgs) (w : World)
    : list (option string) :=
  [arg_client_id args; environ w !! EARTHONE_CLIENT_ID;
   environ w !! "CLIENT_ID"].

(** The other values whose presence selects the arguments and the
    environment over the cache file. *)
Definition other_sources (args : InitArgs) (w : World)
    : list (option string) :=
  [arg_refresh_token args; environ w !! EARTHONE_REFRESH_TOKEN;
   arg_client_secret args; environ w !! EARTHONE_CLIENT_SECRET;
   environ w !! "CLIENT_SECRET";
   arg_jwt_token args; environ w !! EARTHONE_TOKEN].

Fixpoint first_present (present : option string -> bool)
    (l : list (option string)) : option string :=
  match l with
  | [] => None
  | x :: l' => if present x then x else first_present present l'
  end.

(** Two readings of "present": not None, or a non-empty string. *)
Definition given (o : option string) : bool :=
  match o with
  | Some _ => true
  | None => false
  end.

Definition nonempty (o : option string) : bool :=
  match o with
  | Some s => negb (String.eqb s "")
  | None => false
  end.

(** The precedence as the specification words it, for a reading of
    "present": once anything is supplied through an argument or the
    environment, the resolved client_id is the first present one among the
    argument, EARTHONE_CLIENT_ID and CLIENT_ID, so that the cache file's
    client_id is used only when nothing is supplied. *)
Definition precedence_as_specified (present : option string -> bool) : Prop :=
  forall (args : InitArgs) (w w' : World) (a : Auth),
    __init__ args w = (Ok a, w') ->
    existsb present (client_id_sources args w ++ other_sources args w) = true ->
    client_id a = of_str (first_present present (client_id_sources args w)).

Lemma consult_cache_client_id (args : InitArgs) (s r1 : resolved)
    (w w' : World) :
  consult_cache args s w = (Ok r1, w') ->
  (truthy (r_client_id s) || truthy (r_refresh_token s) || truthy (r_token s)
   = true -> r_client_id r1 = r_client_id s)
  /\ (truthy (r_client_id s) || truthy (r_refresh_token s)
      || truthy (r_token s) = false ->
      match usable (r_path s) with
      | Some path =>
          exists token_info w1,
            _read_token_info path (arg_suppress_warning args) w
            = (Ok token_info, w1)
            /\ py_get token_info KEY_CLIENT_ID = Ok (r_client_id r1)
      | None => r_client_id r1 = r_client_id s
      end).
Proof.
  unfold consult_cache.
  destruct (truthy (r_client_id s) || truthy (r_refresh_token s)
            || truthy (r_token s)).
  - intros E. split; [intros _|discriminate]. revert E.
    destruct (usable (local_path args)) as [path|]; run.
    + unfold os_path_exists. run.
      destruct (bool_decide _); run;
        [|intros E; inversion E; reflexivity].
      destruct (_read_token_info path false w) as [[j|e] w1]; run;
        [|discriminate].
      destruct (truthy (r_token s)); run;
        [intros E; inversion E; reflexivity|].
      destruct (py_get j KEY_CLIENT_ID); run; [|discriminate].
      destruct (json_eqb _ _); run; [|intros E; inversion E; reflexivity].
      destruct (py_get j KEY_REFRESH_TOKEN); run; [|discriminate].
      destruct (json_eqb _ _); run; [|intros E; inversion E; reflexivity].
      destruct (py_get j KEY_JWT_TOKEN); run; [|discriminate].
      intros E; inversion E; reflexivity.
    + destruct (truthy (r_refresh_token s)); run;
        [|intros E; inversion E; reflexivity].
      destruct (usable (r_path s)); run;
        [|intros E; inversion E; reflexivity].
      destruct (r_refresh_token s); run; try discriminate.
      unfold str_encode. destruct (has_surrogate _); run; [discriminate|].
      destruct (truthy (r_token s)); run.
      * match goal with
        | |- context [_write_token_info ?p ?d w] =>
            destruct (_write_token_info p d w) as [[u|e] w1]
        end; run; [|discriminate].
        intros E; inversion E; reflexivity.
      * match goal with
        | |- context [_read_token_info ?p ?q w] =>
            destruct (_read_token_info p q w) as [[j|e] w1]
        end; run; [|discriminate].
        destruct (py_get j KEY_JWT_TOKEN); run; [|discriminate].
        intros E; inversion E; reflexivity.
  - intros E. split; [discriminate|intros _]. revert E.
    destruct (usable (r_path s)) as [path|]; run;
      [|intros E; inversion E; reflexivity].
    destruct (_read_token_info path (arg_suppress_warning args) w)
      as [[j|e] w1]; run; [|discriminate].
    destruct (py_get j KEY_CLIENT_ID) eqn:C; run; [|discriminate].
    destruct (py_get j KEY_CLIENT_SECRET); run; [|discriminate].
    destruct (py_get j KEY_REFRESH_TOKEN); run; [|discriminate].
    destruct (py_get j KEY_ALT_JWT_TOKEN); run; [|discriminate].
    destruct (py_get j KEY_JWT_TOKEN); run; [|discriminate].
    intros E; inversion E; subst. simpl. eauto.
Qed.

(** Where the resolved client_id comes from. *)
Lemma resolved_client_id (args : InitArgs) (w w3 : World) (a : Auth) :
  __init__ args w = (Ok a, w3) ->
  (truthy (r_client_id (supplied args w))
   || truthy (r_refresh_token (supplied args w))
   || truthy (r_token (supplied args w)) = true ->
   client_id a = r_client_id (supplied args w))
  /\ (truthy (r_client_id (supplied args w))
      || truthy (r_refresh_token (supplied args w))
      || truthy (r_token (supplied args w)) = false ->
      match usable (r_path (supplied args w)) with
      | Some path =>
          exists token_info w1,
            _read_token_info path (arg_suppress_warning args) w
            = (Ok token_info, w1)
            /\ py_get token_info KEY_CLIENT_ID = Ok (client_id a)
      | None => client_id a = r_client_id (supplied args w)
      end).
Proof.
  intros I.
  destruct (init_inv _ _ _ _ I) as (r & w1 & R & _ & ->).
  destruct (resolve_inv _ _ _ _ R) as (r1 & w' & C & _ & -> & _).
  exact (consult_cache_client_id _ _ _ _ _ C).
Qed.

(** C2, amended. The client_id supplied is the first of the argument,
    EARTHONE_CLIENT_ID and CLIENT_ID that is not None, an empty string
    included.  When the supplied client_id, the supplied refresh token (or
    else client secret) or the supplied token is non-empty, the resolved
    client_id is the supplied one; when all three are None or empty, the
    resolved client_id is what the cache file holds under client_id if a
    cache path is configured, and the supplied one otherwise. *)
Theorem C2_precedence_amended (args : InitArgs) (w w3 : World) (a : Auth) :
  __init__ args w = (Ok a, w3) ->
  r_client_id (supplied args w)
  = first_not_none (map of_str (client_id_sources args w))
  /\ (truthy (r_client_id (supplied args w))
      || truthy (r_refresh_token (supplied args w))
      || truthy (r_token (supplied args w)) = true ->
      client_id a = r_client_id (supplied args w))
  /\ (truthy (r_client_id (supplied args w))
      || truthy (r_refresh_token (supplied args w))
      || truthy (r_token (supplied args w)) = false ->
      match usable (r_path (supplied args w)) with
      | Some path =>
          exists token_info w1,
            _read_token_info path (arg_suppress_warning args) w
            = (Ok token_info, w1)
            /\ py_get token_info KEY_CLIENT_ID = Ok (client_id a)
      | None => client_id a = r_client_id (supplied args w)
      end).
Proof.
  intros I. split; [reflexivity|]. exact (resolved_client_id _ _ _ _ I).
Qed.

(** On inputs without empty strings both readings of "present" agree with
    the code, and the precedence holds as specified. *)
Definition no_empty_value (args : InitArgs) (w : World) : Prop :=
  Forall (fun o => o <> Some "")
    (client_id_sources args w ++ other_sources args w).

Lemma first_not_none_present (l : list (option string)) :
  first_not_none (map of_str l) = of_str (first_present given l).
Proof.
  induction l as [|[x|] l IH]; simpl; [reflexivity|reflexivity|exact IH].
Qed.

Lemma first_not_none_truthy (l : list (option string)) :
  Forall (fun o => o <> Some "") l ->
  truthy (first_not_none (map of_str l)) = existsb given l.
Proof.
  induction 1 as [|[x|] l NE F IH]; simpl; [reflexivity| |exact IH].
  apply negb_true_iff, String.eqb_neq. congruence.
Qed.

Lemma given_nonempty (l : list (option string)) :
  Forall (fun o => o <> Some "") l ->
  first_present nonempty l = first_present given l
  /\ existsb nonempty l = existsb given l.
Proof.
  induction 1 as [|[x|] l NE F [IH1 IH2]]; simpl; auto.
  assert (negb (String.eqb x "") = true) as ->; [|auto].
  apply negb_true_iff, String.eqb_neq. congruence.
Qed.

Lemma precedence_without_empty_values (args : InitArgs) (w w' : World)
    (a : Auth) (present : option string -> bool) :
  present = given \/ present = nonempty ->
  no_empty_value args w ->
  __init__ args w = (Ok a, w') ->
  existsb present (client_id_sources args w ++ other_sources args w) = true ->
  client_id a = of_str (first_present present (client_id_sources args w)).
Proof.
  intros Reading NE I Any.
  assert (first_present present (client_id_sources args w)
          = first_present given (client_id_sources args w)
          /\ existsb given (client_id_sources args w ++ other_sources args w)
             = true) as [-> Any'].
  { destruct Reading as [-> | ->]; [auto|].
    apply Forall_app in NE as NE'. destruct NE' as [NE1 _].
    split; [apply (given_nonempty _ NE1)|].
    now rewrite <- (proj2 (given_nonempty _ NE)). }
  clear Any Reading present.
  destruct (resolved_client_id _ _ _ _ I) as (Explicit & _).
  rewrite Explicit;
    [exact (first_not_none_present (client_id_sources args w))|].
  unfold no_empty_value, client_id_sources, other_sources in NE.
  simpl in NE.
  repeat match goal with
         | F : Forall _ (_ :: _) |- _ => inversion F; subst; clear F
         end.
  unfold client_id_sources, other_sources in Any'. simpl in Any'.
  unfold supplied. simpl.
  repeat match goal with
         | H : ?o <> Some "" |- _ =>
             destruct o as [[|? ?]|]; [congruence| |]; clear H
         end; simpl in *; try reflexivity; try discriminate;
    rewrite ?orb_true_r; reflexivity.
Qed.

End Properties.

(** * Scenarios *)

Definition answer (code : Z) (data : option json) : nat -> dict -> post_result :=
  fun _ _ => Responds {| status_code := code; text := ""; body := data |}.

(** The endpoint answers 200 with an object that holds no token. *)
Definition tokenless : nat -> dict -> post_result :=
  answer 200 (Some (JObj [])).

(** A world with the given files, environment, clock and endpoint, and an
    operating system that does not fail. *)
Definition world_of (fs : gmap string node) (env : gmap string string)
    (time : Q) (endpoint : nat -> dict -> post_result) : World :=
  {| tick := 0; files := fs; posted := []; warned := []; environ := env;
     home := "/home/user"; iam_url := "https://iam.example";
     clock := fun _ => time; os_fault := fun _ _ => None;
     mkstemp_name := fun _ => "k3x9w2ab"; http_post := endpoint;
     nt := false |}.

Definition with_faults (f : nat -> syscall -> option Z) (w : World) : World :=
  {| tick := tick w; files := files w; posted := posted w;
     warned := warned w; environ := environ w; home := home w;
     iam_url := iam_url w; clock := clock w; os_fault := f;
     mkstemp_name := mkstemp_name w; http_post := http_post w; nt := nt w |}.

Definition no_args : InitArgs :=
  {| arg_domain := None; arg_scope := JNull; arg_leeway := 500;
     arg_token_info_path := DefaultPath; arg_client_id := None;
     arg_client_secret := None; arg_jwt_token := None;
     arg_refresh_token := None; arg_suppress_warning := false |}.

Definition with_client_id (c : string) (x : InitArgs) : InitArgs :=
  {| arg_domain := arg_domain x; arg_scope := arg_scope x;
     arg_leeway := arg_leeway x;
     arg_token_info_path := arg_token_info_path x;
     arg_client_id := Some c; arg_client_secret := arg_client_secret x;
     arg_jwt_token := arg_jwt_token x;
     arg_refresh_token := arg_refresh_token x;
     arg_suppress_warning := arg_suppress_warning x |}.

Definition with_refresh_token (t : string) (x : InitArgs) : InitArgs :=
  {| arg_domain := arg_domain x; arg_scope := arg_scope x;
     arg_leeway := arg_leeway x;
     arg_token_info_path := arg_token_info_path x;
     arg_client_id := arg_client_id x;
     arg_client_secret := arg_client_secret x;
     arg_jwt_token := arg_jwt_token x; arg_refresh_token := Some t;
     arg_suppress_warning := arg_suppress_warning x |}.

Definition with_jwt_token (t : string) (x : InitArgs) : InitArgs :=
  {| arg_domain := arg_domain x; arg_scope := arg_scope x;
     arg_leeway := arg_leeway x;
     arg_token_info_path := arg_token_info_path x;
     arg_client_id := arg_client_id x;
     arg_client_secret := arg_client_secret x;
     arg_jwt_token := Some t; arg_refresh_token := arg_refresh_token x;
     arg_suppress_warning := arg_suppress_warning x |}.

(** header.base64url of the claims exp 10000, aud cid, then .sig *)
Definition token_10000 : string :=
  "header.eyJleHAiOjEwMDAwLCJhdWQiOiJjaWQifQ.sig".


(** The same with claims exp x, a string, and aud other. *)
Definition token_bad_exp : string :=
  "header.eyJleHAiOiJ4IiwiYXVkIjoib3RoZXIifQ.sig".

(** The [str] that holds U+D800 alone. *)
Definition lone_surrogate : string :=
  String (ascii_of_nat 237) (String (ascii_of_nat 160)
    (String (ascii_of_nat 128) "")).

Definition auth_holding (t : json) : Auth :=
  {| domain := "https://iam.example"; scope := JNull; leeway := 500;
     token_info_path := None; client_id := JStr "cid";
     client_secret := JStr "secret"; refresh_token := JStr "secret";
     _token := t; _namespace := JNull; _payload := None; _aas := None;
     _aasas := None; _aoas := None; _aoasas := None |}.

(** The Auth object that construction returns, and the world it leaves. *)
Definition built (args : InitArgs) (w : World) : Auth :=
  match __init__ args w with
  | (Ok a, _) => a
  | (Raise _, _) => auth_holding JNull
  end.

Definition world_after (args : InitArgs) (w : World) : World :=
  snd (__init__ args w).

(** A cache file of another account, at the default path. *)
Definition cache_of_x : gmap string node :=
  {[ "/home/user/.earthone/token_info.json" :=
       File 384 (Some (JObj [("client_id", JStr "X");
                             ("client_secret", JStr "s");
                             ("refresh_token", JStr "s")])) ]}.

(** EARTHONE_CLIENT_ID is set but empty, the legacy CLIENT_ID names abc,
    and the cache file names X. *)
Definition world_with_empty_id : World :=
  world_of cache_of_x {[ "EARTHONE_CLIENT_ID" := ""; "CLIENT_ID" := "abc" ]}
    9600 tokenless.

Definition world_quiet : World := world_of ∅ ∅ 9600 tokenless.

(** The session cannot reach the endpoint. *)
Definition world_offline : World :=
  world_of ∅ ∅ 9600 (fun _ _ => Fails (Foreign "ConnectionError")).

Definition world_issuing : World :=
  world_of {[ "/home/user/.earthone" := Dir 448 ]} ∅ 9600
    (answer 200 (Some (JObj [("access_token", JStr token_10000)]))).

(** The temporary file cannot be renamed or removed, as when another
    process holds it open. *)
Definition world_locked : World :=
  with_faults
    (fun _ c =>
       match c with
       | SysRename _ _ | SysRemove _ => Some Errno.EACCES
       | _ => None
       end)
    (world_of {[ "/home/user/.earthone" := Dir 448 ]} ∅ 9600
       tokenless).

Lemma init_built (args : InitArgs) (w : World) :
  (exists a, fst (__init__ args w) = Ok a) ->
  __init__ args w = (Ok (built args w), world_after args w).
Proof.
  unfold built, world_after. destruct (__init__ args w) as [[a|e] w'].
  - reflexivity.
  - intros [a E]. discriminate.
Qed.

(** What construction resolves there: the client_id of the cache file,
    although two environment variables supply one. *)
Example empty_variable_yields_to_cache :
  client_id (built no_args world_with_empty_id) = JStr "X".
Proof. vm_compute. reflexivity. Qed.

(** C2, as specified, fails under either reading of "present".  With
    EARTHONE_CLIENT_ID set to the empty string, CLIENT_ID set to abc and a
    cache file naming X, a client_id is supplied through the environment,
    yet the resolved client_id is the cache file's X: neither the empty
    string, first of those that are not None, nor abc, first of those that
    are non-empty. *)
Lemma C2_counterexample :
  ~ precedence_as_specified given /\ ~ precedence_as_specified nonempty.
Proof.
  assert (__init__ no_args world_with_empty_id
          = (Ok (built no_args world_with_empty_id),
             world_after no_args world_with_empty_id))
    as I by (apply init_built; eexists; vm_compute; reflexivity).
  split; intros Claim;
    pose proof (Claim _ _ _ _ I eq_refl) as C;
    vm_compute in C; discriminate.
Qed.

Lemma C2_precedence_witness :
  exists token_info w1,
    _read_token_info "/home/user/.earthone/token_info.json" false
      world_with_empty_id = (Ok token_info, w1)
    /\ py_get token_info KEY_CLIENT_ID
       = Ok (client_id (built no_args world_with_empty_id)).
Proof.
  assert (__init__ no_args world_with_empty_id
          = (Ok (built no_args world_with_empty_id),
             world_after no_args world_with_empty_id))
    as I by (apply init_built; eexists; vm_compute; reflexivity).
  exact (proj2 (proj2 (C2_precedence_amended _ _ _ _ I)) eq_refl).
Defined.

(** C5 at a failing input.  The rename of the temporary file fails, the
    handler warns, and the removal of the temporary file in the clean-up
    fails in turn: that error reaches the caller and the temporary file
    stays. *)
Theorem C5_cleanup_failure_escapes :
  exists w',
    _write_token_info "/home/user/.earthone/token_info.json"
      [("client_id", JStr "cid"); ("jwt_token", JStr "t")] world_locked
    = (Raise (OSError Errno.EACCES), w')
    /\ warned w' = ["Failed to save token"]
    /\ files w' !! "/home/user/.earthone/.token_info.json.k3x9w2ab"
       = Some (File 384 (Some (JObj [("client_id", JStr "cid");
                                     ("jwt_token", JStr "t")])))
    /\ files w' !! "/home/user/.earthone/token_info.json" = None.
Proof.
  eexists. split; [vm_compute; reflexivity|].
  split; [reflexivity|]. split; vm_compute; reflexivity.
Qed.

(** C1, as specified, fails.  Expiry at 10000, leeway 500, the clock at
    9600: the refresh is started, the session cannot reach the endpoint and
    raises an error of its own, and the accessor raises that error although
    the token has not expired. *)
Lemma C1_counterexample : ~ soft_degrade_as_specified.
Proof.
  intros Spec.
  pose proof (Spec (auth_holding (JStr token_10000))
                (fst (snd (_get_token (auth_holding (JStr token_10000),
                                       advance world_offline))))
                world_offline
                (snd (snd (_get_token (auth_holding (JStr token_10000),
                                       advance world_offline))))
                (JObj [("exp", JNum 10000); ("aud", JStr "cid")])
                (JNum 10000) 10000%Q (Foreign "ConnectionError")) as Served.
  assert (fst (token (auth_holding (JStr token_10000), world_offline))
          = Raise (Foreign "ConnectionError")) as Raised
    by (vm_compute; reflexivity).
  rewrite Served in Raised.
  - discriminate.
  - reflexivity.
  - vm_compute. reflexivity.
  - reflexivity.
  - reflexivity.
  - vm_compute. reflexivity.
  - vm_compute. reflexivity.
  - vm_compute. discriminate.
Qed.

(** Expiry at 10000, leeway 500, the clock at 9600, and a token endpoint
    that answers 200 without a token: the refresh fails with the
    token-exchange error and the accessor returns the token it held. *)
Lemma C1_soft_degrade_witness :
  token (auth_holding (JStr token_10000), world_quiet)
  = (Ok (JStr token_10000),
     (auth_holding (JStr token_10000),
      advance (snd (snd (_get_token (auth_holding (JStr token_10000),
                                     advance world_quiet)))))).
Proof.
  refine (proj1 (proj2 (proj1
            (C1_soft_degrade_amended (auth_holding (JStr token_10000))
               (auth_holding (JStr token_10000)) world_quiet
               (snd (snd (_get_token (auth_holding (JStr token_10000),
                                      advance world_quiet))))
               (JObj [("exp", JNum 10000); ("aud", JStr "cid")])
               (JNum 10000) 10000 OauthError _ _ _ _ _ _) _)) _).
  - reflexivity.
  - vm_compute. reflexivity.
  - reflexivity.
  - reflexivity.
  - vm_compute. reflexivity.
  - vm_compute. reflexivity.
  - reflexivity.
  - vm_compute. discriminate.
Defined.

Lemma C3_leeway_boundary_witness :
  exists b : bool,
    _token_expired (JObj [("exp", JNum 10099)]) 500 world_quiet
    = (Ok b, advance world_quiet)
    /\ b = true.
Proof.
  destruct (C3_leeway_boundary (JObj [("exp", JNum 10099)]) (JNum 10099)
              10099 500 world_quiet eq_refl eq_refl)
    as (b & E & _ & Below & _).
  exists b. split; [exact E|]. apply Below. vm_compute. reflexivity.
Defined.


Definition resolved_of (args : InitArgs) (w : World) : resolved :=
  match resolve args w with
  | (Ok r, _) => r
  | (Raise _, _) => supplied args w
  end.

(** C6, as specified, fails in two of its cases.  A token that has no
    UTF-8 encoding does not decode, and the error of [encode] leaves the
    constructor.  A token with the audience other, where the client_id is
    cid, and with a string for its exp claim is not discarded either: the
    expiry test, which comes first, raises [TypeError]. *)
Lemma C6_counterexample :
  ~ discards_undecodable /\ ~ discards_foreign_audience.
Proof.
  split; intros Spec.
  - destruct (Spec (with_jwt_token lone_surrogate
                      (with_client_id "cid" no_args))
                world_quiet
                (snd (resolve (with_jwt_token lone_surrogate
                                 (with_client_id "cid" no_args)) world_quiet))
                (resolved_of (with_jwt_token lone_surrogate
                                (with_client_id "cid" no_args)) world_quiet))
      as (a & w3 & I & _).
    + vm_compute. reflexivity.
    + vm_compute. reflexivity.
    + intros claims E. vm_compute in E. discriminate.
    + assert (fst (__init__ (with_jwt_token lone_surrogate
                               (with_client_id "cid" no_args)) world_quiet)
              = Raise UnicodeEncodeError) as Raised
        by (vm_compute; reflexivity).
      rewrite I in Raised. discriminate.
  - destruct (Spec (with_jwt_token token_bad_exp
                      (with_client_id "cid" no_args))
                world_quiet
                (snd (resolve (with_jwt_token token_bad_exp
                                 (with_client_id "cid" no_args)) world_quiet))
                (resolved_of (with_jwt_token token_bad_exp
                                (with_client_id "cid" no_args)) world_quiet)
                (JObj [("exp", JStr "x"); ("aud", JStr "other")])
                (JStr "other"))
      as (a & w3 & I & _).
    + vm_compute. reflexivity.
    + vm_compute. reflexivity.
    + vm_compute. reflexivity.
    + vm_compute. reflexivity.
    + vm_compute. reflexivity.
    + vm_compute. reflexivity.
    + assert (fst (__init__ (with_jwt_token token_bad_exp
                               (with_client_id "cid" no_args)) world_quiet)
              = Raise TypeError) as Raised by (vm_compute; reflexivity).
      rewrite I in Raised. discriminate.
Qed.

Lemma C6_construction_validation_witness :
  _token (built (with_jwt_token "garbage" (with_client_id "cid" no_args))
            world_quiet) = JNull.
Proof.
  destruct (C6_construction_validation_amended
              (with_jwt_token "garbage" (with_client_id "cid" no_args))
              world_quiet
              (snd (resolve (with_jwt_token "garbage"
                               (with_client_id "cid" no_args)) world_quiet))
              (resolved_of (with_jwt_token "garbage"
                              (with_client_id "cid" no_args)) world_quiet))
    as (a & w3 & I & Tok & _).
  - vm_compute. reflexivity.
  - vm_compute. reflexivity.
  - left. split.
    + intros s E. vm_compute in E. injection E as <-. vm_compute. reflexivity.
    + intros claims E. vm_compute in E. discriminate.
  - unfold built. rewrite I. exact Tok.
Defined.

(** header.base64url of the claims exp 10000.5, groups acme:device-admin
    and global-role, org acme, earthdaily__dl__userid u1. *)
Definition token_groups : string :=
  "header.eyJleHAiOjEwMDAwLjUsImdyb3VwcyI6WyJhY21lOmRldmljZS1hZG1pbiIsImdsb2JhbC1yb2xlIl0sIm9yZyI6ImFjbWUiLCJlYXJ0aGRhaWx5X19kbF9fdXNlcmlkIjoidTEifQ".

Definition world_early : World := world_of ∅ ∅ 100 tokenless.

Lemma C7_active_groups_witness :
  fst (_active_groups (auth_holding (JStr token_groups), world_early))
  = Ok ["acme:device-admin"; "global-role"].
Proof.
  destruct (C7_active_groups_filter
              (auth_holding (JStr token_groups), world_early)
              (snd (payload (auth_holding (JStr token_groups), world_early)))
              (JObj [("exp", JNum (20001 # 2));
                     ("groups", JArr [JStr "acme:device-admin";
                                      JStr "global-role"]);
                     ("org", JStr "acme"); ("userid", JStr "u1")])
              (JStr "acme") ["acme:device-admin"; "global-role"])
    as (yielded & E & F & _).
  - vm_compute. reflexivity.
  - reflexivity.
  - reflexivity.
  - rewrite E, F. vm_compute. reflexivity.
Defined.

Lemma C8_idempotent_access_witness :
  token (auth_holding (JStr token_10000), advance world_early)
  = (Ok (JStr token_10000),
     (auth_holding (JStr token_10000), advance (advance world_early))).
Proof.
  destruct (C8_idempotent_access (auth_holding (JStr token_10000))
              world_early
              (JObj [("exp", JNum 10000); ("aud", JStr "cid")])
              (JNum 10000) 10000)
    as (t & Tok & _ & Second & _).
  - reflexivity.
  - vm_compute. reflexivity.
  - reflexivity.
  - reflexivity.
  - vm_compute. discriminate.
  - vm_compute. discriminate.
  - rewrite Second. inversion Tok. reflexivity.
Defined.


(** C10, as specified, fails on a [str] that has no encoding: alone it has
    fewer than two segments, yet the error is the one of [encode]; and as
    the first of two segments it is looked at, the second one, which decodes
    to the empty object, notwithstanding. *)
Lemma C10_counterexample :
  ~ decoder_raises_as_specified /\ ~ decoder_accepts_as_specified.
Proof.
  split; intros Spec.
  - destruct (Spec lone_surrogate) as [_ Back].
    assert (_get_payload (JStr lone_surrogate) = Raise AuthError) as E.
    { apply Back. left. vm_compute. lia. }
    vm_compute in E. discriminate.
  - assert (_get_payload (JStr (lone_surrogate +:+ ".e30")) = Ok (JObj []))
      as E.
    { apply (Spec _ lone_surrogate "e30").
      - vm_compute. reflexivity.
      - eexists _, _. repeat split; vm_compute; reflexivity. }
    vm_compute in E. discriminate.
Qed.

Lemma C10_claims_decoder_witness :
  _get_payload (JStr "header.eyJhdWQiOiJjaWQifQ")
  = Ok (JObj [("aud", JStr "cid")]).
Proof.
  apply (proj2 (proj2 (proj2
           (C10_claims_decoder_amended "header.eyJhdWQiOiJjaWQifQ" eq_refl)))
           "header" "eyJhdWQiOiJjaWQifQ").
  - reflexivity.
  - eexists _, _. repeat split; vm_compute; reflexivity.
Defined.

(** The scenario of the specification for the derived cache file:
    constructed with the refresh token abc and no cache path, then asked
    for the token, the client posts one refresh request and leaves, under
    the name made of the SHA-1 of abc, a file that holds the new token
    alone. *)
Example derived_cache_after_refresh :
  let args := with_refresh_token "abc" (with_client_id "cid" no_args) in
  let '(r, (a, w)) :=
    token (built args world_issuing, world_after args world_issuing) in
  r = Ok (JStr token_10000)
  /\ posted w = [[("client_id", JStr "cid");
                  ("grant_type", JStr "refresh_token");
                  ("refresh_token", JStr "abc")]]
  /\ map_to_list (files w)
     = [("/home/user/.earthone/jwt_token_a9993e364706816aba3e25717850c26c9cd0d89d.json",
         File 384 (Some (JObj [("jwt_token", JStr token_10000)])));
        ("/home/user/.earthone", Dir 448)].
Proof. vm_compute. repeat split. Qed.

(** One second past the leeway boundary the token is served as it is. *)
Example leeway_boundary_above :
  fst (_token_expired (JObj [("exp", JNum 10101)]) 500 world_quiet) = Ok false.
Proof. vm_compute. reflexivity. Qed.

(** * Further properties *)

(** ** Reading the cache file *)

(** The handler of [_read_token_info]: the warning, unless suppressed, and
    the empty dict. *)
Lemma read_failed_run (path : string) (quiet : bool) (w w0 : World) :
  files w0 = files w -> posted w0 = posted w -> warned w0 = warned w ->
  exists w',
    (when (negb quiet) (warn ("Unable to read token_info from " +:+ path)) ;;;
     ret (JObj []))%py w0 = (Ok (JObj []), w')
    /\ files w' = files w /\ posted w' = posted w
    /\ (warned w' = warned w
        \/ quiet = false
           /\ warned w' = warned w ++ ["Unable to read token_info from " +:+ path]).
Proof.
  intros F P W. unfold warn. destruct quiet; run.
  - exists w0. repeat split; auto.
  - eexists. split; [reflexivity|]. simpl. rewrite W. repeat split; auto.
Qed.

(** What the callers of [_read_token_info] rely on. *)
Lemma read_token_info_run (path : string) (quiet : bool) (w : World) :
  exists j w',
    _read_token_info path quiet w = (Ok j, w')
    /\ files w' = files w /\ posted w' = posted w
    /\ (j = JObj [] \/ exists mode, files w !! path = Some (File mode (Some j))).
Proof.
  unfold _read_token_info, getenv. run.
  destruct (String.eqb _ "true").
  { exists (JObj []), w. repeat split; auto. }
  unfold try_except, read_json, sys.
  assert (forall w0 : World, files w0 = files w -> posted w0 = posted w ->
            warned w0 = warned w ->
            exists j w',
              (when (negb quiet) (warn ("Unable to read token_info from " +:+ path)) ;;;
               ret (JObj []))%py w0 = (Ok j, w')
              /\ files w' = files w /\ posted w' = posted w
              /\ (j = JObj []
                  \/ exists mode, files w !! path = Some (File mode (Some j))))
    as Handler.
  { intros w0 F P W.
    destruct (read_failed_run path quiet w w0 F P W) as (w' & E & F' & P' & _).
    exists (JObj []), w'. repeat split; auto. }
  destruct (os_fault w (tick w) (SysOpen path)).
  { apply Handler; reflexivity. }
  change (files (advance w)) with (files w).
  destruct (files w !! path) as [[m|m [j|]]|] eqn:L; try (apply Handler; reflexivity).
  exists j, (advance w). repeat split; eauto.
Qed.

(** X1. [_read_token_info] always returns: it never raises, it changes no
    file and sends no request.  What it returns is the JSON text of the
    file at [path], or the empty dict; and it warns, once, only when it
    returns the empty dict for a file it could not read and warnings are
    not suppressed. *)
Theorem X1_read_token_info_reads (path : string) (quiet : bool) (w : World) :
  exists j w',
    _read_token_info path quiet w = (Ok j, w')
    /\ files w' = files w /\ posted w' = posted w
    /\ (j = JObj [] \/ exists mode, files w !! path = Some (File mode (Some j)))
    /\ (warned w' = warned w
        \/ quiet = false /\ j = JObj []
           /\ warned w' = warned w ++ ["Unable to read token_info from " +:+ path]).
Proof.
  unfold _read_token_info, getenv. run.
  destruct (String.eqb _ "true").
  { exists (JObj []), w. repeat split; auto. }
  unfold try_except, read_json, sys.
  assert (forall w0 : World, files w0 = files w -> posted w0 = posted w ->
            warned w0 = warned w ->
            exists j w',
              (when (negb quiet) (warn ("Unable to read token_info from " +:+ path)) ;;;
               ret (JObj []))%py w0 = (Ok j, w')
              /\ files w' = files w /\ posted w' = posted w
              /\ (j = JObj []
                  \/ exists mode, files w !! path = Some (File mode (Some j)))
              /\ (warned w' = warned w
                  \/ quiet = false /\ j = JObj []
                     /\ warned w' = warned w
                                    ++ ["Unable to read token_info from " +:+ path]))
    as Handler.
  { intros w0 F P W.
    destruct (read_failed_run path quiet w w0 F P W) as (w' & E & F' & P' & Wn).
    exists (JObj []), w'. repeat split; auto.
    destruct Wn as [Wn | [Q Wn]]; [now left | right; auto]. }
  destruct (os_fault w (tick w) (SysOpen path)).
  { apply Handler; reflexivity. }
  change (files (advance w)) with (files w).
  destruct (files w !! path) as [[m|m [j|]]|] eqn:L; try (apply Handler; reflexivity).
  exists j, (advance w). repeat split; eauto.
Qed.

(** ** Names of temporary files *)

Lemma length_app (a b : string) :
  String.length (a +:+ b) = (String.length a + String.length b)%nat.
Proof. induction a as [|c a IH]; simpl; [reflexivity | now rewrite IH]. Qed.

Lemma split_last_slash_app (p h t : string) :
  split_last_slash p = Some (h, t) -> p = h +:+ t.
Proof.
  revert h t. induction p as [|c p IH]; simpl; [discriminate|].
  intros h t. destruct (split_last_slash p) as [[h' t']|].
  - intros E. inversion E; subst. simpl. now rewrite (IH h' t).
  - destruct (Ascii.eqb_spec c "/"); [|discriminate].
    intros E. inversion E; subst. reflexivity.
Qed.

Lemma rstrip_slash_app (h : string) :
  exists s, h = rstrip_slash h +:+ s /\ all_slashes s = true.
Proof.
  induction h as [|c h (s & E & A)]; simpl; [now exists ""|].
  destruct (rstrip_slash h) as [|c' r] eqn:R.
  - simpl in E. subst h. destruct (Ascii.eqb_spec c "/") as [->|NE].
    + exists (String "/" s). split; [reflexivity|]. simpl. exact A.
    + exists s. split; [reflexivity | exact A].
  - exists s. split; [|exact A].
    change (String c h = String c (String c' r +:+ s)). now rewrite <- E.
Qed.

Ltac by_length E :=
  apply (f_equal String.length) in E; repeat rewrite length_app in E;
  simpl in E; lia.

Lemma temp_name_not_path (path n : string) :
  path_join (dirname path) (("." +:+ basename path +:+ ".") +:+ n) <> path.
Proof.
  unfold path_join, dirname, basename.
  destruct (split_last_slash path) as [[h t]|] eqn:S.
  - apply split_last_slash_app in S. subst path.
    assert (startswith (("." +:+ t +:+ ".") +:+ n) "/" = false) as ->
      by reflexivity.
    destruct (all_slashes h) eqn:A.
    + destruct (_ || _); intros E; by_length E.
    + destruct (rstrip_slash_app h) as (s & E & As).
      set (d := rstrip_slash h) in *. clearbody d. subst h.
      destruct (_ || _); intros E; rewrite (append_assoc d s t) in E;
        apply String.app_inj in E.
      * destruct s as [|c s]; [by_length E|].
        simpl in As. apply andb_prop in As as [C _].
        apply Ascii.eqb_eq in C. subst c.
        cbv [append] in E. discriminate E.
      * destruct s as [|c [|c' s]]; [by_length E | by_length E |].
        simpl in As. apply andb_prop in As as [_ As].
        apply andb_prop in As as [C _].
        apply Ascii.eqb_eq in C. subst c'.
        cbv [append] in E. discriminate E.
  - assert (startswith (("." +:+ path +:+ ".") +:+ n) "/" = false) as ->
      by reflexivity.
    simpl. intros E. by_length E.
Qed.

(** ** A write that meets no fault *)

Definition no_faults (w : World) : Prop := forall n c, os_fault w n c = None.

(** What [_write_token_info] puts in the file: the whole payload, or its
    token alone when the path has the derived form. *)
Definition stored_form (path : string) (token_info : dict) : option dict :=
  if py_in JWT_TOKEN_PREFIX path
  then option_map (fun v => [(KEY_JWT_TOKEN, v)])
         (assoc KEY_JWT_TOKEN token_info)
  else Some token_info.

Lemma sys_runs {A} (c : syscall) (act : M World A) (w : World) :
  os_fault w (tick w) c = None -> sys c act w = act (advance w).
Proof. unfold sys. now intros ->. Qed.

Lemma no_faults_os_only (w w' : World) :
  os_only w w' -> no_faults w -> no_faults w'.
Proof. unfold os_only, no_faults. intros -> N n c. apply N. Qed.

(** The temporary file of a write to [path]. *)
Definition temp_of (path : string) (w : World) (n : nat) : string :=
  path_join (dirname path)
    (("." +:+ basename path +:+ ".") +:+ mkstemp_name w n).

Lemma bind_ok {S A B} (m : M S A) (k : A -> M S B) (s s' : S) (a : A) :
  m s = (Ok a, s') -> bind m k s = k a s'.
Proof. unfold bind. now intros ->. Qed.

Lemma write_json_runs (p : string) (j : json) (w : World) (m : Z)
    (c : option json) :
  os_fault w (tick w) (SysWrite p) = None ->
  files w !! p = Some (File m c) ->
  write_json p j w
  = (Ok tt, with_files (<[p := File m (Some j)]> (files w)) (advance w)).
Proof.
  intros NF L. unfold write_json. rewrite sys_runs by exact NF.
  change (files (advance w)) with (files w). now rewrite L.
Qed.

Lemma os_chmod_runs (p : string) (mode : Z) (w : World) (m : Z)
    (c : option json) :
  os_fault w (tick w) (SysChmod p mode) = None ->
  files w !! p = Some (File m c) ->
  os_chmod p mode w
  = (Ok tt, with_files (<[p := File mode c]> (files w)) (advance w)).
Proof.
  intros NF L. unfold os_chmod. rewrite sys_runs by exact NF.
  change (files (advance w)) with (files w). now rewrite L.
Qed.

(** The rename, with the removal that a refusing [os.rename] calls for. *)
Lemma rename_into_place (tp path : string) (l : wlocals) (w : World)
    (n : node) :
  no_faults w ->
  tp <> path ->
  files w !! tp = Some n ->
  (forall m, files w !! path <> Some (Dir m)) ->
  exists w',
    try_except (in_world (os_rename tp path)) isinstance_FileExistsError
      (fun _ => (in_world (os_remove path) ;;;
                 in_world (os_rename tp path))%py) (l, w)
    = (Ok tt, (l, w'))
    /\ os_only w w'
    /\ files w' = <[path := n]> (delete tp (files w)).
Proof.
  intros NF NE Ltp ND.
  unfold try_except, in_world, os_rename. simpl.
  rewrite (sys_runs _ _ w) by apply NF.
  change (files (advance w)) with (files w). rewrite Ltp.
  destruct (files w !! path) as [[m|m c']|] eqn:Lp.
  - destruct (ND m eq_refl).
  - change (nt (advance w)) with (nt w). destruct (nt w).
    + simpl. unfold bind, os_remove. simpl.
      rewrite (sys_runs _ _ (advance w)) by apply NF.
      change (files (advance (advance w))) with (files w).
      rewrite Lp.
      rewrite sys_runs by apply NF. simpl.
      rewrite lookup_delete_ne by congruence. rewrite Ltp.
      rewrite lookup_delete_eq.
      eexists. split; [reflexivity|]. split; [reflexivity|].
      simpl. rewrite delete_delete. now rewrite insert_delete_eq.
    + eexists. split; [reflexivity|]. split; reflexivity.
  - eexists. split; [reflexivity|]. split; reflexivity.
Qed.

Lemma publish_succeeds (path : string) (token_info d : dict) (tp : string)
    (l : wlocals) (w : World) (c : option json) :
  no_faults w ->
  tp <> path ->
  files w !! tp = Some (File 384 c) ->
  (forall m, files w !! path <> Some (Dir m)) ->
  stored_form path token_info = Some d ->
  exists l' w',
    publish tp path token_info (l, w) = (Ok tt, (l', w'))
    /\ fd l' = None /\ temp_path l' = temp_path l
    /\ os_only w w'
    /\ files w' = <[path := File 384 (Some (JObj d))]> (delete tp (files w)).
Proof.
  intros NF NE L ND St. unfold publish, stored_form in *.
  set (l1 := if py_in JWT_TOKEN_PREFIX path
             then {| fd := fd l; temp_path := temp_path l;
                     suppress_warning := true |}
             else l).
  set (l2 := {| fd := None; temp_path := temp_path l1;
                suppress_warning := suppress_warning l1 |}).
  set (content := File 384 (Some (JObj d))).
  set (w1 := with_files (<[tp := content]> (files w)) (advance w)).
  set (w2 := with_files (<[tp := content]> (files w1)) (advance w1)).
  rewrite (bind_ok _ _ (l, w) (l1, w) d).
  2: { unfold l1. destruct (py_in JWT_TOKEN_PREFIX path).
       - destruct (assoc KEY_JWT_TOKEN token_info) as [v|]; [|discriminate].
         inversion St; subst d. reflexivity.
       - inversion St; subst d. reflexivity. }
  rewrite (bind_ok _ _ (l1, w) (l2, w1) tt).
  2: { unfold try_finally, in_world, set_local, modify. simpl.
       rewrite (write_json_runs tp _ w 384 c) by (apply NF || exact L).
       reflexivity. }
  rewrite (bind_ok _ _ (l2, w1) (l2, w2) tt).
  2: { unfold in_world. simpl.
       rewrite (os_chmod_runs tp _ w1 384 (Some (JObj d)));
         [reflexivity | apply NF | apply lookup_insert_eq]. }
  destruct (rename_into_place tp path l2 w2 content) as (w' & Rn & O & F).
  - intros n c0. apply NF.
  - exact NE.
  - apply lookup_insert_eq.
  - intros m. simpl. rewrite !lookup_insert_ne by exact NE. apply ND.
  - exists l2, w'. split; [exact Rn|]. split; [reflexivity|].
    split; [unfold l2, l1; destruct (py_in _ _); reflexivity|].
    split.
    + eapply os_only_trans; [|exact O]. reflexivity.
    + rewrite F. simpl. now rewrite !delete_insert_eq.
Qed.

Lemma makedirs_if_exists (path : string) (w : World) :
  is_Some (files w !! path) -> makedirs_if_not_exists path w = (Ok tt, w).
Proof.
  intros Ex. unfold makedirs_if_not_exists, os_path_exists, bind, gets.
  now rewrite bool_decide_eq_true_2.
Qed.

Lemma mkstemp_runs (prefix dir : string) (w : World) (m : Z) :
  os_fault w (tick w) (SysMkstemp dir prefix) = None ->
  files w !! dir = Some (Dir m) ->
  files w !! path_join dir (prefix +:+ mkstemp_name w (tick w)) = None ->
  mkstemp prefix dir w
  = (Ok (path_join dir (prefix +:+ mkstemp_name w (tick w))),
     with_files (<[path_join dir (prefix +:+ mkstemp_name w (tick w))
                   := File 384 None]> (files w)) (advance w)).
Proof.
  intros NF D Free. unfold mkstemp. rewrite sys_runs by exact NF.
  change (files (advance w)) with (files w). now rewrite D, Free.
Qed.

Lemma write_token_info_succeeds (path : string) (token_info d : dict)
    (w : World) (m : Z) :
  no_faults w ->
  files w !! dirname path = Some (Dir m) ->
  (forall m', files w !! path <> Some (Dir m')) ->
  files w !! temp_of path w (tick w) = None ->
  stored_form path token_info = Some d ->
  exists w',
    _write_token_info path token_info w = (Ok tt, w')
    /\ os_only w w'
    /\ files w' = <[path := File 384 (Some (JObj d))]> (files w).
Proof.
  intros NF D ND Free St.
  set (tp := temp_of path w (tick w)) in *.
  assert (tp <> path) as NE by apply temp_name_not_path.
  set (l0 := {| fd := Some tp; temp_path := Some tp;
                suppress_warning := false |}).
  set (w0 := with_files (<[tp := File 384 None]> (files w)) (advance w)).
  destruct (publish_succeeds path token_info d tp l0 w0 None)
    as (l' & w1 & Pub & Fd & Tp & O & F).
  { intros n c. apply NF. }
  { exact NE. }
  { apply lookup_insert_eq. }
  { intros m'. simpl. rewrite lookup_insert_ne by exact NE. apply ND. }
  { exact St. }
  assert (files w1 = <[path := File 384 (Some (JObj d))]> (files w)) as F1.
  { rewrite F. simpl. now rewrite delete_insert_id. }
  assert (write_attempt path token_info (initial_locals, w)
          = (Ok tt, (l', w1))) as A.
  { unfold write_attempt.
    rewrite (bind_ok _ _ (initial_locals, w) (initial_locals, w) tt).
    2: { unfold in_world. simpl. rewrite makedirs_if_exists; [reflexivity|].
         rewrite D. eauto. }
    rewrite (bind_ok _ _ (initial_locals, w) (initial_locals, w0) tp).
    2: { unfold in_world. simpl.
         rewrite (mkstemp_runs _ _ w m); [reflexivity | apply NF | exact D|].
         exact Free. }
    rewrite (bind_ok _ _ (initial_locals, w0) (l0, w0) tt) by reflexivity.
    exact Pub. }
  exists w1. split; [|split; [|exact F1]].
  - unfold _write_token_info, try_finally, try_except. rewrite A.
    unfold write_cleanup, close_descriptor, remove_temp. run.
    rewrite Fd. run. rewrite Tp. simpl. unfold os_path_exists. run.
    rewrite bool_decide_eq_false_2; [reflexivity|].
    rewrite F1, lookup_insert_ne by congruence.
    fold tp. rewrite Free. intros [x E]. discriminate.
  - eapply os_only_trans; [|exact O]. reflexivity.
Qed.

Lemma read_json_runs (p : string) (j : json) (w : World) (m : Z) :
  os_fault w (tick w) (SysOpen p) = None ->
  files w !! p = Some (File m (Some j)) ->
  read_json p w = (Ok j, advance w).
Proof.
  intros NF L. unfold read_json. rewrite sys_runs by exact NF.
  change (files (advance w)) with (files w). now rewrite L.
Qed.

(** X2. Round trip through the cache file.  When no call into the operating
    system fails, the directory of [path] exists, [path] is not a directory
    and the name of the temporary file is free, [_write_token_info] returns
    without a warning and leaves under [path] a file of mode 0o600 that
    holds the payload (its jwt_token alone when the path has the derived
    form), every other file being as before; [_read_token_info] then
    returns that payload, again without a warning, unless the cache is
    switched off. *)
Theorem X2_write_then_read (path : string) (token_info d : dict) (w : World)
    (m : Z) (quiet : bool) :
  no_faults w ->
  files w !! dirname path = Some (Dir m) ->
  (forall m', files w !! path <> Some (Dir m')) ->
  files w !! temp_of path w (tick w) = None ->
  stored_form path token_info = Some d ->
  lower (default "" (environ w !! "EARTHONE_NO_JWT_CACHE")) <> "true" ->
  exists w' w'',
    _write_token_info path token_info w = (Ok tt, w')
    /\ warned w' = warned w
    /\ files w' = <[path := File 384 (Some (JObj d))]> (files w)
    /\ _read_token_info path quiet w' = (Ok (JObj d), w'')
    /\ warned w'' = warned w
    /\ files w'' = files w'.
Proof.
  intros NF D ND Free St On.
  destruct (write_token_info_succeeds path token_info d w m NF D ND Free St)
    as (w' & W & O & F).
  assert (warned w' = warned w /\ environ w' = environ w) as [Wn Env]
    by (unfold os_only in O; rewrite O; split; reflexivity).
  exists w', (advance w'). split; [exact W|]. split; [exact Wn|].
  split; [exact F|]. split; [|split; [exact Wn | reflexivity]].
  unfold _read_token_info, getenv. run. rewrite Env.
  apply String.eqb_neq in On. rewrite On.
  unfold try_except.
  rewrite (read_json_runs path (JObj d) w' 384); [reflexivity| |].
  - apply (no_faults_os_only _ _ O NF).
  - rewrite F. apply lookup_insert_eq.
Qed.

Definition world_with_dir : World :=
  world_of {[ "/home/user/.earthone" := Dir 448 ]} ∅ 9600 tokenless.

Lemma X2_write_then_read_witness :
  exists w' w'',
    _write_token_info "/home/user/.earthone/token_info.json"
      [("client_id", JStr "cid"); ("jwt_token", JStr "t")] world_with_dir
    = (Ok tt, w')
    /\ _read_token_info "/home/user/.earthone/token_info.json" false w'
       = (Ok (JObj [("client_id", JStr "cid"); ("jwt_token", JStr "t")]), w'').
Proof.
  destruct (X2_write_then_read "/home/user/.earthone/token_info.json"
              [("client_id", JStr "cid"); ("jwt_token", JStr "t")]
              [("client_id", JStr "cid"); ("jwt_token", JStr "t")]
              world_with_dir 448 false)
    as (w' & w'' & W & _ & _ & R & _).
  - intros n c. reflexivity.
  - vm_compute. reflexivity.
  - intros m' E. vm_compute in E. discriminate.
  - vm_compute. reflexivity.
  - reflexivity.
  - vm_compute. discriminate.
  - exists w', w''. split; assumption.
Defined.

(** X3. A cache path without a directory part is never saved:
    [os.path.dirname] gives the empty string, which does not exist and
    which [os.makedirs] refuses, so [_write_token_info] warns and returns,
    having written nothing. *)
Theorem X3_bare_file_name_not_saved (path : string) (token_info : dict)
    (w : World) :
  dirname path = "" ->
  files w !! "" = None ->
  os_fault w (tick w) (SysMakedirs "") = None ->
  _write_token_info path token_info w
  = (Ok tt, with_warned (warned w ++ ["Failed to save token"]) (advance w)).
Proof.
  intros D Free NF.
  assert (makedirs_if_not_exists "" w
          = (Raise (OSError Errno.ENOENT), advance w)) as Mk.
  { unfold makedirs_if_not_exists, os_path_exists, bind, gets, try_except.
    rewrite bool_decide_eq_false_2
      by (rewrite Free; intros [x E]; discriminate).
    unfold os_makedirs. rewrite sys_runs by exact NF. reflexivity. }
  unfold _write_token_info, try_finally, try_except, write_attempt.
  rewrite D. unfold bind at 1. unfold in_world at 1. simpl. rewrite Mk.
  reflexivity.
Qed.

Lemma X3_bare_file_name_not_saved_witness :
  _write_token_info "token_info.json" [("jwt_token", JStr "t")] world_quiet
  = (Ok tt, with_warned (warned world_quiet ++ ["Failed to save token"])
              (advance world_quiet)).
Proof.
  apply X3_bare_file_name_not_saved; reflexivity.
Defined.

(** ** Every outcome of a write *)























(** X5. [makedirs_if_not_exists] does nothing when the path exists; the
    only errors it lets out are those of the operating system other than
    "file exists"; and when nothing fails it leaves a directory of mode
    0o700 under a path that did not exist. *)
Theorem X5_makedirs_if_not_exists_outcome (path : string) (w : World)
    (r : res unit) (w' : World) :
  makedirs_if_not_exists path w = (r, w') ->
  (is_Some (files w !! path) -> r = Ok tt /\ w' = w)
  /\ (forall e, r = Raise e -> exists n, e = OSError n /\ n <> Errno.EEXIST)
  /\ (files w !! path = None -> path <> "" -> no_faults w ->
      r = Ok tt /\ files w' = <[path := Dir 448]> (files w)).
Proof.
  intros Run. split; [|split].
  - intros Ex. rewrite (makedirs_if_exists _ _ Ex) in Run.
    now inversion Run.
  - revert Run. unfold makedirs_if_not_exists. unfold bind at 1.
    unfold os_path_exists, gets.
    destruct (bool_decide _); [intros E e ->; discriminate|].
    unfold try_except.
    assert (keeps (os_step (fun _ => False)) os_error
              (os_makedirs path ;;; os_chmod path S_IRWXU)%py) as K.
    { apply keeps_bind;
        [apply os_step_trans | apply keeps_os_makedirs
        | intros _; apply keeps_os_chmod]. }
    destruct ((os_makedirs path ;;; os_chmod path S_IRWXU)%py w)
      as [[[]|e0] w1] eqn:Body.
    { intros E e ->. discriminate. }
    pose proof (proj2 (K _ _ _ Body) e0 eq_refl) as Os.
    destruct e0; try discriminate Os. simpl.
    destruct (Z.eqb_spec errno Errno.EEXIST) as [Ee|Ee]; run.
    + intros E e' ->. discriminate.
    + intros E e' ->. inversion E; subst. eauto.
  - intros Free NE NF. revert Run.
    unfold makedirs_if_not_exists, os_path_exists, bind, gets, try_except.
    rewrite bool_decide_eq_false_2
      by (rewrite Free; intros [x E]; discriminate).
    unfold os_makedirs, os_chmod. rewrite sys_runs by apply NF.
    change (files (advance w)) with (files w). rewrite Free.
    apply String.eqb_neq in NE. rewrite NE.
    rewrite sys_runs by apply NF. simpl. rewrite lookup_insert_eq.
    intros E. inversion E; subst. split; [reflexivity|]. simpl.
    apply insert_insert_eq.
Qed.

Lemma X5_makedirs_if_not_exists_outcome_witness :
  fst (makedirs_if_not_exists "/home/user/.earthone" world_quiet) = Ok tt
  /\ files (snd (makedirs_if_not_exists "/home/user/.earthone" world_quiet))
     = <[ "/home/user/.earthone" := Dir 448 ]> (files world_quiet).
Proof.
  apply (X5_makedirs_if_not_exists_outcome "/home/user/.earthone" world_quiet
           _ _ (surjective_pairing _)).
  - reflexivity.
  - discriminate.
  - intros n c. reflexivity.
Defined.

Section Refresh.
Context `{PyLib}.

(** X6. Without a client_id, or with neither a client secret nor a refresh
    token, a refresh raises the credential error before anything is sent
    or changed; so does an access to the token of an Auth object that
    holds none. *)
Theorem X6_get_token_needs_credentials (a : Auth) (w : World) :
  is_none (client_id a) = true
  \/ (is_none (client_secret a) = true /\ is_none (refresh_token a) = true) ->
  _get_token (a, w) = (Raise AuthError, (a, w))
  /\ (_token a = JNull -> token (a, w) = (Raise AuthError, (a, w))).
Proof.
  intros Missing.
  assert (_get_token (a, w) = (Raise AuthError, (a, w))) as G.
  { unfold _get_token. run.
    destruct Missing as [-> | [-> ->]]; [reflexivity|].
    destruct (is_none (client_id a)); reflexivity. }
  split; [exact G|]. intros T. rewrite (token_absent a w T). now rewrite G.
Qed.


(** X7. When the session hands back a response whose status is not 200,
    the refresh raises the token-exchange error; exactly one request has
    been sent, and the Auth object, the files and the warnings are as
    before.  An answer that the session does not hand back, raising an
    error of its own instead, is no such response. *)
Theorem X7_get_token_rejected (a : Auth) (w : World) (params : dict)
    (r : response) :
  is_none (client_id a) = false ->
  is_none (client_secret a) && is_none (refresh_token a) = false ->
  token_params a = Ok params ->
  http_post w (tick w) params = Responds r ->
  status_code r <> 200 ->
  _get_token (a, w)
  = (Raise OauthError, (a, with_posted (posted w ++ [params]) (advance w))).
Proof.
  intros C S P R St. unfold _get_token. run. rewrite C, S. run.
  rewrite P. run. unfold session_post. rewrite R. run.
  apply Z.eqb_neq in St. rewrite St. reflexivity.
Qed.

(** X8. When the endpoint answers 200 with a JSON object, the token
    installed is its access_token, or its id_token when the access_token is
    missing or null; the payload, subject and namespace caches are cleared;
    this is done before the cache file is touched, so whatever the saving
    of the token does, the object holds the new token, and an error of the
    saving is never a credential or token-exchange error.  Without a cache
    path nothing is read or written. *)
Theorem X8_get_token_installs (a : Auth) (w : World) (params : dict)
    (r : response) (data access id : json) :
  is_none (client_id a) = false ->
  is_none (client_secret a) && is_none (refresh_token a) = false ->
  token_params a = Ok params ->
  http_post w (tick w) params = Responds r ->
  status_code r = 200 ->
  body r = Some data ->
  py_get data "access_token" = Ok access ->
  py_get data "id_token" = Ok id ->
  is_none (first_not_none [access; id]) = false ->
  exists res w',
    _get_token (a, w)
    = (res, (_clear_cache (set_token (first_not_none [access; id]) a), w'))
    /\ (forall e, res = Raise e -> isinstance_AuthError e = false)
    /\ (usable (token_info_path a) = None ->
        res = Ok tt /\ w' = with_posted (posted w ++ [params]) (advance w)).
Proof.
  intros C S P R St B Ac Id Got. unfold _get_token. run. rewrite C, S. run.
  rewrite P. run. unfold session_post. rewrite R. run.
  rewrite St, B. run. rewrite Ac, Id. run.
  set (w1 := with_posted (posted w ++ [params]) (advance w)).
  assert (forall t,
            exists res w',
              persist_token (_clear_cache (set_token t a), w1)
              = (res, (_clear_cache (set_token t a), w'))
              /\ (forall e, res = Raise e -> isinstance_AuthError e = false)
              /\ (usable (token_info_path a) = None ->
                  res = Ok tt /\ w' = w1)) as Tail.
  { intros t.
    destruct (persist_token (_clear_cache (set_token t a), w1))
      as [res [a' w']] eqn:Pt.
    destruct (persist_token_outcome _ _ _ Pt) as [Same NA]. simpl in Same.
    subst a'. exists res, w'. split; [reflexivity|]. split; [exact NA|].
    intros U. revert Pt. unfold persist_token. run. rewrite U. run.
    intros E. inversion E; subst. split; reflexivity. }
  simpl in Got.
  destruct (is_none access); simpl; [|apply Tail].
  destruct (is_none id); [discriminate|]. simpl. apply Tail.
Qed.

(** X9. The refresh that the accessor starts for a token within its leeway
    is softened only for credential and token-exchange errors: when the
    session itself raises another error, the accessor raises it, whether
    or not the held token has truly expired. *)
Theorem X9_refresh_failure_not_softened (a : Auth) (w : World)
    (claims exp : json) (e : Q) (params : dict) (err : exn) :
  is_none (_token a) = false ->
  _get_payload (_token a) = Ok claims ->
  py_get claims "exp" = Ok exp -> as_number exp = Some e ->
  (clock w (tick w) + leeway a > e)%Q ->
  is_none (client_id a) = false ->
  is_none (client_secret a) && is_none (refresh_token a) = false ->
  token_params a = Ok params ->
  http_post w (S (tick w)) params = Fails err ->
  isinstance_AuthError err = false ->
  token (a, w)
  = (Raise err,
     (a, with_posted (posted w ++ [params]) (advance (advance w)))).
Proof.
  intros N D G Num Near C S P F Kind.
  rewrite (token_expiring a w (advance w) claims N D).
  2: { rewrite (token_expired_numeric claims exp e _ w G Num).
       apply later_than_iff in Near. now rewrite Near. }
  assert (_get_token (a, advance w)
          = (Raise err,
             (a, with_posted (posted w ++ [params]) (advance (advance w)))))
    as ->.
  { unfold _get_token. run. rewrite C, S. run. rewrite P. run.
    unfold session_post. simpl. rewrite F. reflexivity. }
  unfold settle. now rewrite Kind.
Qed.

(** X10. What a successful refresh leaves in a cache file that is not of
    the derived form, when nothing fails: if the file names the client_id
    and client_secret of the object, its other entries are kept, the new
    token is stored under jwt_token and the entry JWT_TOKEN is dropped;
    otherwise the file is replaced by the client_id, client_secret,
    refresh_token and jwt_token of the object. *)
Theorem X10_refresh_updates_cache (a : Auth) (w : World) (params : dict)
    (r : response) (data access id : json) (path : string) (stored : dict)
    (mode m : Z) :
  no_faults w ->
  is_none (client_id a) = false ->
  is_none (client_secret a) && is_none (refresh_token a) = false ->
  token_params a = Ok params ->
  http_post w (tick w) params = Responds r ->
  status_code r = 200 ->
  body r = Some data ->
  py_get data "access_token" = Ok access ->
  py_get data "id_token" = Ok id ->
  is_none (first_not_none [access; id]) = false ->
  usable (token_info_path a) = Some path ->
  py_in JWT_TOKEN_PREFIX path = false ->
  files w !! path = Some (File mode (Some (JObj stored))) ->
  files w !! dirname path = Some (Dir m) ->
  files w !! temp_of path w (S (S (tick w))) = None ->
  lower (default "" (environ w !! "EARTHONE_NO_JWT_CACHE")) <> "true" ->
  exists w',
    _get_token (a, w)
    = (Ok tt, (_clear_cache (set_token (first_not_none [access; id]) a), w'))
    /\ warned w' = warned w
    /\ files w'
       = <[path := File 384 (Some (JObj
            (dict_pop KEY_ALT_JWT_TOKEN
               (dict_set KEY_JWT_TOKEN (first_not_none [access; id])
                  (if json_eqb (default JNull (assoc KEY_CLIENT_ID stored))
                        (client_id a)
                      && json_eqb
                           (default JNull (assoc KEY_CLIENT_SECRET stored))
                           (client_secret a)
                   then stored
                   else [(KEY_CLIENT_ID, client_id a);
                         (KEY_CLIENT_SECRET, client_secret a);
                         (KEY_REFRESH_TOKEN, refresh_token a)])))))]>
           (files w).
Proof.
  intros NF C S P R St B Ac Id Got U Prim L D Free On.
  unfold _get_token. run. rewrite C, S. run.
  rewrite P. run. unfold session_post. rewrite R. run.
  rewrite St, B. run. rewrite Ac, Id. run.
  set (w1 := with_posted (posted w ++ [params]) (advance w)).
  assert (forall t,
            exists w',
              persist_token (_clear_cache (set_token t a), w1)
              = (Ok tt, (_clear_cache (set_token t a), w'))
              /\ warned w' = warned w
              /\ files w'
                 = <[path := File 384 (Some (JObj
                      (dict_pop KEY_ALT_JWT_TOKEN
                         (dict_set KEY_JWT_TOKEN t
                            (if json_eqb
                                  (default JNull (assoc KEY_CLIENT_ID stored))
                                  (client_id a)
                                && json_eqb
                                     (default JNull
                                        (assoc KEY_CLIENT_SECRET stored))
                                     (client_secret a)
                             then stored
                             else [(KEY_CLIENT_ID, client_id a);
                                   (KEY_CLIENT_SECRET, client_secret a);
                                   (KEY_REFRESH_TOKEN, refresh_token a)])))))]>
                     (files w)) as Tail.
  { intros t. unfold persist_token. run. rewrite U. run.
    assert (_read_token_info path true w1 = (Ok (JObj stored), advance w1))
      as ->.
    { unfold _read_token_info, getenv. run.
      apply String.eqb_neq in On. rewrite On. unfold try_except.
      rewrite (read_json_runs path (JObj stored) w1 mode);
        [reflexivity | apply NF | exact L]. }
    run.
    match goal with
    | |- context [_write_token_info path ?d (advance w1)] =>
        destruct (write_token_info_succeeds path d d (advance w1) m)
          as (w' & W & O & F)
    end.
    { intros n c. apply NF. }
    { exact D. }
    { intros m' E. simpl in E. congruence. }
    { exact Free. }
    { unfold stored_form. now rewrite Prim. }
    rewrite W. exists w'. split; [reflexivity|]. split.
    - unfold os_only in O. now rewrite O.
    - rewrite F. simpl.
      destruct (json_eqb (default JNull (assoc KEY_CLIENT_ID stored))
                  (client_id a));
        destruct (json_eqb (default JNull (assoc KEY_CLIENT_SECRET stored))
                    (client_secret a)); reflexivity. }
  simpl in Got.
  destruct (is_none access); simpl; [|apply Tail].
  destruct (is_none id); [discriminate|]. simpl. apply Tail.
Qed.

End Refresh.

(** ** Construction *)

Section ConstructionFrame.
Context `{PyLib}.
Variable R : World -> World -> Prop.
Hypothesis R_refl : forall w, R w w.
Hypothesis R_trans : forall w1 w2 w3, R w1 w2 -> R w2 w3 -> R w1 w3.
Hypothesis R_warn :
  forall w msg, R w (with_warned (warned w ++ [msg]) w).
Hypothesis R_advance : forall w, R w (advance w).

Let E : exn -> Prop := fun _ => True.

Lemma keeps_warn_any (msg : string) : keeps R E (warn msg).
Proof.
  intros w r w' Eq. inversion Eq; subst. split; [apply R_warn | discriminate].
Qed.

Lemma keeps_now_any : keeps R E now.
Proof.
  intros w r w' Eq. inversion Eq; subst. split; [apply R_advance | discriminate].
Qed.

Lemma keeps_token_expired_any (claims : json) (lw : Q) :
  keeps R E (_token_expired claims lw).
Proof.
  unfold _token_expired.
  apply keeps_bind; [exact R_trans | now apply keeps_lift_res | intros exp].
  destruct (is_none exp); [now apply keeps_ret|].
  apply keeps_bind; [exact R_trans | apply keeps_now_any | intros t].
  destruct (as_number exp); [now apply keeps_ret | now apply keeps_raise].
Qed.

Lemma keeps_validate_token_any (cid tok : json) :
  keeps R E (validate_token cid tok).
Proof.
  unfold validate_token. destruct (truthy tok); [|now apply keeps_ret].
  destruct (_get_payload tok) as [claims|e].
  - apply keeps_bind;
      [exact R_trans | apply keeps_token_expired_any | intros expired].
    destruct expired; [now apply keeps_ret|].
    destruct (truthy cid); [|now apply keeps_ret].
    apply keeps_bind; [exact R_trans | now apply keeps_lift_res | intros aud].
    destruct (negb _); now apply keeps_ret.
  - destruct (isinstance_AuthError e);
      [now apply keeps_ret | now apply keeps_raise].
Qed.

Lemma keeps_reconcile_any (r : resolved) : keeps R E (reconcile r).
Proof.
  unfold reconcile.
  apply keeps_bind; [exact R_trans | | intros _; now apply keeps_ret].
  apply keeps_when; [exact R_refl | apply keeps_warn_any].
Qed.

Lemma keeps_resolve_scope_any (r : resolved) : keeps R E (resolve_scope r).
Proof.
  unfold resolve_scope.
  apply keeps_bind; [exact R_trans | now apply keeps_lift_res | intros s].
  now apply keeps_ret.
Qed.

Lemma keeps_from_args_or_environ_any (args : InitArgs) :
  keeps R E (from_args_or_environ args).
Proof.
  intros w r w' Eq. rewrite from_args_or_environ_run in Eq.
  inversion Eq; subst. split; [apply R_refl | discriminate].
Qed.

(** Construction keeps what reading and writing the cache keep. *)
Lemma keeps_init_any (args : InitArgs) :
  (forall r, keeps R E (consult_cache args r)) ->
  keeps R E (__init__ args).
Proof.
  intros Cache. unfold __init__, resolve.
  apply keeps_bind; [exact R_trans | | intros r].
  { apply keeps_bind;
      [exact R_trans | apply keeps_from_args_or_environ_any | intros r0].
    apply keeps_bind; [exact R_trans | apply Cache | intros r1].
    apply keeps_bind;
      [exact R_trans | apply keeps_reconcile_any | intros r2].
    apply keeps_resolve_scope_any. }
  apply keeps_bind;
    [exact R_trans | apply keeps_validate_token_any | intros tok].
  apply keeps_bind; [exact R_trans | | intros _].
  { apply keeps_when; [exact R_refl | apply keeps_warn_any]. }
  apply keeps_bind; [exact R_trans | now apply keeps_gets | intros d].
  now apply keeps_ret.
Qed.

(** The same from one world on: what the arguments and the environment
    supply there is all that the cache has to be consulted for. *)
Lemma init_from (args : InitArgs) (w w' : World) (x : res Auth) :
  keeps R E (consult_cache args (supplied args w)) ->
  __init__ args w = (x, w') ->
  R w w'.
Proof.
  intros Cache I. unfold __init__, resolve in I.
  unfold bind at 1 2 in I. rewrite from_args_or_environ_run in I.
  revert I.
  match goal with
  | |- (let (_, _) := ?m w in _) = _ -> _ =>
      destruct (m w) as [y w1] eqn:Res;
      assert (keeps R E m) as K
  end.
  { apply keeps_bind; [exact R_trans | exact Cache | intros r1].
    apply keeps_bind;
      [exact R_trans | apply keeps_reconcile_any | intros r2].
    apply keeps_resolve_scope_any. }
  destruct (K _ _ _ Res) as [R1 _]. destruct y as [r|e].
  2: { intros I. inversion I; subst. exact R1. }
  match goal with
  | |- ?m w1 = _ -> _ => assert (keeps R E m) as K'
  end.
  { apply keeps_bind;
      [exact R_trans | apply keeps_validate_token_any | intros tok].
    apply keeps_bind; [exact R_trans | | intros _].
    { apply keeps_when; [exact R_refl | apply keeps_warn_any]. }
    apply keeps_bind; [exact R_trans | now apply keeps_gets | intros d].
    now apply keeps_ret. }
  intros I. destruct (K' _ _ _ I) as [R2 _]. eapply R_trans; eassumption.
Qed.

Lemma keeps_consult_cache_any (args : InitArgs) (r : resolved) :
  (forall path quiet, keeps R E (_read_token_info path quiet)) ->
  (usable (local_path args) = None ->
   forall path,
     keeps R E (_write_token_info path [(KEY_JWT_TOKEN, r_token r)])) ->
  keeps R E (consult_cache args r).
Proof.
  intros Read Write. unfold consult_cache.
  destruct (_ || _).
  - destruct (usable (local_path args)) as [path|].
    + apply keeps_bind; [exact R_trans | now apply keeps_gets | intros ex].
      destruct ex; [|now apply keeps_ret].
      apply keeps_bind; [exact R_trans | apply Read | intros token_info].
      destruct (truthy (r_token r)); [now apply keeps_ret|].
      apply keeps_bind;
        [exact R_trans | now apply keeps_lift_res | intros cid].
      destruct (json_eqb _ _); [|now apply keeps_ret].
      apply keeps_bind;
        [exact R_trans | now apply keeps_lift_res | intros rt].
      destruct (json_eqb _ _); [|now apply keeps_ret].
      apply keeps_bind;
        [exact R_trans | now apply keeps_lift_res | intros jwt].
      now apply keeps_ret.
    + destruct (truthy (r_refresh_token r)); [|now apply keeps_ret].
      destruct (usable (r_path r)); [|now apply keeps_ret].
      destruct (r_refresh_token r) as [| | |token| |] eqn:Rt;
        try now apply keeps_raise.
      apply keeps_bind;
        [exact R_trans | now apply keeps_lift_res | intros secret].
      apply keeps_bind; [exact R_trans | now apply keeps_gets | intros path].
      destruct (truthy (r_token r)).
      * apply keeps_bind; [exact R_trans | now apply Write | intros _].
        now apply keeps_ret.
      * apply keeps_bind; [exact R_trans | apply Read | intros token_info].
        apply keeps_bind;
          [exact R_trans | now apply keeps_lift_res | intros jwt].
        now apply keeps_ret.
  - destruct (usable (r_path r)) as [path|]; [|now apply keeps_ret].
    apply keeps_bind; [exact R_trans | apply Read | intros token_info].
    repeat (apply keeps_bind;
              [exact R_trans | now apply keeps_lift_res | intros ?]).
    now apply keeps_ret.
Qed.

End ConstructionFrame.

Lemma only_wrote_mono (P Q : json -> Prop) (f f' : gmap string node) :
  (forall c, P c -> Q c) -> only_wrote P f f' -> only_wrote Q f f'.
Proof.
  intros PQ F q mode c L. destruct (F q mode c L); [now left | right; auto].
Qed.

Definition same_files (w w' : World) : Prop :=
  files w' = files w /\ posted w' = posted w.

Lemma keeps_read_same_files (path : string) (quiet : bool) :
  keeps same_files (fun _ => True) (_read_token_info path quiet).
Proof.
  intros w r w' Eq.
  destruct (read_token_info_run path quiet w) as (j & w1 & E & F & P & _).
  rewrite E in Eq. inversion Eq; subst. split; [now split | auto].
Qed.

Section Construction.
Context `{PyLib}.

(** X11. Construction never contacts the token endpoint, and the only text
    it ever writes to a file is the payload that holds, under jwt_token and
    nothing else, the token that the argument or EARTHONE_TOKEN supplies:
    the client_id, the client secret and the refresh token are no part of
    what it writes. *)
Theorem X11_init_offline (args : InitArgs) (w : World) (r : res Auth)
    (w' : World) :
  __init__ args w = (r, w') ->
  posted w' = posted w
  /\ only_wrote
       (fun c => c = JObj [(KEY_JWT_TOKEN, r_token (supplied args w))])
       (files w) (files w').
Proof.
  intros I.
  set (P := fun c => c = JObj [(KEY_JWT_TOKEN, r_token (supplied args w))]).
  assert (offline P w w') as (Po & _ & F); [|now split].
  apply (init_from (offline P)) with (args := args) (x := r); [| | | | |exact I].
  - apply offline_refl.
  - apply offline_trans.
  - intros w0 msg. split; [reflexivity | split; [reflexivity|]].
    apply only_wrote_refl.
  - intros w0. split; [reflexivity | split; [reflexivity|]].
    apply only_wrote_refl.
  - apply keeps_consult_cache_any.
    + apply offline_refl.
    + apply offline_trans.
    + intros path quiet.
      apply keeps_weaken with (E1 := never);
        [intros e [] | apply keeps_read_token_info].
    + intros _ path.
      apply keeps_weaken with (E1 := os_error); [auto|].
      eapply keeps_relax; [|apply keeps_write_token_info].
      intros w1 w2 (P1 & O & F). split; [exact P1 | split; [exact O|]].
      eapply only_wrote_mono; [|exact F].
      intros c. unfold written_form, P.
      destruct (py_in _ _); [|auto].
      intros (v & A & ->). simpl in A. unfold KEY_JWT_TOKEN in A. simpl in A.
      now inversion A.
Qed.


(** X12. With an explicit cache path, construction reads the cache but
    never writes a file. *)
Theorem X12_init_explicit_path_reads_only (args : InitArgs) (w : World)
    (p : string) (r : res Auth) (w' : World) :
  arg_token_info_path args = GivenPath (Some p) -> p <> "" ->
  __init__ args w = (r, w') ->
  files w' = files w.
Proof.
  intros Given NE I.
  assert (usable (local_path args) = Some p) as U.
  { unfold local_path. rewrite Given. simpl.
    apply String.eqb_neq in NE. now rewrite NE. }
  assert (keeps same_files (fun _ => True) (__init__ args)) as K.
  { apply keeps_init_any.
    - now split.
    - intros w1 w2 w3 [F1 P1] [F2 P2]. split; congruence.
    - now split.
    - now split.
    - intros r0. apply keeps_consult_cache_any.
      + now split.
      + intros w1 w2 w3 [F1 P1] [F2 P2]. split; congruence.
      + apply keeps_read_same_files.
      + rewrite U. discriminate. }
  exact (proj1 (proj1 (K _ _ _ I))).
Qed.

End Construction.

(** ** Computations that do not look at the files *)

Definition blind {A} (m : M World A) : Prop :=
  forall f w, m (with_files f w) = (fst (m w), with_files f (snd (m w))).

Lemma blind_ret {A} (a : A) : blind (ret a).
Proof. intros f w. reflexivity. Qed.

Lemma blind_raise {A} (e : exn) : blind (@raise World A e).
Proof. intros f w. reflexivity. Qed.

Lemma blind_lift_res {A} (x : res A) : blind (lift_res x).
Proof. intros f w. reflexivity. Qed.

Lemma blind_bind {A B} (m : M World A) (k : A -> M World B) :
  blind m -> (forall a, blind (k a)) -> blind (bind m k).
Proof.
  intros Hm Hk f w. unfold bind. rewrite Hm.
  destruct (m w) as [[a|e] w1]; simpl; [apply Hk | reflexivity].
Qed.

Lemma blind_when (b : bool) (m : M World unit) : blind m -> blind (when b m).
Proof. intros Hm. destruct b; [exact Hm | apply blind_ret]. Qed.

Lemma blind_warn (msg : string) : blind (warn msg).
Proof. intros f w. reflexivity. Qed.

Lemma blind_now : blind now.
Proof. intros f w. reflexivity. Qed.

Section Blind.
Context `{PyLib}.

Lemma blind_token_expired (claims : json) (lw : Q) :
  blind (_token_expired claims lw).
Proof.
  unfold _token_expired.
  apply blind_bind; [apply blind_lift_res | intros exp].
  destruct (is_none exp); [apply blind_ret|].
  apply blind_bind; [apply blind_now | intros t].
  destruct (as_number exp); [apply blind_ret | apply blind_raise].
Qed.

Lemma blind_validate_token (cid tok : json) : blind (validate_token cid tok).
Proof.
  unfold validate_token. destruct (truthy tok); [|apply blind_ret].
  destruct (_get_payload tok) as [claims|e].
  - apply blind_bind; [apply blind_token_expired | intros expired].
    destruct expired; [apply blind_ret|].
    destruct (truthy cid); [|apply blind_ret].
    apply blind_bind; [apply blind_lift_res | intros aud].
    destruct (negb _); apply blind_ret.
  - destruct (isinstance_AuthError e); [apply blind_ret | apply blind_raise].
Qed.

Lemma consult_cache_without_path (args : InitArgs) (r : resolved) :
  arg_token_info_path args = GivenPath None -> r_path r = None ->
  consult_cache args r = ret r.
Proof.
  intros Given Pth. unfold consult_cache, local_path.
  rewrite Given, Pth. simpl.
  destruct (_ || _); [|reflexivity].
  destruct (truthy (r_refresh_token r)); reflexivity.
Qed.

(** X13. With [token_info_path=None], construction never looks at a file:
    it leaves the files as they are, and it returns the same object and
    emits the same warnings whatever the files hold. *)
Theorem X13_init_without_cache_path (args : InitArgs) (w : World)
    (f : gmap string node) :
  arg_token_info_path args = GivenPath None ->
  files (snd (__init__ args w)) = files w
  /\ __init__ args (with_files f w)
     = (fst (__init__ args w), with_files f (snd (__init__ args w))).
Proof.
  intros Given.
  assert (forall w0, resolve args w0
          = (r <- reconcile (supplied args w0) ;; resolve_scope r)%py w0)
    as Res.
  { intros w0. unfold resolve. unfold bind at 1.
    rewrite from_args_or_environ_run. unfold bind at 1.
    rewrite consult_cache_without_path;
      [reflexivity | exact Given | unfold supplied; now rewrite Given]. }
  assert (blind (__init__ args)) as B.
  { unfold __init__.
    apply blind_bind.
    - intros f0 w0. rewrite !Res.
      change (supplied args (with_files f0 w0)) with (supplied args w0).
      generalize (supplied args w0). intros s. revert f0 w0.
      change (blind (r <- reconcile s ;; resolve_scope r)%py).
      apply blind_bind.
      + unfold reconcile.
        apply blind_bind; [|intros _; apply blind_ret].
        apply blind_when, blind_warn.
      + intros r. unfold resolve_scope.
        apply blind_bind; [apply blind_lift_res | intros x; apply blind_ret].
    - intros r.
      apply blind_bind; [apply blind_validate_token | intros tok].
      apply blind_bind; [apply blind_when, blind_warn | intros _].
      apply blind_bind; [|intros d; apply blind_ret].
      intros f0 w0. reflexivity. }
  split; [|apply B].
  pose proof (B (files w) w) as E.
  assert (with_files (files w) w = w) as Id by (now destruct w).
  rewrite Id in E.
  destruct (__init__ args w) as [r w'] eqn:I. simpl in *.
  inversion E as [Ew]. rewrite Ew at 1. reflexivity.
Qed.

End Blind.

Section Resolution.
Context `{PyLib}.

Lemma init_fields (args : InitArgs) (w w3 : World) (a : Auth) :
  __init__ args w = (Ok a, w3) ->
  exists r w1 tok w2,
    resolve args w = (Ok r, w1)
    /\ validate_token (r_client_id r) (r_token r) w1 = (Ok tok, w2)
    /\ _token a = tok
    /\ client_id a = r_client_id r
    /\ client_secret a = r_client_secret r
    /\ refresh_token a = r_refresh_token r
    /\ token_info_path a = r_path r
    /\ scope a = r_scope r.
Proof.
  unfold __init__. run.
  destruct (resolve args w) as [[r|e] w1] eqn:R; run; [|discriminate].
  destruct (validate_token (r_client_id r) (r_token r) w1) as [[tok|e] w2]
    eqn:V; run; [|discriminate].
  unfold warn.
  match goal with
  | |- context [if ?c then _ else _] => destruct c
  end; run; intros E; injection E as Ea Ew; subst a; simpl;
    exists r, w1, tok, w2; repeat split; assumption.
Qed.

Lemma resolve_fields (args : InitArgs) (w w1 : World) (r : resolved) :
  resolve args w = (Ok r, w1) ->
  exists r1 w',
    consult_cache args (supplied args w) w = (Ok r1, w')
    /\ r_client_id r = r_client_id r1
    /\ r_token r = r_token r1
    /\ r_client_secret r
       = (if truthy (r_refresh_token r1) then r_refresh_token r1
          else r_client_secret r1)
    /\ r_refresh_token r
       = (if truthy (r_refresh_token r1) then r_refresh_token r1
          else if truthy (r_client_secret r1) then r_client_secret r1
               else r_refresh_token r1).
Proof.
  unfold resolve. run. rewrite from_args_or_environ_run. run.
  destruct (consult_cache args (supplied args w) w) as [[r1|e] w'] eqn:C;
    run; [|discriminate].
  unfold reconcile, resolve_scope, warn. run.
  match goal with
  | |- context [if ?c then _ else _] => destruct c
  end; run;
    (destruct (py_get (r_token_info r1) KEY_SCOPE); run; [|discriminate]);
    intros E; injection E as Er Ew; subst r; simpl; exists r1, w';
    repeat split; reflexivity.
Qed.

Lemma validate_token_cases (cid tok t : json) (w w' : World) :
  validate_token cid tok w = (Ok t, w') -> t = tok \/ t = JNull.
Proof.
  unfold validate_token. destruct (truthy tok); run.
  2: { intros E; inversion E; auto. }
  destruct (_get_payload tok) as [claims|e].
  - run. destruct (_token_expired claims 0 w) as [[[]|e] w1]; run;
      try discriminate.
    + intros E; inversion E; auto.
    + destruct (truthy cid); run; [|intros E; inversion E; auto].
      destruct (py_get claims "aud"); run; [|discriminate].
      destruct (negb _); run; intros E; inversion E; auto.
  - destruct (isinstance_AuthError e); run; [|discriminate].
    intros E; inversion E; auto.
Qed.

Lemma consult_cache_provided (args : InitArgs) (s r1 : resolved)
    (w w' : World) :
  truthy (r_client_id s) || truthy (r_refresh_token s) || truthy (r_token s)
  = true ->
  consult_cache args s w = (Ok r1, w') ->
  r_client_secret r1 = r_client_secret s
  /\ r_refresh_token r1 = r_refresh_token s
  /\ (forall p,
        usable (local_path args) = Some p -> truthy (r_token s) = false ->
        r_token r1 = r_token s
        \/ exists j w1 cid rt,
             _read_token_info p false w = (Ok j, w1)
             /\ py_get j KEY_CLIENT_ID = Ok cid
             /\ json_eqb (r_client_id s) cid = true
             /\ py_get j KEY_REFRESH_TOKEN = Ok rt
             /\ json_eqb (r_refresh_token s) rt = true
             /\ py_get j KEY_JWT_TOKEN = Ok (r_token r1)).
Proof.
  intros Prov. unfold consult_cache. rewrite Prov.
  assert (forall (x : resolved) (w0 : World),
            r_client_secret x = r_client_secret s ->
            r_refresh_token x = r_refresh_token s ->
            (usable (local_path args) = None \/ truthy (r_token s) = true
             \/ r_token x = r_token s) ->
            (Ok x, w0) = (Ok r1, w') ->
            r_client_secret r1 = r_client_secret s
            /\ r_refresh_token r1 = r_refresh_token s
            /\ (forall p,
                  usable (local_path args) = Some p ->
                  truthy (r_token s) = false ->
                  r_token r1 = r_token s
                  \/ exists j w1 cid rt,
                       _read_token_info p false w = (Ok j, w1)
                       /\ py_get j KEY_CLIENT_ID = Ok cid
                       /\ json_eqb (r_client_id s) cid = true
                       /\ py_get j KEY_REFRESH_TOKEN = Ok rt
                       /\ json_eqb (r_refresh_token s) rt = true
                       /\ py_get j KEY_JWT_TOKEN = Ok (r_token r1))) as Plain.
  { intros x w0 Cs Rt Tk E. injection E as Ex Ew. subst x.
    split; [exact Cs|]. split; [exact Rt|]. intros p U T.
    destruct Tk as [N | [T' | Same]]; [congruence | congruence | now left]. }
  destruct (usable (local_path args)) as [path|] eqn:U; run.
  - unfold os_path_exists. run.
    destruct (bool_decide _); run; [|apply Plain; auto].
    destruct (_read_token_info path false w) as [[j|e] w1] eqn:Rd; run;
      [|discriminate].
    destruct (truthy (r_token s)) eqn:T; run; [apply Plain; auto|].
    destruct (py_get j KEY_CLIENT_ID) as [cid|] eqn:C; run; [|discriminate].
    destruct (json_eqb (r_client_id s) cid) eqn:E1; run;
      [|apply Plain; auto].
    destruct (py_get j KEY_REFRESH_TOKEN) as [rt|] eqn:Rf; run;
      [|discriminate].
    destruct (json_eqb (r_refresh_token s) rt) eqn:E2; run;
      [|apply Plain; auto].
    destruct (py_get j KEY_JWT_TOKEN) as [jwt|] eqn:J; run; [|discriminate].
    intros E. injection E as Er Ew. subst r1. simpl.
    split; [reflexivity|]. split; [reflexivity|].
    intros p Ep _. injection Ep as Ep. subst p. right.
    exists j, w1, cid, rt. repeat split; assumption.
  - destruct (truthy (r_refresh_token s)); run; [|apply Plain; auto].
    destruct (usable (r_path s)); run; [|apply Plain; auto].
    destruct (r_refresh_token s) eqn:Rt; run; try discriminate.
    unfold str_encode. destruct (has_surrogate _); run; [discriminate|].
    destruct (truthy (r_token s)); run.
    + match goal with
      | |- context [_write_token_info ?p ?d w] =>
          destruct (_write_token_info p d w) as [[u|e] w1]
      end; run; [|discriminate].
      apply Plain; auto.
    + match goal with
      | |- context [_read_token_info ?p ?q w] =>
          destruct (_read_token_info p q w) as [[j|e] w1]
      end; run; [|discriminate].
      destruct (py_get j KEY_JWT_TOKEN); run; [|discriminate].
      apply Plain; auto.
Qed.

(** X14. After construction the client secret and the refresh token are
    one value whenever either is non-empty; and a non-empty refresh token
    given by argument or environment is that value, whatever client secret
    was supplied with it. *)
Theorem X14_init_unifies_secrets (args : InitArgs) (w : World) (a : Auth)
    (w' : World) :
  __init__ args w = (Ok a, w') ->
  (truthy (client_secret a) || truthy (refresh_token a) = true ->
   client_secret a = refresh_token a)
  /\ (forall s,
        first_not_none [of_str (arg_refresh_token args);
                        of_str (environ w !! EARTHONE_REFRESH_TOKEN)]
        = JStr s ->
        s <> "" ->
        refresh_token a = JStr s /\ client_secret a = JStr s).
Proof.
  intros I.
  destruct (init_fields _ _ _ _ I)
    as (r & w1 & tok & w2 & R & _ & _ & _ & Cs & Rt & _).
  destruct (resolve_fields _ _ _ _ R) as (r1 & w0 & C & _ & _ & Es & Er).
  rewrite Cs, Rt, Es, Er. split.
  - destruct (truthy (r_refresh_token r1)) eqn:T1; [reflexivity|].
    destruct (truthy (r_client_secret r1)) eqn:T2; [reflexivity|].
    rewrite T1. discriminate.
  - intros s Sup NE.
    assert (r_refresh_token (supplied args w) = JStr s) as Rs.
    { unfold supplied. cbn [r_refresh_token]. rewrite Sup. simpl.
      apply String.eqb_neq in NE. now rewrite NE. }
    assert (truthy (JStr s) = true) as Ts
      by (simpl; apply String.eqb_neq in NE; now rewrite NE).
    destruct (consult_cache_provided _ _ _ _ _ ltac:(rewrite Rs, Ts; apply orb_true_iff; left; apply orb_true_r) C)
      as (_ & Rr & _).
    rewrite Rr, Rs, Ts. now split.
Qed.

(** X15. With an explicit cache path and credentials but no token given by
    argument or environment, the token that construction ends up with, if
    any, is the jwt_token of a cache file whose client_id and refresh_token
    equal the supplied ones: a cached token of other credentials is never
    adopted. *)
Theorem X15_init_adopts_matching_cache (args : InitArgs) (w : World)
    (p : string) (a : Auth) (w' : World) :
  arg_token_info_path args = GivenPath (Some p) -> p <> "" ->
  truthy (r_token (supplied args w)) = false ->
  truthy (r_client_id (supplied args w))
  || truthy (r_refresh_token (supplied args w)) = true ->
  __init__ args w = (Ok a, w') ->
  truthy (_token a) = true ->
  exists mode stored,
    files w !! p = Some (File mode (Some (JObj stored)))
    /\ json_eqb (r_client_id (supplied args w))
         (default JNull (assoc KEY_CLIENT_ID stored)) = true
    /\ json_eqb (r_refresh_token (supplied args w))
         (default JNull (assoc KEY_REFRESH_TOKEN stored)) = true
    /\ _token a = default JNull (assoc KEY_JWT_TOKEN stored).
Proof.
  intros Given NE NoTok Cred I Held.
  assert (usable (local_path args) = Some p) as U.
  { unfold local_path. rewrite Given. simpl.
    apply String.eqb_neq in NE. now rewrite NE. }
  destruct (init_fields _ _ _ _ I)
    as (r & w1 & tok & w2 & R & V & Tk & _).
  destruct (resolve_fields _ _ _ _ R) as (r1 & w0 & C & _ & Et & _).
  assert (_token a = r_token r1) as Tok.
  { rewrite Tk. rewrite <- Et.
    destruct (validate_token_cases _ _ _ _ _ V) as [-> | E]; [reflexivity|].
    rewrite Tk, E in Held. discriminate. }
  destruct (consult_cache_provided _ _ _ _ _
              ltac:(rewrite Cred; reflexivity) C) as (_ & _ & Origin).
  destruct (Origin p U NoTok) as [Same | (j & w3 & cid & rt & Rd & Gc & Ec & Gr & Er & Gj)].
  { rewrite Tok, Same, NoTok in Held. discriminate. }
  destruct (read_token_info_run p false w) as (j' & w4 & Rd' & _ & _ & Src).
  rewrite Rd in Rd'. inversion Rd'; subst j' w4.
  destruct Src as [-> | [mode L]].
  { simpl in Gj. inversion Gj as [Ej]. rewrite Tok, <- Ej in Held.
    discriminate. }
  destruct j as [| | | | |stored]; try discriminate Gc.
  simpl in Gc, Gr, Gj. inversion Gc; inversion Gr; inversion Gj; subst.
  exists mode, stored. repeat split; try assumption.
  now rewrite Tok.
Qed.

(** X16. The cache switch.  With EARTHONE_NO_JWT_CACHE set to "true" in
    any letter case and nothing supplied by argument or environment,
    construction takes nothing from the cache file, whatever it holds: the
    object has no client_id, secret or token, no file is opened, and the
    only effect is the warning that no authentication info was found,
    unless suppressed. *)
Theorem X16_init_cache_switched_off (args : InitArgs) (w : World)
    (v path : string) :
  environ w !! "EARTHONE_NO_JWT_CACHE" = Some v -> lower v = "true" ->
  truthy (r_client_id (supplied args w))
  || truthy (r_refresh_token (supplied args w))
  || truthy (r_token (supplied args w)) = false ->
  usable (r_path (supplied args w)) = Some path ->
  exists a,
    __init__ args w
    = (Ok a, if arg_suppress_warning args then w
             else with_warned (warned w ++ [AUTHORIZATION_ERROR]) w)
    /\ client_id a = JNull /\ client_secret a = JNull
    /\ refresh_token a = JNull /\ _token a = JNull.
Proof.
  intros Env Low None Pth.
  assert (forall q, _read_token_info path q w = (Ok (JObj []), w)) as Rd.
  { intros q. unfold _read_token_info, getenv. run. rewrite Env. simpl.
    rewrite Low. reflexivity. }
  unfold __init__, resolve. run. rewrite from_args_or_environ_run. run.
  unfold consult_cache. rewrite None, Pth. run. rewrite Rd. run.
  unfold reconcile, resolve_scope, validate_token, warn. run.
  destruct (arg_suppress_warning args); run; eexists; repeat split.
Qed.

End Resolution.

(** ** Renaming the custom claims *)

Definition custom (k : string) : bool :=
  startswith k EARTHONE_CUSTOM_CLAIM_PREFIX.

Definition uncustom (k : string) : string :=
  drop_str (String.length EARTHONE_CUSTOM_CLAIM_PREFIX) k.

Lemma drop_prefix (p s : string) : drop_str (String.length p) (p +:+ s) = s.
Proof. induction p as [|c p IH]; simpl; [now destruct s | exact IH]. Qed.

Lemma prefix_drop (p s : string) :
  String.prefix p s = true -> p +:+ drop_str (String.length p) s = s.
Proof.
  revert s. induction p as [|c p IH]; intros s; simpl.
  - now destruct s.
  - destruct s as [|c' s]; simpl; [discriminate|].
    destruct (ascii_dec c c') as [->|]; [|discriminate].
    intros E.
    change (String c' (p +:+ drop_str (String.length p) s) = String c' s).
    now rewrite IH.
Qed.

Lemma assoc_dict_set_other (k k' : string) (v : json) (d : dict) :
  k <> k' -> assoc k (dict_set k' v d) = assoc k d.
Proof.
  intros NE. induction d as [|[k0 v0] d IH]; simpl.
  - destruct (String.eqb_spec k k'); [contradiction | reflexivity].
  - destruct (String.eqb_spec k' k0) as [->|NE0]; simpl.
    + destruct (String.eqb_spec k k0); [contradiction | reflexivity].
    + now rewrite IH.
Qed.

Lemma assoc_dict_pop_eq (k : string) (d : dict) : assoc k (dict_pop k d) = None.
Proof.
  induction d as [|[k0 v0] d IH]; simpl; [reflexivity|].
  destruct (String.eqb_spec k k0) as [->|NE]; simpl; [exact IH|].
  destruct (String.eqb_spec k k0); [contradiction | exact IH].
Qed.

Lemma assoc_in_keys (k : string) (d : dict) :
  In k (map fst d) -> assoc k d <> None.
Proof.
  induction d as [|[k0 v0] d IH]; simpl; [tauto|].
  intros [-> | I]; [now rewrite String.eqb_refl|].
  destruct (String.eqb k k0); [discriminate | now apply IH].
Qed.

Lemma assoc_not_in_keys (k : string) (d : dict) :
  ~ In k (map fst d) -> assoc k d = None.
Proof.
  induction d as [|[k0 v0] d IH]; simpl; [reflexivity|].
  intros N. destruct (String.eqb_spec k k0) as [->|NE]; [tauto|].
  apply IH. tauto.
Qed.

Lemma doctor_lookup (keys : list string) (cur : dict) :
  NoDup keys ->
  (forall k, In k keys -> custom k = true ->
             assoc k cur <> None /\ custom (uncustom k) = false) ->
  exists d',
    doctor keys cur = Ok d'
    /\ (forall k, custom k = true ->
          assoc k d' = if in_dec String.string_dec k keys then None
                       else assoc k cur)
    /\ (forall y, custom y = false ->
          assoc y d'
          = if in_dec String.string_dec
                 (EARTHONE_CUSTOM_CLAIM_PREFIX +:+ y) keys
            then assoc (EARTHONE_CUSTOM_CLAIM_PREFIX +:+ y) cur
            else assoc y cur).
Proof.
  revert cur. induction keys as [|k keys IH]; intros cur ND Pre.
  { exists cur. repeat split. }
  inversion ND as [|? ? Nk ND']; subst. rewrite list_elem_of_In in Nk.
  assert (forall y, custom (EARTHONE_CUSTOM_CLAIM_PREFIX +:+ y) = true)
    as Cp by (intros y; apply prefix_app).
  simpl doctor. fold (custom k). destruct (custom k) eqn:Ck.
  - destruct (Pre k (or_introl eq_refl) Ck) as [Present Single].
    destruct (assoc k cur) as [v|] eqn:Ak; [|congruence].
    fold (uncustom k).
    assert (EARTHONE_CUSTOM_CLAIM_PREFIX +:+ uncustom k = k) as Back
      by (apply prefix_drop; exact Ck).
    set (cur' := dict_set (uncustom k) v (dict_pop k cur)).
    assert (forall k0, custom k0 = true -> k0 <> k ->
              assoc k0 cur' = assoc k0 cur) as Other.
    { intros k0 C0 NE. unfold cur'.
      rewrite assoc_dict_set_other
        by (intros ->; rewrite Single in C0; discriminate).
      now apply assoc_dict_pop_other. }
    destruct (IH cur' ND') as (d' & Run & A & B).
    { intros k0 I0 C0. assert (k0 <> k) by (intros ->; contradiction).
      rewrite Other by assumption. apply Pre; [now right | exact C0]. }
    exists d'. split; [exact Run|]. split.
    + intros k0 C0. rewrite (A k0 C0). simpl.
      destruct (String.string_dec k k0) as [->|NE].
      * destruct (in_dec String.string_dec k0 keys); [reflexivity|].
        unfold cur'. rewrite assoc_dict_set_other by congruence.
        apply assoc_dict_pop_eq.
      * destruct (in_dec String.string_dec k0 keys); [reflexivity|].
        apply Other; [exact C0 | congruence].
    + intros y Cy. rewrite (B y Cy). simpl.
      destruct (String.string_dec k (EARTHONE_CUSTOM_CLAIM_PREFIX +:+ y))
        as [E|NE].
      * assert (uncustom k = y) as Ey
          by (rewrite E; unfold uncustom; apply drop_prefix).
        destruct (in_dec String.string_dec _ keys) as [I|_];
          [rewrite <- E in I; contradiction|].
        unfold cur'. rewrite Ey, assoc_dict_set. now rewrite <- E.
      * assert (y <> uncustom k) as Ny.
        { intros Ey. apply NE. now rewrite Ey. }
        destruct (in_dec String.string_dec _ keys) as [I|_].
        -- apply Other; [apply Cp | congruence].
        -- unfold cur'. rewrite assoc_dict_set_other by exact Ny.
           apply assoc_dict_pop_other. congruence.
  - destruct (IH cur ND') as (d' & Run & A & B).
    { intros k0 I0 C0. apply Pre; [now right | exact C0]. }
    exists d'. split; [exact Run|]. split.
    + intros k0 C0. rewrite (A k0 C0). simpl.
      destruct (String.string_dec k k0) as [->|NE]; [congruence|].
      destruct (in_dec String.string_dec k0 keys); reflexivity.
    + intros y Cy. rewrite (B y Cy). simpl.
      destruct (String.string_dec k (EARTHONE_CUSTOM_CLAIM_PREFIX +:+ y))
        as [E|NE]; [rewrite E, Cp in Ck; discriminate|].
      destruct (in_dec String.string_dec _ keys); reflexivity.
Qed.

(** X17. The renaming of the custom claims.  For claims with distinct keys,
    none of which carries the prefix twice, the loop of [Auth.payload]
    returns a dict in which no key carries the prefix, every claim that
    carried it is found under the rest of its name, and every other claim
    is as it was unless a prefixed claim of that name replaced it. *)
Theorem X17_doctor_renames (d : dict) :
  NoDup (map fst d) ->
  (forall k, In k (map fst d) -> custom k = true ->
             custom (uncustom k) = false) ->
  exists d',
    doctor (map fst d) d = Ok d'
    /\ (forall k, custom k = true -> assoc k d' = None)
    /\ (forall k v, custom k = true -> assoc k d = Some v ->
          assoc (uncustom k) d' = Some v)
    /\ (forall y, custom y = false ->
          assoc (EARTHONE_CUSTOM_CLAIM_PREFIX +:+ y) d = None ->
          assoc y d' = assoc y d).
Proof.
  intros ND Single.
  destruct (doctor_lookup (map fst d) d ND) as (d' & Run & A & B).
  { intros k I C. split; [now apply assoc_in_keys | now apply Single]. }
  exists d'. split; [exact Run|]. split; [|split].
  - intros k C. rewrite (A k C).
    destruct (in_dec String.string_dec k (map fst d)) as [|N];
      [reflexivity | now apply assoc_not_in_keys].
  - intros k v C Ak.
    assert (In k (map fst d)) as I.
    { destruct (in_dec String.string_dec k (map fst d)) as [|N];
        [assumption|].
      rewrite (assoc_not_in_keys _ _ N) in Ak. discriminate. }
    rewrite (B (uncustom k) (Single k I C)).
    assert (EARTHONE_CUSTOM_CLAIM_PREFIX +:+ uncustom k = k) as ->
      by (apply prefix_drop; exact C).
    destruct (in_dec String.string_dec k (map fst d)); [exact Ak | tauto].
  - intros y C Absent. rewrite (B y C).
    destruct (in_dec String.string_dec _ (map fst d)) as [I|_];
      [|reflexivity].
    apply assoc_in_keys in I. contradiction.
Qed.

(** ** Padding of a base64url segment *)

Lemma length_repeat_str (n : nat) :
  String.length (repeat_str "=" n) = n.
Proof.
  induction n as [|n IH]; simpl; [reflexivity|].
  now rewrite length_app, IH.
Qed.

Lemma app_empty_r (s : string) : s +:+ "" = s.
Proof.
  induction s as [|c s IH]; [reflexivity|].
  change (String c (s +:+ "") = String c s). now rewrite IH.
Qed.

Section Decoder.
Context `{PyLib}.

(** X18. [base64url_decode] hands the library decoder its input followed by
    only as many [=] signs, at most three, as bring the length to a
    multiple of four; an input whose length is one already is handed over
    as it is. *)
Theorem X18_base64url_decode_pads (input : string) :
  exists pad : string,
    base64url_decode input
    = of_option ValueError (urlsafe_b64decode (input +:+ pad))
    /\ pad = repeat_str "=" (String.length pad)
    /\ (String.length pad < 4)%nat
    /\ (String.length (input +:+ pad) mod 4 = 0)%nat
    /\ ((String.length input mod 4 = 0)%nat -> pad = "").
Proof.
  unfold base64url_decode.
  pose proof (Nat.div_mod_eq (String.length input) 4) as DM.
  pose proof (Nat.mod_upper_bound (String.length input) 4 ltac:(lia)) as UB.
  set (rem := (String.length input mod 4)%nat) in *.
  destruct (0 <? rem)%nat eqn:Pos.
  - apply Nat.ltb_lt in Pos.
    exists (repeat_str "=" (4 - rem)). rewrite length_app, length_repeat_str.
    split; [reflexivity|]. split; [reflexivity|]. split; [lia|]. split.
    + replace (String.length input + (4 - rem))%nat
        with ((String.length input / 4 + 1) * 4)%nat by lia.
      apply Nat.Div0.mod_mul.
    + intros Z. lia.
  - apply Nat.ltb_ge in Pos. exists "". rewrite app_empty_r.
    split; [reflexivity|]. split; [reflexivity|]. split; [simpl; lia|].
    split; [fold rem; lia | reflexivity].
Qed.

End Decoder.

(** ** Properties of the identity *)

Lemma take_app (x y : string) : take_str (String.length x) (x +:+ y) = x.
Proof.
  induction x as [|c x IH]; [now destruct y|].
  change (String c (take_str (String.length x) (x +:+ y)) = String c x).
  now rewrite IH.
Qed.

Lemma take_drop (n : nat) (s : string) : take_str n s +:+ drop_str n s = s.
Proof.
  revert s. induction n as [|n IH]; intros s; [now destruct s|].
  destruct s as [|c s]; [reflexivity|].
  change (String c (take_str n s +:+ drop_str n s) = String c s).
  now rewrite IH.
Qed.

Lemma endswith_app (x suffix : string) : endswith (x +:+ suffix) suffix = true.
Proof.
  unfold endswith. rewrite length_app.
  replace (String.length x + String.length suffix - String.length suffix)%nat
    with (String.length x) by lia.
  rewrite drop_prefix, String.eqb_refl.
  apply andb_true_iff. split; [apply Nat.leb_le; lia | reflexivity].
Qed.

Lemma drop_last_app (x suffix : string) :
  drop_last (String.length suffix) (x +:+ suffix) = x.
Proof.
  unfold drop_last. rewrite length_app.
  replace (String.length x + String.length suffix - String.length suffix)%nat
    with (String.length x) by lia.
  apply take_app.
Qed.

Lemma endswith_split (s suffix : string) :
  endswith s suffix = true ->
  s = drop_last (String.length suffix) s +:+ suffix.
Proof.
  unfold endswith, drop_last. intros E.
  apply andb_true_iff in E as [_ E]. apply String.eqb_eq in E.
  pose proof (take_drop (String.length s - String.length suffix) s) as TD.
  rewrite E in TD. now symmetry.
Qed.

Lemma admins_of_strings (suffix : string) (gs : list string) :
  admins_of suffix (map JStr gs)
  = Ok (map (drop_last (String.length suffix))
          (List.filter (fun g => endswith g suffix) gs)).
Proof.
  induction gs as [|g gs IH]; simpl; [reflexivity|].
  rewrite IH. simpl. destruct (endswith g suffix); reflexivity.
Qed.

(** The admins named by the groups: [x] is one exactly when the group
    [x ++ suffix] is among them. *)
Lemma admins_of_spec (suffix : string) (gs : list string) (x : string) :
  In x (map (drop_last (String.length suffix))
          (List.filter (fun g => endswith g suffix) gs))
  <-> In (x +:+ suffix) gs.
Proof.
  rewrite in_map_iff. split.
  - intros (g & <- & I). apply filter_In in I as [I E].
    now rewrite <- (endswith_split g suffix E).
  - intros I. exists (x +:+ suffix). split; [apply drop_last_app|].
    apply filter_In. split; [exact I | apply endswith_app].
Qed.

Section IdentityProperties.
Context `{PyLib}.
Variable str_lower : string -> string.

Lemma namespace_held (a : Auth) (w : World) :
  is_none (_namespace a) = false ->
  namespace (a, w) = (Ok (_namespace a), (a, w)).
Proof. intros N. unfold namespace. run. now rewrite N. Qed.

Lemma namespace_computed (a a1 : Auth) (w w1 : World) (claims userid : json) :
  _namespace a = JNull ->
  payload (a, w) = (Ok claims, (a1, w1)) ->
  py_get claims "userid" = Ok userid ->
  namespace (a, w)
  = if truthy userid then (Ok userid, (set_namespace userid a1, w1))
    else match py_item claims "sub" with
         | Ok (JStr sub) =>
             if has_surrogate sub then (Raise UnicodeEncodeError, (a1, w1))
             else (Ok (JStr (sha1_hexdigest sub)),
                   (set_namespace (JStr (sha1_hexdigest sub)) a1, w1))
         | Ok _ => (Raise AttributeError, (a1, w1))
         | Raise e => (Raise e, (a1, w1))
         end.
Proof.
  intros N P U. unfold namespace. run. rewrite N. simpl. rewrite P. run.
  rewrite U. run. destruct (truthy userid); run; [reflexivity|].
  rewrite (payload_cached _ _ _ P). run.
  destruct (py_item claims "sub") as [[| | |sub| |]|e]; try reflexivity.
  unfold str_encode. destruct (has_surrogate sub); reflexivity.
Qed.

(** X19. The namespace of the user is the userid claim when that is
    non-empty, and otherwise the SHA-1 hex digest of the UTF-8 encoding of
    the sub claim: a sub that has no encoding raises the error of [encode],
    an absent one a [KeyError], and nothing is held then.  Once computed
    the namespace is held by the object, and a second access returns it
    without looking at the claims. *)
Theorem X19_namespace_rule (s s1 : Auth * World) (claims userid : json) :
  _namespace (fst s) = JNull ->
  payload s = (Ok claims, s1) ->
  py_get claims "userid" = Ok userid ->
  (truthy userid = true ->
   namespace s = (Ok userid, (set_namespace userid (fst s1), snd s1)))
  /\ (truthy userid = false ->
      forall sub, py_item claims "sub" = Ok (JStr sub) ->
        namespace s
        = if has_surrogate sub then (Raise UnicodeEncodeError, s1)
          else (Ok (JStr (sha1_hexdigest sub)),
                (set_namespace (JStr (sha1_hexdigest sub)) (fst s1), snd s1)))
  /\ (truthy userid = false -> py_item claims "sub" = Raise KeyError ->
      namespace s = (Raise KeyError, s1))
  /\ (forall ns s', namespace s = (Ok ns, s') -> namespace s' = (Ok ns, s')).
Proof.
  destruct s as [a w], s1 as [a1 w1]. simpl. intros N P U.
  pose proof (namespace_computed a a1 w w1 claims userid N P U) as E.
  split; [|split; [|split]].
  - intros T. now rewrite T in E.
  - intros T sub S. now rewrite T, S in E.
  - intros T S. now rewrite T, S in E.
  - intros ns s'. rewrite E. destruct (truthy userid) eqn:T.
    + intros X. inversion X; subst. apply namespace_held. simpl.
      destruct ns; try reflexivity. discriminate.
    + destruct (py_item claims "sub") as [[| | |sub| |]|e]; try discriminate.
      destruct (has_surrogate sub); [discriminate|].
      intros X. inversion X; subst. now apply namespace_held.
Qed.

Lemma active_groups_run (s s' : Auth * World) (claims org : json)
    (groups : list string) :
  payload s = (Ok claims, s') ->
  py_get claims "org" = Ok org ->
  py_get claims "groups" = Ok (JArr (map JStr groups)) ->
  _active_groups s = (Ok (List.filter (group_kept org) groups), s').
Proof.
  intros P O G. unfold _active_groups.
  unfold bind at 1. rewrite P.
  unfold bind at 1. unfold lift_res at 1. rewrite O.
  unfold bind at 1. rewrite (payload_cached _ _ _ P).
  destruct claims; try discriminate. simpl in G |- *.
  unfold bind, lift_res. simpl.
  destruct (assoc "groups" fields) as [v|]; simpl in *; [|discriminate].
  inversion G; subst. simpl.
  now rewrite active_groups_of_strings.
Qed.

Lemma admins_run (suffix : string) (s s' : Auth * World) (claims : json)
    (groups : list string) :
  payload s = (Ok claims, s') ->
  py_get claims "groups" = Ok (JArr (map JStr groups)) ->
  (p <- payload ;;
   groups <- lift_res (py_get_default p "groups" (JArr [])) ;;
   items <- lift_res (py_iter groups) ;;
   lift_res (admins_of suffix items))%py s
  = (Ok (map (drop_last (String.length suffix))
           (List.filter (fun g => endswith g suffix) groups)), s').
Proof.
  intros P G. unfold bind at 1. rewrite P.
  destruct claims; try discriminate. simpl in G |- *.
  unfold bind, lift_res. simpl.
  destruct (assoc "groups" fields) as [v|]; simpl in *; [|discriminate].
  inversion G; subst. simpl.
  now rewrite admins_of_strings.
Qed.

(** The subject of a claim that is absent, or a string. *)
Definition subject_of (prefix : string) (f : string -> string)
    (v : option string) : list string :=
  match v with
  | Some s => if String.eqb s "" then [] else [prefix +:+ f s]
  | None => []
  end.

(** X20. The ACL subjects of a user whose email, org and groups claims are
    strings: the user, the email in lower case, the org, and one subject
    for each active group, in that order; a group whose name has a colon
    is among them only under the org it is prefixed with.  The list is
    held by the object and returned as it is by the next access. *)
Theorem X20_all_acl_subjects_of_claims (s s1 s2 : Auth * World) (ns : string)
    (claims : json) (email org : option string) (groups : list string) :
  _aas (fst s) = None ->
  namespace s = (Ok (JStr ns), s1) ->
  payload s1 = (Ok claims, s2) ->
  py_get claims "email" = Ok (of_str email) ->
  py_get claims "org" = Ok (of_str org) ->
  py_get claims "groups" = Ok (JArr (map JStr groups)) ->
  let subjects :=
    [ACL_PREFIX_USER +:+ ns]
    ++ subject_of ACL_PREFIX_EMAIL str_lower email
    ++ subject_of ACL_PREFIX_ORG id org
    ++ map (fun g => ACL_PREFIX_GROUP +:+ g)
         (List.filter (group_kept (of_str org)) groups) in
  all_acl_subjects str_lower s
  = (Ok subjects, (set_aas subjects (fst s2), snd s2))
  /\ all_acl_subjects str_lower (set_aas subjects (fst s2), snd s2)
     = (Ok subjects, (set_aas subjects (fst s2), snd s2))
  /\ (forall g, In (ACL_PREFIX_GROUP +:+ g) subjects ->
        In g groups
        /\ (has_colon g = true -> org = Some (before_colon g))).
Proof.
  destruct s as [a w], s1 as [a1 w1], s2 as [a2 w2]. simpl.
  intros C N P Em Or Gr.
  pose proof (payload_cached _ _ _ P) as P2.
  pose proof (active_groups_run _ _ _ _ _ P2 Or Gr) as AG.
  split; [|split].
  - unfold all_acl_subjects.
    erewrite bind_ok
      by (unfold get_local, gets; simpl; rewrite C; reflexivity).
    cbv beta iota.
    erewrite bind_ok by exact N. cbv beta.
    erewrite bind_ok by reflexivity. cbv beta.
    erewrite bind_ok by exact P. cbv beta.
    erewrite bind_ok by (unfold lift_res; rewrite Em; reflexivity). cbv beta.
    erewrite (bind_ok _ _ (a2, w2) (a2, w2)
                (subject_of ACL_PREFIX_EMAIL str_lower email)).
    2: { destruct email as [e|]; simpl; [|reflexivity].
         destruct (String.eqb e ""); reflexivity. }
    cbv beta.
    erewrite bind_ok by exact P2. cbv beta.
    erewrite bind_ok by (unfold lift_res; rewrite Or; reflexivity). cbv beta.
    erewrite (bind_ok _ _ (a2, w2) (a2, w2)
                (subject_of ACL_PREFIX_ORG id org)).
    2: { destruct org as [o|]; simpl; [|reflexivity].
         destruct (String.eqb o ""); reflexivity. }
    cbv beta.
    erewrite bind_ok by exact AG. cbv beta.
    reflexivity.
  - unfold all_acl_subjects. run. reflexivity.
  - intros g I. simpl in I. destruct I as [E | I]; [discriminate E|].
    apply in_app_or in I as [I | I].
    { destruct email as [e|]; simpl in I; [|tauto].
      destruct (String.eqb e ""); simpl in I; [tauto|].
      destruct I as [E | []]. discriminate E. }
    apply in_app_or in I as [I | I].
    { destruct org as [o|]; simpl in I; [|tauto].
      destruct (String.eqb o ""); simpl in I; [tauto|].
      destruct I as [E | []]. discriminate E. }
    apply in_map_iff in I as (g' & E & I).
    apply String.app_inj in E. subst g'.
    apply filter_In in I as [I K]. split; [exact I|].
    intros Colon. apply group_kept_spec in K as [NoColon | (o & Eo & _ & Eb)].
    + congruence.
    + destruct org as [o'|]; simpl in Eo; [|discriminate].
      inversion Eo; subst. reflexivity.
Qed.

(** X21. The owner subjects of a user whose groups are strings: the user,
    [org:x] for each group [x:org-admin] and [access-id:y] for each group
    [y:resource-admin], with [x] and [y] non-empty, and nothing else. *)
Theorem X21_all_owner_acl_subjects_of_claims (s s1 s2 : Auth * World)
    (ns : string) (claims : json) (groups : list string) :
  _aoas (fst s) = None ->
  namespace s = (Ok (JStr ns), s1) ->
  payload s1 = (Ok claims, s2) ->
  py_get claims "groups" = Ok (JArr (map JStr groups)) ->
  exists subjects,
    all_owner_acl_subjects s
    = (Ok subjects, (set_aoas subjects (fst s2), snd s2))
    /\ forall x,
         In x subjects <->
         x = ACL_PREFIX_USER +:+ ns
         \/ (exists org, org <> "" /\ x = ACL_PREFIX_ORG +:+ org
                         /\ In (org +:+ ORG_ADMIN_SUFFIX) groups)
         \/ (exists access_id,
               access_id <> "" /\ x = ACL_PREFIX_ACCESS +:+ access_id
               /\ In (access_id +:+ RESOURCE_ADMIN_SUFFIX) groups).
Proof.
  destruct s as [a w], s1 as [a1 w1], s2 as [a2 w2]. simpl.
  intros C N P Gr.
  pose proof (payload_cached _ _ _ P) as P2.
  eexists. split.
  - unfold all_owner_acl_subjects.
    erewrite bind_ok
      by (unfold get_local, gets; simpl; rewrite C; reflexivity).
    cbv beta iota.
    erewrite bind_ok by exact N. cbv beta.
    erewrite bind_ok by reflexivity. cbv beta.
    erewrite bind_ok
      by (unfold get_org_admins; exact (admins_run _ _ _ _ _ P Gr)).
    cbv beta.
    erewrite bind_ok
      by (unfold get_resource_admins; exact (admins_run _ _ _ _ _ P2 Gr)).
    cbv beta. reflexivity.
  - assert (forall (prefix suffix x : string),
              In x (map (fun y => prefix +:+ y)
                      (List.filter nonempty_str
                         (map (drop_last (String.length suffix))
                            (List.filter (fun g => endswith g suffix)
                               groups))))
              <-> exists y, y <> "" /\ x = prefix +:+ y
                            /\ In (y +:+ suffix) groups) as Named.
    { intros prefix suffix x. rewrite in_map_iff. split.
      - intros (y & <- & I). apply filter_In in I as [I NE].
        exists y. split; [|split; [reflexivity|]].
        + unfold nonempty_str in NE. apply negb_true_iff in NE.
          now apply String.eqb_neq.
        + now apply admins_of_spec.
      - intros (y & NE & -> & I). exists y. split; [reflexivity|].
        apply filter_In. split; [now apply admins_of_spec|].
        unfold nonempty_str. apply negb_true_iff.
        now apply String.eqb_neq. }
    intros x. rewrite !in_app_iff, !Named.
    split.
    + intros [[E | []] | [O | A]]; auto.
    + intros [E | [O | A]]; auto. left. left. auto.
Qed.

(** X22. The subjects as a set: the first access builds the set of the
    members of the subject list and holds it; the next one returns it
    without looking at the list. *)
Theorem X22_all_acl_subjects_as_set_members (s s' : Auth * World)
    (subjects : list string) :
  _aasas (fst s) = None ->
  all_acl_subjects str_lower s = (Ok subjects, s') ->
  exists members : gset string,
    all_acl_subjects_as_set str_lower s
    = (Ok members, (set_aasas members (fst s'), snd s'))
    /\ (forall x, x ∈ members <-> In x subjects)
    /\ all_acl_subjects_as_set str_lower (set_aasas members (fst s'), snd s')
       = (Ok members, (set_aasas members (fst s'), snd s')).
Proof.
  destruct s as [a w], s' as [a' w']. simpl. intros C A.
  exists (list_to_set subjects). split; [|split].
  - unfold all_acl_subjects_as_set.
    erewrite bind_ok
      by (unfold get_local, gets; simpl; rewrite C; reflexivity).
    cbv beta iota.
    erewrite bind_ok by exact A. reflexivity.
  - intros x. rewrite elem_of_list_to_set. apply list_elem_of_In.
  - unfold all_acl_subjects_as_set. run. reflexivity.
Qed.

End IdentityProperties.

(** ** One wrapped object per thread and process *)

Section WrapperProperties.
Import ThreadLocalWrapper.
Context {X F : Type}.
Variable factory : M F X.

(** Every thread that has used the wrapper did so in the process [pid]. *)
Definition of_process (pid : Z) (l : gmap nat (attrs X)) : Prop :=
  forall thread a, l !! thread = Some a -> _pid a = Some pid.

Lemma get_of_attrs (thread : nat) (pid : Z) (x : X) (l : gmap nat (attrs X)) (f : F) :
  l !! thread = Some {| _pid := Some pid; wrapped := Some x |} ->
  get factory thread pid (l, f) = (Ok x, (l, f)).
Proof.
  intros L. unfold get, _init_local. simpl. rewrite L. simpl.
  rewrite Z.eqb_refl, L. reflexivity.
Qed.

Lemma init_local_frame (thread other : nat) (pid : Z) (l : gmap nat (attrs X)) :
  of_process pid l -> other <> thread ->
  _init_local thread pid l !! other = l !! other
  /\ of_process pid (_init_local thread pid l)
  /\ _init_local thread pid l !! thread ≫= _pid = Some pid.
Proof.
  intros P NE. unfold _init_local.
  destruct (l !! thread ≫= _pid) as [previous|] eqn:Lp.
  - destruct (l !! thread) as [a|] eqn:L; [|discriminate Lp].
    simpl in Lp. rewrite (P _ _ L) in Lp. inversion Lp; subst previous.
    rewrite Z.eqb_refl. split; [reflexivity|]. split; [exact P|].
    rewrite L. simpl. exact (P _ _ L).
  - split; [now rewrite lookup_insert_ne|]. split.
    + intros t a0. destruct (decide (t = thread)) as [->|N].
      * rewrite lookup_insert_eq. intros E. now inversion E.
      * rewrite lookup_insert_ne by congruence. apply P.
    + now rewrite lookup_insert_eq.
Qed.

Lemma init_local_pid (thread : nat) (pid : Z) (l : gmap nat (attrs X)) :
  _init_local thread pid l !! thread ≫= _pid = Some pid.
Proof.
  unfold _init_local.
  destruct (l !! thread ≫= _pid) as [previous|] eqn:L.
  - destruct (Z.eqb_spec pid previous) as [->|NE]; [exact L|].
    unfold _create_local. now rewrite lookup_singleton_eq.
  - now rewrite lookup_insert_eq.
Qed.

Lemma get_attrs (thread : nat) (pid : Z) (x : X) (s s' : gmap nat (attrs X) * F) :
  get factory thread pid s = (Ok x, s') ->
  fst s' !! thread = Some {| _pid := Some pid; wrapped := Some x |}.
Proof.
  unfold get. pose proof (init_local_pid thread pid (fst s)) as Pid.
  set (l := _init_local thread pid (fst s)) in *.
  destruct (l !! thread) as [[p wr]|] eqn:L; simpl in *.
  - subst p. destruct wr as [x0|].
    + intros E. inversion E; subst. exact L.
    + destruct (factory (snd s)) as [[x0|e] f']; [|discriminate].
      intros E. inversion E; subst. simpl. now rewrite lookup_insert_eq.
  - discriminate.
Qed.

(** X23. In one thread of one process the wrapper holds one object: once
    [get] has returned it, [get] returns it again without calling the
    factory. *)
Theorem X23_get_once (thread : nat) (pid : Z) (x : X) (s s' : gmap nat (attrs X) * F) :
  get factory thread pid s = (Ok x, s') ->
  get factory thread pid s' = (Ok x, s').
Proof.
  intros G. destruct s' as [l' f'].
  apply get_of_attrs. exact (get_attrs _ _ _ _ _ G).
Qed.

(** X24. In a process other than the one that last used the wrapper in
    this thread, [get] calls the factory for a new object and drops what
    every thread held. *)
Theorem X24_get_in_new_process (thread : nat) (pid previous : Z) (l : gmap nat (attrs X))
    (f : F) :
  l !! thread ≫= _pid = Some previous -> previous <> pid ->
  get factory thread pid (l, f)
  = match factory f with
    | (Ok x, f') =>
        (Ok x, ({[ thread := {| _pid := Some pid; wrapped := Some x |} ]}, f'))
    | (Raise e, f') => (Raise e, (_create_local thread pid, f'))
    end.
Proof.
  intros L NE. unfold get, _init_local. simpl. rewrite L.
  destruct (Z.eqb_spec pid previous) as [E|_]; [congruence|].
  unfold _create_local. rewrite lookup_singleton_eq. simpl.
  destruct (factory f) as [[x|e] f']; [|reflexivity].
  now rewrite insert_singleton_eq.
Qed.

(** X25. Threads of one process do not disturb each other: when every
    thread has used the wrapper in this process only, a [get] in another
    thread leaves the object of this thread in place. *)
Theorem X25_get_isolated (thread other : nat) (pid : Z) (x : X)
    (s s1 s2 : gmap nat (attrs X) * F) (r : res X) :
  of_process pid (fst s) ->
  get factory thread pid s = (Ok x, s1) ->
  other <> thread ->
  get factory other pid s1 = (r, s2) ->
  get factory thread pid s2 = (Ok x, s2) /\ of_process pid (fst s2).
Proof.
  intros P G NE G'.
  assert (forall t (s0 s0' : gmap nat (attrs X) * F) r0,
            of_process pid (fst s0) ->
            get factory t pid s0 = (r0, s0') ->
            of_process pid (fst s0')
            /\ forall t0, t0 <> t -> fst s0' !! t0 = fst s0 !! t0) as Frame.
  { intros t s0 s0' r0 P0. unfold get.
    pose proof (init_local_pid t pid (fst s0)) as Pid.
    assert (of_process pid (_init_local t pid (fst s0))
            /\ forall t0, t0 <> t ->
                 _init_local t pid (fst s0) !! t0 = fst s0 !! t0) as [P1 Fr].
    { split.
      - destruct (init_local_frame t (S t) pid (fst s0) P0) as (_ & Q & _);
          [lia | exact Q].
      - intros t0 N. now apply init_local_frame. }
    set (l := _init_local t pid (fst s0)) in *.
    destruct (l !! t ≫= wrapped) as [x0|].
    - intros E. inversion E; subst. now split.
    - destruct (factory (snd s0)) as [[x0|e] f'];
        intros E; inversion E; subst; simpl; [|now split].
      split.
      + intros t0 a. destruct (decide (t0 = t)) as [->|N].
        * rewrite lookup_insert_eq. intros E'. inversion E'; subst. simpl.
          exact Pid.
        * rewrite lookup_insert_ne by congruence. apply P1.
      + intros t0 N. rewrite lookup_insert_ne by congruence. now apply Fr. }
  destruct (Frame _ _ _ _ P G) as [P1 _].
  destruct (Frame _ _ _ _ P1 G') as [P2 Same].
  split; [|exact P2]. destruct s2 as [l2 f2].
  apply get_of_attrs. simpl in Same. rewrite Same by congruence.
  exact (get_attrs _ _ _ _ _ G).
Qed.

End WrapperProperties.

(** ** Namespaced ids *)

Section CatalogProperties.
Context `{PyLib}.
Variable repr : json -> string.

(** The owner of the ids of a user: the org when there is one, else the
    namespace. *)
Definition owner_of (org : option string) (ns : string) : string :=
  match org with
  | Some o => if String.eqb o "" then ns else o
  | None => ns
  end.

Definition namespaced (owner id : string) : Prop :=
  id = owner \/ startswith id (owner +:+ ":") = true.

Lemma under_owner (owner x : string) (s : Auth * World) :
  exists y,
    under repr (JStr owner) (JStr x) s = (Ok (JStr y), s)
    /\ namespaced owner y
    /\ (namespaced owner x -> y = x)
    /\ (y = x \/ y = owner +:+ ":" +:+ x).
Proof.
  unfold under, namespaced. simpl.
  destruct (String.eqb_spec x owner) as [->|NE].
  { exists owner. repeat split; auto. }
  unfold bind, lift_res. simpl.
  destruct (startswith x (owner +:+ ":")) eqn:S.
  - exists x. repeat split; auto.
  - exists (owner +:+ ":" +:+ x). split; [reflexivity|]. split; [|split].
    + right. rewrite <- append_assoc. apply prefix_app.
    + intros [E | E]; congruence.
    + now right.
Qed.

(** X26. [Blob.namespace_id] and [EventApiDestination.namespace_id], for a
    user whose org claim is absent or a string and whose namespace is a
    string: the id returned is the owner (the org if non-empty, else the
    namespace) or starts with the owner and a colon; an id that is so
    already is returned as it is; and the method is idempotent. *)
Theorem X26_blob_namespace_id_idempotent (s : Auth * World) (claims : json)
    (org id : option string) (ns : string) :
  payload s = (Ok claims, s) ->
  py_get claims "org" = Ok (of_str org) ->
  namespace s = (Ok (JStr ns), s) ->
  ns <> "" ->
  exists y,
    blob_namespace_id repr (of_str id) s = (Ok (JStr y), s)
    /\ namespaced (owner_of org ns) y
    /\ (forall x, id = Some x -> x <> "" ->
                  namespaced (owner_of org ns) x -> y = x)
    /\ blob_namespace_id repr (JStr y) s = (Ok (JStr y), s).
Proof.
  intros P O N NsNE.
  assert (forall v,
            blob_namespace_id repr v s
            = (if negb (truthy v) then
                 if truthy (of_str org)
                 then ret (JStr (py_format repr (of_str org) +:+ ":" +:+ ns))
                 else ret (JStr ns)
               else under repr (JStr (owner_of org ns)) v) s) as Run.
  { intros v. unfold blob_namespace_id.
    erewrite bind_ok by exact P. cbv beta.
    erewrite bind_ok by (unfold lift_res; rewrite O; reflexivity). cbv beta.
    erewrite bind_ok by exact N. cbv beta.
    destruct (negb (truthy v)); [reflexivity|].
    unfold owner_of. destruct org as [o|]; simpl; [|reflexivity].
    destruct (String.eqb o ""); reflexivity. }
  assert (forall y, y <> "" -> namespaced (owner_of org ns) y ->
            blob_namespace_id repr (JStr y) s = (Ok (JStr y), s)) as Fixed.
  { intros y NE Ny. rewrite Run.
    assert (truthy (JStr y) = true) as -> by now apply truthy_str.
    change (negb true) with false. cbv iota.
    destruct (under_owner (owner_of org ns) y s) as (y' & U & _ & Same & _).
    rewrite U. now rewrite (Same Ny). }
  assert (owner_of org ns <> "") as OwnNE.
  { unfold owner_of. destruct org as [o|]; [|exact NsNE].
    destruct (String.eqb_spec o ""); [exact NsNE | assumption]. }
  assert (forall y, namespaced (owner_of org ns) y -> y <> "") as NsNonEmpty.
  { intros y [-> | S]; [exact OwnNE|]. intros ->.
    destruct (owner_of org ns); [congruence | discriminate S]. }
  destruct (truthy (of_str id)) eqn:T.
  - destruct id as [x|]; [|discriminate].
    destruct (under_owner (owner_of org ns) x s) as (y & U & Ny & Same & _).
    exists y. split; [rewrite Run; simpl of_str; rewrite T; exact U|].
    split; [exact Ny|]. split.
    + intros x' E _ Nx. inversion E; subst. now apply Same.
    + apply Fixed; [now apply NsNonEmpty | exact Ny].
  - assert (forall x, id = Some x -> x <> "" -> False) as Empty.
    { intros x -> NE. apply truthy_str in NE. simpl in T, NE. congruence. }
    destruct org as [o|]; [destruct (String.eqb_spec o "") as [->|NE]|].
    + exists ns. split; [rewrite Run, T; reflexivity|].
      assert (namespaced (owner_of (Some "") ns) ns) as Nn by now left.
      split; [exact Nn|]. split; [intros x E NE; destruct (Empty x E NE)|].
      now apply Fixed.
    + exists (o +:+ ":" +:+ ns).
      assert (truthy (of_str (Some o)) = true) as To by now apply truthy_str.
      split; [rewrite Run, T, To; reflexivity|].
      assert (namespaced (owner_of (Some o) ns) (o +:+ ":" +:+ ns)) as Nn.
      { right. unfold owner_of. apply String.eqb_neq in NE. rewrite NE.
        rewrite <- append_assoc. apply prefix_app. }
      split; [exact Nn|]. split; [intros x E NE'; destruct (Empty x E NE')|].
      apply Fixed; [now apply NsNonEmpty | exact Nn].
    + exists ns. split; [rewrite Run, T; reflexivity|].
      assert (namespaced (owner_of None ns) ns) as Nn by now left.
      split; [exact Nn|]. split; [intros x E NE; destruct (Empty x E NE)|].
      now apply Fixed.
Qed.

(** X27. [Product.namespace_id], for a user whose org claim is absent or a
    string and whose namespace is a string: the id returned starts with the
    org (the namespace when the org is absent) and a colon; an id that does
    so already is returned as it is; and the method is idempotent. *)
Theorem X27_product_namespace_id_idempotent (s : Auth * World) (claims : json)
    (org : option string) (ns id : string) :
  payload s = (Ok claims, s) ->
  py_get claims "org" = Ok (of_str org) ->
  namespace s = (Ok (JStr ns), s) ->
  exists y,
    product_namespace_id repr (JStr id) s = (Ok (JStr y), s)
    /\ startswith y (default ns org +:+ ":") = true
    /\ (startswith id (default ns org +:+ ":") = true -> y = id)
    /\ product_namespace_id repr (JStr y) s = (Ok (JStr y), s).
Proof.
  intros P O N.
  assert (forall x,
            product_namespace_id repr (JStr x) s
            = (if startswith x (default ns org +:+ ":") then Ok (JStr x)
               else Ok (JStr ((default ns org +:+ ":") +:+ x)), s)) as Run.
  { intros x. unfold product_namespace_id.
    erewrite bind_ok by exact P. cbv beta.
    erewrite bind_ok by (unfold lift_res; rewrite O; reflexivity). cbv beta.
    erewrite (bind_ok _ _ s s (JStr (default ns org))).
    2: { destruct org as [o|]; [reflexivity | exact N]. }
    cbv beta. simpl.
    destruct (startswith x (default ns org +:+ ":")); reflexivity. }
  destruct (startswith id (default ns org +:+ ":")) eqn:S.
  - exists id. rewrite Run, S. repeat split; auto.
  - exists ((default ns org +:+ ":") +:+ id).
    assert (startswith ((default ns org +:+ ":") +:+ id)
              (default ns org +:+ ":") = true) as S' by apply prefix_app.
    rewrite !Run, S, S'. repeat split; auto. discriminate.
Qed.

End CatalogProperties.

(** * Further scenarios *)

Definition with_path (p : option string) (x : InitArgs) : InitArgs :=
  {| arg_domain := arg_domain x; arg_scope := arg_scope x;
     arg_leeway := arg_leeway x;
     arg_token_info_path := GivenPath p;
     arg_client_id := arg_client_id x;
     arg_client_secret := arg_client_secret x;
     arg_jwt_token := arg_jwt_token x;
     arg_refresh_token := arg_refresh_token x;
     arg_suppress_warning := arg_suppress_warning x |}.

(** An Auth object without credentials. *)
Definition auth_anonymous : Auth :=
  {| domain := "https://iam.example"; scope := JNull; leeway := 500;
     token_info_path := None; client_id := JNull;
     client_secret := JNull; refresh_token := JNull;
     _token := JNull; _namespace := JNull; _payload := None; _aas := None;
     _aasas := None; _aoas := None; _aoasas := None |}.

(** Credentials and the default cache path, no token yet. *)
Definition auth_caching : Auth :=
  {| domain := "https://iam.example"; scope := JNull; leeway := 500;
     token_info_path := Some "/home/user/.earthone/token_info.json";
     client_id := JStr "cid";
     client_secret := JStr "secret"; refresh_token := JStr "secret";
     _token := JNull; _namespace := JNull; _payload := None; _aas := None;
     _aasas := None; _aoas := None; _aoasas := None |}.

(** A cache file of the same account, with a scope and a token under the
    legacy key; the endpoint issues a token. *)
Definition world_cached : World :=
  world_of
    {[ "/home/user/.earthone" := Dir 448;
       "/home/user/.earthone/token_info.json" :=
         File 384 (Some (JObj [("client_id", JStr "cid");
                               ("client_secret", JStr "secret");
                               ("scope", JArr [JStr "openid"]);
                               ("JWT_TOKEN", JStr "old")])) ]}
    ∅ 9600
    (answer 200 (Some (JObj [("access_token", JStr token_10000)]))).

(** A cache file at a path of the caller's choice, with a token of the
    account cid. *)
Definition world_matching : World :=
  world_of
    {[ "/tmp/cache.json" :=
         File 384 (Some (JObj [("client_id", JStr "cid");
                               ("refresh_token", JStr "secret");
                               ("jwt_token", JStr token_10000)])) ]}
    ∅ 9600 tokenless.

Definition world_switched_off : World :=
  world_of cache_of_x {[ "EARTHONE_NO_JWT_CACHE" := "True" ]} 9600
    tokenless.

(** header.base64url of the claims exp 10000, groups acme:org-admin,
    p1:resource-admin, :org-admin, acme:team, other:team and everyone, org
    acme, email Ada@Example.COM, sub auth0|ada, then .sig *)
Definition token_admin : string :=
  "header.eyJleHAiOjEwMDAwLCJncm91cHMiOlsiYWNtZTpvcmctYWRtaW4iLCJwMTpyZXNvdXJjZS1hZG1pbiIsIjpvcmctYWRtaW4iLCJhY21lOnRlYW0iLCJvdGhlcjp0ZWFtIiwiZXZlcnlvbmUiXSwib3JnIjoiYWNtZSIsImVtYWlsIjoiQWRhQEV4YW1wbGUuQ09NIiwic3ViIjoiYXV0aDB8YWRhIn0.sig".

Definition groups_admin : list string :=
  ["acme:org-admin"; "p1:resource-admin"; ":org-admin"; "acme:team";
   "other:team"; "everyone"].

Definition claims_admin : json :=
  JObj [("exp", JNum 10000); ("groups", JArr (map JStr groups_admin));
        ("org", JStr "acme"); ("email", JStr "Ada@Example.COM");
        ("sub", JStr "auth0|ada")].

(** The state of an Auth object that holds [token_admin], before anything
    was asked of it. *)
Definition ada : Auth * World := (auth_holding (JStr token_admin), world_early).

(** The same once the claims and the namespace have been computed. *)
Definition ada_known : Auth * World := snd (namespace ada).

Lemma X6_get_token_needs_credentials_witness :
  token (auth_anonymous, world_quiet)
  = (Raise AuthError, (auth_anonymous, world_quiet)).
Proof.
  apply (X6_get_token_needs_credentials auth_anonymous world_quiet).
  - left. reflexivity.
  - reflexivity.
Defined.

(** The session hands back an answer 204, which has no content. *)
Definition world_no_content : World := world_of ∅ ∅ 9600 (answer 204 None).

Lemma X7_get_token_rejected_witness :
  _get_token (auth_holding JNull, world_no_content)
  = (Raise OauthError,
     (auth_holding JNull,
      with_posted [[("client_id", JStr "cid");
                    ("grant_type", JStr "refresh_token");
                    ("refresh_token", JStr "secret")]]
        (advance world_no_content))).
Proof.
  apply (X7_get_token_rejected (auth_holding JNull) world_no_content
           [("client_id", JStr "cid"); ("grant_type", JStr "refresh_token");
            ("refresh_token", JStr "secret")]
           {| status_code := 204; text := ""; body := None |}).
  - reflexivity.
  - reflexivity.
  - reflexivity.
  - reflexivity.
  - discriminate.
Defined.

Lemma X8_get_token_installs_witness :
  _get_token (auth_holding JNull, world_issuing)
  = (Ok tt,
     (_clear_cache (set_token (JStr token_10000) (auth_holding JNull)),
      with_posted [[("client_id", JStr "cid");
                    ("grant_type", JStr "refresh_token");
                    ("refresh_token", JStr "secret")]]
        (advance world_issuing))).
Proof.
  destruct (X8_get_token_installs (auth_holding JNull) world_issuing
              [("client_id", JStr "cid"); ("grant_type", JStr "refresh_token");
               ("refresh_token", JStr "secret")]
              {| status_code := 200; text := "";
                 body := Some (JObj [("access_token", JStr token_10000)]) |}
              (JObj [("access_token", JStr token_10000)])
              (JStr token_10000) JNull)
    as (res & w' & E & _ & U); [reflexivity .. |].
  destruct (U eq_refl) as [-> ->]. exact E.
Defined.

Lemma X9_refresh_failure_not_softened_witness :
  fst (token (auth_holding (JStr token_10000), world_offline))
  = Raise (Foreign "ConnectionError").
Proof.
  rewrite (X9_refresh_failure_not_softened (auth_holding (JStr token_10000))
             world_offline
             (JObj [("exp", JNum 10000); ("aud", JStr "cid")])
             (JNum 10000) 10000
             [("client_id", JStr "cid"); ("grant_type", JStr "refresh_token");
              ("refresh_token", JStr "secret")]
             (Foreign "ConnectionError")).
  - reflexivity.
  - reflexivity.
  - vm_compute. reflexivity.
  - reflexivity.
  - reflexivity.
  - vm_compute. reflexivity.
  - reflexivity.
  - reflexivity.
  - reflexivity.
  - reflexivity.
  - reflexivity.
Defined.

Lemma X10_refresh_updates_cache_witness :
  files (snd (snd (_get_token (auth_caching, world_cached))))
  !! "/home/user/.earthone/token_info.json"
  = Some (File 384 (Some (JObj [("client_id", JStr "cid");
                                ("client_secret", JStr "secret");
                                ("scope", JArr [JStr "openid"]);
                                ("jwt_token", JStr token_10000)]))).
Proof.
  destruct (X10_refresh_updates_cache auth_caching world_cached
              [("client_id", JStr "cid"); ("grant_type", JStr "refresh_token");
               ("refresh_token", JStr "secret")]
              {| status_code := 200; text := "";
                 body := Some (JObj [("access_token", JStr token_10000)]) |}
              (JObj [("access_token", JStr token_10000)])
              (JStr token_10000) JNull
              "/home/user/.earthone/token_info.json"
              [("client_id", JStr "cid"); ("client_secret", JStr "secret");
               ("scope", JArr [JStr "openid"]); ("JWT_TOKEN", JStr "old")]
              384 448)
    as (w' & E & _ & F).
  - intros n c. reflexivity.
  - reflexivity.
  - reflexivity.
  - reflexivity.
  - reflexivity.
  - reflexivity.
  - reflexivity.
  - reflexivity.
  - reflexivity.
  - reflexivity.
  - reflexivity.
  - reflexivity.
  - vm_compute. reflexivity.
  - vm_compute. reflexivity.
  - vm_compute. reflexivity.
  - vm_compute. discriminate.
  - rewrite E. simpl. rewrite F. rewrite lookup_insert_eq. reflexivity.
Defined.

(** A token, a refresh token and a client_id are passed, and no cache
    path: the token is saved under the name derived from the refresh token,
    alone. *)
Lemma X11_init_offline_witness :
  posted (world_after
            (with_jwt_token token_10000
               (with_refresh_token "abc" (with_client_id "cid" no_args)))
            world_issuing) = []
  /\ only_wrote (fun c => c = JObj [("jwt_token", JStr token_10000)])
       (files world_issuing)
       (files (world_after
                 (with_jwt_token token_10000
                    (with_refresh_token "abc" (with_client_id "cid" no_args)))
                 world_issuing))
  /\ files (world_after
              (with_jwt_token token_10000
                 (with_refresh_token "abc" (with_client_id "cid" no_args)))
              world_issuing)
     !! "/home/user/.earthone/jwt_token_a9993e364706816aba3e25717850c26c9cd0d89d.json"
     = Some (File 384 (Some (JObj [("jwt_token", JStr token_10000)]))).
Proof.
  destruct (X11_init_offline
              (with_jwt_token token_10000
                 (with_refresh_token "abc" (with_client_id "cid" no_args)))
              world_issuing _ _ (surjective_pairing _)) as [Posted Wrote].
  split; [exact Posted|]. split; [exact Wrote|].
  vm_compute. reflexivity.
Defined.

Lemma X12_init_explicit_path_reads_only_witness :
  files (world_after (with_client_id "cid"
                        (with_refresh_token "secret"
                           (with_path (Some "/tmp/cache.json") no_args)))
           world_matching)
  = files world_matching.
Proof.
  apply (X12_init_explicit_path_reads_only
           (with_client_id "cid"
              (with_refresh_token "secret"
                 (with_path (Some "/tmp/cache.json") no_args)))
           world_matching "/tmp/cache.json"
           (fst (__init__ (with_client_id "cid"
                             (with_refresh_token "secret"
                                (with_path (Some "/tmp/cache.json") no_args)))
                   world_matching))).
  - reflexivity.
  - discriminate.
  - apply surjective_pairing.
Defined.

Lemma X13_init_without_cache_path_witness :
  __init__ (with_path None no_args) (with_files cache_of_x world_quiet)
  = (fst (__init__ (with_path None no_args) world_quiet),
     with_files cache_of_x (snd (__init__ (with_path None no_args) world_quiet))).
Proof.
  exact (proj2 (X13_init_without_cache_path (with_path None no_args) world_quiet
                  cache_of_x eq_refl)).
Defined.

Lemma X14_init_unifies_secrets_witness :
  client_secret (built (with_refresh_token "abc" (with_client_id "cid" no_args))
                   world_quiet) = JStr "abc".
Proof.
  assert (__init__ (with_refresh_token "abc" (with_client_id "cid" no_args))
            world_quiet
          = (Ok (built (with_refresh_token "abc" (with_client_id "cid" no_args))
                   world_quiet),
             world_after (with_refresh_token "abc"
                            (with_client_id "cid" no_args)) world_quiet))
    as I by (apply init_built; eexists; vm_compute; reflexivity).
  apply (proj2 (X14_init_unifies_secrets _ _ _ _ I) "abc").
  - reflexivity.
  - discriminate.
Defined.

Lemma X15_init_adopts_matching_cache_witness :
  _token (built (with_client_id "cid"
                   (with_refresh_token "secret"
                      (with_path (Some "/tmp/cache.json") no_args)))
            world_matching)
  = JStr token_10000.
Proof.
  set (args := with_client_id "cid"
                 (with_refresh_token "secret"
                    (with_path (Some "/tmp/cache.json") no_args))).
  assert (__init__ args world_matching
          = (Ok (built args world_matching), world_after args world_matching))
    as I by (apply init_built; eexists; vm_compute; reflexivity).
  destruct (X15_init_adopts_matching_cache args world_matching "/tmp/cache.json"
              _ _ eq_refl ltac:(discriminate) eq_refl eq_refl I)
    as (mode & stored & L & _ & _ & T).
  - vm_compute. reflexivity.
  - rewrite T. vm_compute in L. inversion L. reflexivity.
Defined.

Lemma X16_init_cache_switched_off_witness :
  client_id (built no_args world_switched_off) = JNull.
Proof.
  destruct (X16_init_cache_switched_off no_args world_switched_off "True"
              "/home/user/.earthone/token_info.json")
    as (a & I & C & _); [reflexivity .. |].
  unfold built. rewrite I. exact C.
Defined.

Lemma X17_doctor_renames_witness :
  exists d',
    doctor ["earthdaily__dl__userid"; "org"]
      [("earthdaily__dl__userid", JStr "u1"); ("org", JStr "acme")] = Ok d'
    /\ assoc "userid" d' = Some (JStr "u1")
    /\ assoc "org" d' = Some (JStr "acme").
Proof.
  destruct (X17_doctor_renames
              [("earthdaily__dl__userid", JStr "u1"); ("org", JStr "acme")])
    as (d' & Run & _ & Renamed & Kept).
  - apply (bool_decide_unpack _). vm_compute. exact I.
  - intros k In C. vm_compute in In.
    destruct In as [<- | [<- | []]]; [reflexivity | discriminate C].
  - exists d'. split; [exact Run|]. split.
    + exact (Renamed "earthdaily__dl__userid" (JStr "u1") eq_refl eq_refl).
    + exact (Kept "org" eq_refl eq_refl).
Defined.

Lemma X19_namespace_rule_witness :
  fst (namespace ada)
  = Ok (JStr "fccade9969b046166f5bc6ea8d17ce8d345b3886").
Proof.
  destruct (X19_namespace_rule ada (snd (payload ada)) claims_admin JNull)
    as (_ & Legacy & _).
  - reflexivity.
  - vm_compute. reflexivity.
  - reflexivity.
  - rewrite (Legacy eq_refl "auth0|ada" eq_refl). vm_compute. reflexivity.
Defined.

Lemma X20_all_acl_subjects_of_claims_witness :
  fst (all_acl_subjects lower ada)
  = Ok ["user:fccade9969b046166f5bc6ea8d17ce8d345b3886";
        "email:ada@example.com"; "org:acme"; "group:acme:org-admin";
        "group:acme:team"; "group:everyone"].
Proof.
  destruct (X20_all_acl_subjects_of_claims lower ada ada_known ada_known
              "fccade9969b046166f5bc6ea8d17ce8d345b3886" claims_admin
              (Some "Ada@Example.COM") (Some "acme") groups_admin)
    as (Run & _).
  - reflexivity.
  - vm_compute. reflexivity.
  - vm_compute. reflexivity.
  - reflexivity.
  - reflexivity.
  - reflexivity.
  - rewrite Run. vm_compute. reflexivity.
Defined.

Lemma X21_all_owner_acl_subjects_of_claims_witness :
  exists subjects,
    fst (all_owner_acl_subjects ada) = Ok subjects
    /\ In "org:acme" subjects /\ In "access-id:p1" subjects.
Proof.
  destruct (X21_all_owner_acl_subjects_of_claims ada ada_known ada_known
              "fccade9969b046166f5bc6ea8d17ce8d345b3886" claims_admin
              groups_admin eq_refl)
    as (subjects & Run & Members).
  - vm_compute. reflexivity.
  - vm_compute. reflexivity.
  - reflexivity.
  - exists subjects. split; [now rewrite Run|]. split; apply Members.
    + right. left. exists "acme". repeat split; [discriminate|].
      vm_compute. auto.
    + right. right. exists "p1". repeat split; [discriminate|].
      vm_compute. auto 10.
Defined.

Lemma X22_all_acl_subjects_as_set_members_witness :
  exists members : gset string,
    fst (all_acl_subjects_as_set lower ada) = Ok members
    /\ "org:acme" ∈ members.
Proof.
  destruct (X22_all_acl_subjects_as_set_members lower ada
              (snd (all_acl_subjects lower ada))
              ["user:fccade9969b046166f5bc6ea8d17ce8d345b3886";
               "email:ada@example.com"; "org:acme"; "group:acme:org-admin";
               "group:acme:team"; "group:everyone"] eq_refl)
    as (members & Run & Mem & _).
  - vm_compute. reflexivity.
  - exists members. split; [now rewrite Run|]. apply Mem.
    vm_compute. auto.
Defined.

(** A factory that numbers the objects it makes. *)
Definition counting : M nat nat := fun n => (Ok n, S n).

Lemma X23_get_once_witness :
  ThreadLocalWrapper.get counting 1 100
    (snd (ThreadLocalWrapper.get counting 1 100
            (ThreadLocalWrapper.__init__ 0 100, 0%nat)))
  = (Ok 0%nat,
     snd (ThreadLocalWrapper.get counting 1 100
            (ThreadLocalWrapper.__init__ 0 100, 0%nat))).
Proof.
  apply (X23_get_once counting 1 100 0%nat
           (ThreadLocalWrapper.__init__ 0 100, 0%nat)).
  vm_compute. reflexivity.
Defined.

Lemma X24_get_in_new_process_witness :
  fst (ThreadLocalWrapper.get counting 0 200
         (snd (ThreadLocalWrapper.get counting 0 100
                 (ThreadLocalWrapper.__init__ 0 100, 0%nat))))
  = Ok 1%nat.
Proof.
  rewrite (surjective_pairing (snd (ThreadLocalWrapper.get counting 0 100 _))).
  rewrite (X24_get_in_new_process counting 0 200 100).
  - reflexivity.
  - vm_compute. reflexivity.
  - discriminate.
Defined.

Lemma X25_get_isolated_witness :
  let s1 := snd (ThreadLocalWrapper.get counting 0 100
                   (ThreadLocalWrapper.__init__ 0 100, 0%nat)) in
  let s2 := snd (ThreadLocalWrapper.get counting 1 100 s1) in
  ThreadLocalWrapper.get counting 0 100 s2 = (Ok 0%nat, s2).
Proof.
  intros s1 s2.
  apply (X25_get_isolated counting 0 1 100 0%nat
           (ThreadLocalWrapper.__init__ 0 100, 0%nat) s1 s2
           (fst (ThreadLocalWrapper.get counting 1 100 s1))).
  - intros t a. unfold ThreadLocalWrapper.__init__,
      ThreadLocalWrapper._create_local. simpl.
    intros L. apply lookup_singleton_Some in L as [_ <-]. reflexivity.
  - vm_compute. reflexivity.
  - discriminate.
  - apply surjective_pairing.
Defined.

Lemma X26_blob_namespace_id_idempotent_witness :
  fst (blob_namespace_id (fun _ => "") (JStr "myproject") ada_known)
  = Ok (JStr "acme:myproject").
Proof.
  destruct (X26_blob_namespace_id_idempotent (fun _ => "") ada_known claims_admin
              (Some "acme") (Some "myproject")
              "fccade9969b046166f5bc6ea8d17ce8d345b3886")
    as (y & Run & _ & _ & Again).
  - vm_compute. reflexivity.
  - reflexivity.
  - vm_compute. reflexivity.
  - discriminate.
  - simpl of_str in Run. rewrite Run. vm_compute in Run.
    inversion Run. reflexivity.
Defined.

Lemma X27_product_namespace_id_idempotent_witness :
  fst (product_namespace_id (fun _ => "") (JStr "my-product") ada_known)
  = Ok (JStr "acme:my-product").
Proof.
  destruct (X27_product_namespace_id_idempotent (fun _ => "") ada_known
              claims_admin (Some "acme")
              "fccade9969b046166f5bc6ea8d17ce8d345b3886" "my-product")
    as (y & Run & _ & _ & Again).
  - vm_compute. reflexivity.
  - reflexivity.
  - vm_compute. reflexivity.
  - rewrite Run. vm_compute in Run. inversion Run. reflexivity.
Defined.
